(** * The mynewt shell (sys/shell/src/shell.c): a shallow embedding

    The C file keeps the whole interpreter in file-scope variables and
    talks to the user through [console_printf].  The embedding threads a
    record of those variables through a small monad that also collects
    the console output and can stop in an undefined state (an access
    outside a C array).  Strings that the code only reads are [string];
    the two character arrays that the code writes in place (the line
    being tokenized and [default_module_prompt]) are [list ascii].

    The file has three parts: the code, function by function and under
    the names of the C file; the vocabulary of the statements; the
    proofs, by function. *)

From Stdlib Require Import List String Ascii ZArith Lia Bool Arith DecimalString.
Import ListNotations.

Local Open Scope string_scope.
Local Open Scope nat_scope.
Local Open Scope list_scope.

(** ** Types of shell/shell.h *)

(** The callback of a command, the C type [shell_cmd_func_t]: a function
    of [int argc] and [char *argv[]] that returns [int].
    A callback is given the argument count and the argument vector it can
    read ([None] is the NULL pointer) and answers with its return value
    and with the lines it printed.  Callbacks are taken not to call back
    into the shell's own registration functions. *)
Definition user_callback : Type := nat -> list (option string) -> Z * list string.

(** Modelled from the spec: [struct shell_cmd_help] of shell/shell.h, which
    is not part of the sources at hand; the fields are the ones shell.c
    reads ([summary], [usage]), each a possibly-NULL string. *)
Record shell_cmd_help : Type := mk_help {
  summary : option string;
  usage : option string
}.

(** Modelled from the spec: [struct shell_cmd] of shell/shell.h, from the
    fields shell.c reads.  The sentinel entry whose [sc_cmd] is NULL ends
    a command table; a table is the list of the entries before it. *)
Record shell_cmd : Type := mk_cmd {
  sc_cmd : string;
  sc_cmd_func : option user_callback;
  help : option shell_cmd_help
}.

(** Modelled from the spec: [struct shell_module] of shell/shell.h. *)
Record shell_module : Type := mk_module {
  module_name : string;
  commands : list shell_cmd
}.

(** What a [shell_cmd_func_t] variable of [shell_process_command] can hold:
    one of the two static handlers of shell.c or a callback from outside. *)
Inductive shell_cmd_func_t : Type :=
| show_help_fn
| select_module_fn
| user_fn (f : user_callback).

(** ** The file-scope variables *)

Definition SHELL_PROMPT : string := "shell> ".
Definition MODULE_NAME_MAX_LEN : nat := 20.
Definition PROMPT_SUFFIX : nat := 3.
Definition PROMPT_MAX_LEN : nat := MODULE_NAME_MAX_LEN + PROMPT_SUFFIX.

(** [shell_modules] holds the first [num_of_shell_entities] slots of the C
    array, the only ones any function reads; the counter is its length.
    [prompt] is the base prompt that [shell_init] sets before any line is
    processed.  [default_module] is the C [int], -1 for no selection. *)
Record shell : Type := mk_shell {
  shell_modules : list shell_module;
  prompt : string;
  default_module_prompt : list ascii;
  default_module : Z;
  app_cmd_handler : option user_callback;
  app_prompt_handler : option (unit -> option string)
}.

Definition num_of_shell_entities (s : shell) : nat := List.length (shell_modules s).

(** ** Console output and invocations *)

(** [Print s] is one call of [console_printf] with its formatted text.
    [Call f argc argv] marks the point where [shell_process_command] calls
    through [sc_cmd_func], with the arguments it passes. *)
Inductive event : Type :=
| Print (s : string)
| Call (f : shell_cmd_func_t) (argc : nat) (argv : list (option string)).

(** ** The monad: state, output, undefined behaviour

    The output produced before an undefined step is kept. *)
Definition M (A : Type) : Type := shell -> list event * option (A * shell).

Definition ret {A} (a : A) : M A := fun s => ([], Some (a, s)).

Definition bind {A B} (m : M A) (f : A -> M B) : M B := fun s =>
  match m s with
  | (t, None) => (t, None)
  | (t, Some (a, s')) => let (t', r) := f a s' in (t ++ t', r)
  end.

Definition undefined {A} : M A := fun _ => ([], None).
Definition gets {A} (f : shell -> A) : M A := fun s => ([], Some (f s, s)).
Definition modify (f : shell -> shell) : M unit := fun s => ([], Some (tt, f s)).
Definition console_printf (s : string) : M unit := fun st => ([Print s], Some (tt, st)).
Definition of_option {A} (o : option A) : M A :=
  match o with Some a => ret a | None => undefined end.

Declare Scope shell_scope.
Delimit Scope shell_scope with shell.
Notation "x <- m ;; k" := (bind m (fun x => k))
  (at level 61, m at next level, right associativity) : shell_scope.
Notation "' pat <- m ;; k" := (bind m (fun x => match x with pat => k end))
  (at level 61, pat pattern, m at next level, right associativity) : shell_scope.
Notation "m ;;; k" := (bind m (fun _ => k))
  (at level 61, right associativity) : shell_scope.
Local Open Scope shell_scope.

Definition output {A} (r : list event * option (A * shell)) : list event := fst r.
Definition outcome {A} (r : list event * option (A * shell)) : option (A * shell) := snd r.

(** ** C strings *)

Definition NUL : ascii := Ascii.zero.
Definition SP : ascii := " "%char.
Definition is_nul (c : ascii) : bool := Ascii.eqb c NUL.

(** The string that starts at the head of [l]: the characters before the
    first NUL.  A line buffer ends with the terminator the console put
    there; it is the end of the list. *)
Fixpoint cstr (l : list ascii) : string :=
  match l with
  | [] => EmptyString
  | c :: t => if is_nul c then EmptyString else String c (cstr t)
  end.

Definition cstr_at (m : list ascii) (p : nat) : string := cstr (skipn p m).

(** [*p] in a line buffer. *)
Definition peek (m : list ascii) (p : nat) : ascii := nth p m NUL.

(** [a[i] = x]; outside the array the behaviour is undefined. *)
Fixpoint store {A} (a : list A) (i : nat) (x : A) : option (list A) :=
  match a, i with
  | [], _ => None
  | _ :: t, O => Some (x :: t)
  | h :: t, S j => option_map (cons h) (store t j x)
  end.

Definition strlen (s : list ascii) : nat := String.length (cstr s).

(** [strchr(p, c)] over the memory [l] that starts at address [p]. *)
Fixpoint strchr (l : list ascii) (p : nat) (c : ascii) : option nat :=
  match l with
  | [] => if Ascii.eqb NUL c then Some p else None
  | h :: t =>
      if Ascii.eqb h c then Some p
      else if is_nul h then None
      else strchr t (S p) c
  end.

(** The loop that advances [str] while it points at a space (and not at
    the terminator), over the memory from [p] on. *)
Fixpoint skip_spaces (l : list ascii) (p : nat) : nat :=
  match l with
  | [] => p
  | h :: t =>
      if negb (is_nul h) && Ascii.eqb h SP then skip_spaces t (S p) else p
  end.

(** [strcmp(a, b) == 0] *)
Definition strcmp_eq (a b : string) : bool := String.eqb a b.

(** [strncmp(a, b, n) == 0] *)
Fixpoint strncmp_eq (a b : string) (n : nat) : bool :=
  match n with
  | O => true
  | S k =>
      match a, b with
      | EmptyString, EmptyString => true
      | String c a', String d b' => Ascii.eqb c d && strncmp_eq a' b' k
      | _, _ => false
      end
  end.

Definition nl : string := String "010" EmptyString.

(** printf's [%zu] and [%d] *)
Definition fmt_zu (n : nat) : string := NilZero.string_of_uint (Nat.to_uint n).
Definition fmt_d (z : Z) : string := NilZero.string_of_int (Z.to_int z).

(** printf's [%-30s]: the text, then spaces up to the width. *)
Definition fmt_left (w : nat) (s : string) : string :=
  (s ++ string_of_list_ascii (repeat SP (w - String.length s)))%string.

(** ** line2argv *)

(** The notice of [line2argv]. *)
Definition too_many_msg (size : nat) : string :=
  "Too many parameters (max " ++ fmt_zu (size - 1) ++ ")" ++ nl.

(** A slot of a [char *argv[]] array: not yet written, NULL, or the
    address of a character of the line. *)
Inductive cell : Type :=
| Indet
| Null
| Ptr (p : nat).

(** The loop [while ((str = strchr(str, ' '))) ...] with what follows it.
    Every turn moves [str] forward, so a fuel of one more than the length
    of the line is never used up (see [line2argv_defined]). *)
Fixpoint line2argv_loop (fuel : nat) (buf : list ascii) (str : nat)
    (argv : list cell) (argc size : nat) : M (nat * list ascii * list cell) :=
  match fuel with
  | O => undefined
  | S fuel' =>
      match strchr (skipn str buf) str SP with
      | None =>
          argv' <- of_option (store argv argc Null) ;;
          ret (argc, buf, argv')
      | Some q =>
          buf1 <- of_option (store buf q NUL) ;;
          let str1 := skip_spaces (skipn (S q) buf1) (S q) in
          if is_nul (peek buf1 str1) then
            argv' <- of_option (store argv argc Null) ;;
            ret (argc, buf1, argv')
          else
            argv1 <- of_option (store argv argc (Ptr str1)) ;;
            let argc1 := S argc in
            if argc1 =? size then
              console_printf (too_many_msg size) ;;;
              ret (0, buf1, argv1)
            else line2argv_loop fuel' buf1 str1 argv1 argc1 size
      end
  end.

Definition line2argv (str : list ascii) (argv : list cell) (size : nat)
  : M (nat * list ascii * list cell) :=
  if strlen str =? 0 then ret (0, str, argv)
  else
    let p := skip_spaces str 0 in
    if is_nul (peek str p) then ret (0, str, argv)
    else
      argv1 <- of_option (store argv 0 (Ptr p)) ;;
      line2argv_loop (S (List.length str)) str p argv1 1 size.

(** What a reader of [argv[0..argc]] sees after tokenization: the string
    at each address, [None] for NULL.  Slots past [argv[argc]] are never
    read by the shell. *)
Definition read_cell (buf : list ascii) (c : cell) : option string :=
  match c with
  | Ptr p => Some (cstr_at buf p)
  | Null => None
  | Indet => None
  end.

Definition argv_view (buf : list ascii) (argv : list cell) (argc : nat) : list (option string) :=
  map (read_cell buf) (firstn (S argc) argv).

(** ** The registry and the default module *)

Definition set_shell_modules (v : list shell_module) (s : shell) : shell :=
  mk_shell v (prompt s) (default_module_prompt s) (default_module s)
           (app_cmd_handler s) (app_prompt_handler s).
Definition set_prompt (v : string) (s : shell) : shell :=
  mk_shell (shell_modules s) v (default_module_prompt s) (default_module s)
           (app_cmd_handler s) (app_prompt_handler s).
Definition set_default_module_prompt (v : list ascii) (s : shell) : shell :=
  mk_shell (shell_modules s) (prompt s) v (default_module s)
           (app_cmd_handler s) (app_prompt_handler s).
Definition set_default_module_var (v : Z) (s : shell) : shell :=
  mk_shell (shell_modules s) (prompt s) (default_module_prompt s) v
           (app_cmd_handler s) (app_prompt_handler s).
Definition set_app_cmd_handler (v : option user_callback) (s : shell) : shell :=
  mk_shell (shell_modules s) (prompt s) (default_module_prompt s) (default_module s)
           v (app_prompt_handler s).
Definition set_app_prompt_handler (v : option (unit -> option string)) (s : shell) : shell :=
  mk_shell (shell_modules s) (prompt s) (default_module_prompt s) (default_module s)
           (app_cmd_handler s) v.

(** The variables as the C start-up code leaves them: zeroed, except
    [default_module], which is initialised to -1.  The NULL [prompt] is
    the empty string here. *)
Definition shell_start : shell :=
  mk_shell [] EmptyString (repeat NUL PROMPT_MAX_LEN) (-1) None None.

(** [shell_modules[module]]; an index outside the registered slots is an
    undefined access. *)
Definition module_at (module : Z) : M shell_module :=
  mods <- gets shell_modules ;;
  if (module <? 0)%Z then undefined
  else of_option (nth_error mods (Z.to_nat module)).

Definition get_prompt : M string :=
  h <- gets app_prompt_handler ;;
  match match h with Some f => f tt | None => None end with
  | Some str => ret str
  | None =>
      dm <- gets default_module ;;
      if negb (dm =? -1)%Z then gets (fun s => cstr (default_module_prompt s))
      else gets prompt
  end.

Fixpoint get_destination_module_from (mods : list shell_module) (i : Z)
    (module_str : string) (len : nat) : Z :=
  match mods with
  | [] => (-1)%Z
  | m :: rest =>
      if strncmp_eq module_str (module_name m) len then i
      else get_destination_module_from rest (i + 1)%Z module_str len
  end.

Definition get_destination_module (module_str : string) (len : nat) : M Z :=
  gets (fun s => get_destination_module_from (shell_modules s) 0 module_str len).

(** [argv[i]] of an argument vector seen by value. *)
Definition arg (argv : list (option string)) (i : nat) : option string := nth i argv None.

(** The result is the pair of the returned command name and of [*module]. *)
Definition get_command_and_module (argv : list (option string)) : M (option string * Z) :=
  match arg argv 0 with
  | None => console_printf ("Unrecognized command" ++ nl) ;;; ret (None, (-1)%Z)
  | Some a0 =>
      dm <- gets default_module ;;
      if (dm =? -1)%Z then
        match arg argv 1 with
        | None =>
            console_printf ("Unrecognized command: " ++ a0 ++ nl) ;;; ret (None, (-1)%Z)
        | Some a1 =>
            if String.eqb a1 EmptyString then
              console_printf ("Unrecognized command: " ++ a0 ++ nl) ;;; ret (None, (-1)%Z)
            else
              module <- get_destination_module a0 MODULE_NAME_MAX_LEN ;;
              if (module =? -1)%Z then
                console_printf ("Illegal module " ++ a0 ++ nl) ;;; ret (None, (-1)%Z)
              else ret (Some a1, module)
        end
      else ret (Some a0, dm)
  end.

(** The text [show_cmd_help] prints under the name of a command. *)
Definition help_text (c : shell_cmd) : string :=
  match help c with
  | None => nl
  | Some h =>
      match usage h with
      | Some u => u ++ nl
      | None => match summary h with Some sm => sm ++ nl | None => nl end
      end
  end.

Fixpoint show_cmd_help_loop (cmds : list shell_cmd) (command argv0 : string) : M Z :=
  match cmds with
  | [] => console_printf ("Unrecognized command: " ++ argv0 ++ nl) ;;; ret 0%Z
  | c :: rest =>
      if strcmp_eq command (sc_cmd c) then
        console_printf (sc_cmd c ++ ":" ++ nl) ;;;
        console_printf (help_text c) ;;;
        ret 0%Z
      else show_cmd_help_loop rest command argv0
  end.

Definition show_cmd_help (argv : list (option string)) : M Z :=
  '(command, module) <- get_command_and_module argv ;;
  match command with
  | None => ret 0%Z
  | Some command =>
      if (module =? -1)%Z then ret 0%Z
      else
        shell_module <- module_at module ;;
        argv0 <- of_option (arg argv 0) ;;
        show_cmd_help_loop (commands shell_module) command argv0
  end.

Fixpoint print_modules_from (mods : list shell_module) : M unit :=
  match mods with
  | [] => ret tt
  | m :: rest => console_printf (module_name m ++ nl) ;;; print_modules_from rest
  end.

Definition print_modules : M unit :=
  mods <- gets shell_modules ;; print_modules_from mods.

Fixpoint print_module_commands_loop (cmds : list shell_cmd) : M unit :=
  match cmds with
  | [] => ret tt
  | c :: rest =>
      console_printf (fmt_left 30 (sc_cmd c)) ;;;
      match help c with
      | Some h =>
          match summary h with
          | Some sm => console_printf sm
          | None => ret tt
          end
      | None => ret tt
      end ;;;
      console_printf nl ;;;
      print_module_commands_loop rest
  end.

Definition print_module_commands (module : Z) : M unit :=
  console_printf ("help" ++ nl) ;;;
  shell_module <- module_at module ;;
  print_module_commands_loop (commands shell_module).

Definition show_help (argc : nat) (argv : list (option string)) : M Z :=
  dm <- gets default_module ;;
  if (2 <? argc) || (negb (dm =? -1)%Z && (argc =? 2)) then
    show_cmd_help (skipn 1 argv)
  else if (argc =? 2) || (negb (dm =? -1)%Z && (argc =? 1)) then
    if (dm =? -1)%Z then
      a1 <- of_option (arg argv 1) ;;
      module <- get_destination_module a1 MODULE_NAME_MAX_LEN ;;
      if (module =? -1)%Z then
        console_printf ("Illegal module " ++ a1 ++ nl) ;;; ret 0%Z
      else print_module_commands module ;;; ret 0%Z
    else print_module_commands dm ;;; ret 0%Z
  else
    console_printf ("Available modules:" ++ nl) ;;;
    print_modules ;;;
    console_printf ("To select a module, enter 'select <module name>'." ++ nl) ;;;
    ret 0%Z.

(** [strncpy(dst, src, n)]: exactly [n] bytes are written, the characters
    of [src] and then NULs; no terminator when [src] has [n] characters
    or more. *)
Fixpoint strncpy (dst : list ascii) (src : string) (n : nat) {struct n}
  : option (list ascii) :=
  match n with
  | O => Some dst
  | S k =>
      match dst with
      | [] => None
      | _ :: d =>
          match src with
          | EmptyString => option_map (cons NUL) (strncpy d EmptyString k)
          | String c src' => option_map (cons c) (strncpy d src' k)
          end
      end
  end.

(** [src] and its terminator written from the head of [dst] on. *)
Fixpoint strcpy (dst : list ascii) (src : string) : option (list ascii) :=
  match dst with
  | [] => None
  | _ :: d =>
      match src with
      | EmptyString => Some (NUL :: d)
      | String c src' => option_map (cons c) (strcpy d src')
      end
  end.

(** [strcat(dst, src)]: [src] is written over the first NUL of the array. *)
Fixpoint strcat (dst : list ascii) (src : string) : option (list ascii) :=
  match dst with
  | [] => None
  | c :: d =>
      if is_nul c then strcpy dst src
      else option_map (cons c) (strcat d src)
  end.

(** The lines [set_default_module] prints when it refuses a name. *)
Definition too_long_msg (name : string) : string :=
  "Module name " ++ name ++ " is too long, default is not changed" ++ nl.
Definition illegal_default_msg (name : string) : string :=
  "Illegal module " ++ name ++ ", default is not changed" ++ nl.

Definition set_default_module (name : string) : M Z :=
  if MODULE_NAME_MAX_LEN <? String.length name then
    console_printf (too_long_msg name) ;;;
    ret (-1)%Z
  else
    module <- get_destination_module name MODULE_NAME_MAX_LEN ;;
    if (module =? -1)%Z then
      console_printf (illegal_default_msg name) ;;;
      ret (-1)%Z
    else
      modify (set_default_module_var module) ;;;
      p0 <- gets default_module_prompt ;;
      p1 <- of_option (strncpy p0 name MODULE_NAME_MAX_LEN) ;;
      modify (set_default_module_prompt p1) ;;;
      p2 <- of_option (strcat p1 "> ") ;;
      modify (set_default_module_prompt p2) ;;;
      ret 0%Z.

Definition select_module (argc : nat) (argv : list (option string)) : M Z :=
  (if argc =? 1 then modify (set_default_module_var (-1))
   else
     a1 <- of_option (arg argv 1) ;;
     set_default_module a1 ;;; ret tt) ;;;
  ret 0%Z.

(** The line [get_cb] prints before it searches the command table. *)
Definition resolver_line (module : Z) (command : string) : string :=
  "module: " ++ fmt_d module ++ ", command: " ++ command ++ nl.

Fixpoint get_cb_loop (cmds : list shell_cmd) (command : string) : option shell_cmd_func_t :=
  match cmds with
  | [] => None
  | c :: rest =>
      if strcmp_eq command (sc_cmd c) then option_map user_fn (sc_cmd_func c)
      else get_cb_loop rest command
  end.

Definition get_cb (argc : nat) (argv : list (option string)) : M (option shell_cmd_func_t) :=
  match arg argv 0 with
  | None => console_printf ("Illegal parameter" ++ nl) ;;; ret None
  | Some first_string =>
      if String.eqb first_string EmptyString then
        console_printf ("Illegal parameter" ++ nl) ;;; ret None
      else if strcmp_eq first_string "help" then ret (Some show_help_fn)
      else if strcmp_eq first_string "select" then ret (Some select_module_fn)
      else
        dm <- gets default_module ;;
        if (argc =? 1) && (dm =? -1)%Z then
          console_printf ("Missing parameter" ++ nl) ;;; ret None
        else
          '(command, module) <- get_command_and_module argv ;;
          match command with
          | None => ret None
          | Some command =>
              if (module =? -1)%Z then ret None
              else
                shell_module <- module_at module ;;
                console_printf (resolver_line module command) ;;;
                ret (get_cb_loop (commands shell_module) command)
          end
  end.

(** ** The executor *)

Fixpoint print_lines (l : list string) : M unit :=
  match l with
  | [] => ret tt
  | x :: rest => console_printf x ;;; print_lines rest
  end.

Definition mark_call (f : shell_cmd_func_t) (argc : nat) (argv : list (option string)) : M unit :=
  fun s => ([Call f argc argv], Some (tt, s)).

(** The call [sc_cmd_func(argc, argv)]. *)
Definition invoke (f : shell_cmd_func_t) (argc : nat) (argv : list (option string)) : M Z :=
  mark_call f argc argv ;;;
  match f with
  | show_help_fn => show_help argc argv
  | select_module_fn => select_module argc argv
  | user_fn g => print_lines (snd (g argc argv)) ;;; ret (fst (g argc argv))
  end.

Definition is_select_module (f : shell_cmd_func_t) : bool :=
  match f with select_module_fn => true | _ => false end.
Definition is_show_help (f : shell_cmd_func_t) : bool :=
  match f with show_help_fn => true | _ => false end.

(** The entry of a command table at which the loops of [get_cb] and of
    [show_cmd_help] stop for a given name: the first one with that name. *)
Fixpoint find_cmd (cmds : list shell_cmd) (command : string) : option shell_cmd :=
  match cmds with
  | [] => None
  | c :: rest => if strcmp_eq command (sc_cmd c) then Some c else find_cmd rest command
  end.

(** [shell_process_command] from the call of [get_cb] on, for a line that
    gave at least one argument: [argc] is 1 or more here, so the C
    subtraction [argc - argc_offset] does not wrap. *)
Definition shell_process_argv (argc : nat) (argv : list (option string)) : M unit :=
  cb <- get_cb argc argv ;;
  h <- gets app_cmd_handler ;;
  match match cb with Some f => Some f | None => option_map user_fn h end with
  | None =>
      argv0 <- of_option (arg argv 0) ;;
      console_printf ("Unrecognized command: " ++ argv0 ++ nl) ;;;
      console_printf ("Type 'help' for list of available commands" ++ nl) ;;;
      p <- get_prompt ;; console_printf p
  | Some sc_cmd_func =>
      dm <- gets default_module ;;
      let argc_offset :=
        if (dm =? -1)%Z && negb (is_select_module sc_cmd_func)
           && negb (is_show_help sc_cmd_func) then 1 else 0 in
      r <- invoke sc_cmd_func (argc - argc_offset) (skipn argc_offset argv) ;;
      (if (r <? 0)%Z then show_cmd_help argv ;;; ret tt else ret tt) ;;;
      p <- get_prompt ;; console_printf p
  end.

Section Shell.

(** The two syscfg values the file reads through [MYNEWT_VAL]. *)
Variable SHELL_MAX_MODULES : nat.
Variable SHELL_CMD_ARGC_MAX : nat.

Definition shell_process_command (line : list ascii) : M unit :=
  '(argc, buf, argv) <- line2argv line (repeat Indet (SHELL_CMD_ARGC_MAX + 1))
                                  (SHELL_CMD_ARGC_MAX + 1) ;;
  if argc =? 0 then
    p <- get_prompt ;; console_printf p
  else shell_process_argv argc (argv_view buf argv argc).

Definition shell_register (name : string) (cmds : list shell_cmd) : M Z :=
  n <- gets num_of_shell_entities ;;
  if SHELL_MAX_MODULES <=? n then ret (-1)%Z
  else
    modify (fun s => set_shell_modules (shell_modules s ++ [mk_module name cmds]) s) ;;;
    ret 0%Z.

End Shell.

Definition shell_register_app_cmd_handler (handler : option user_callback) : M unit :=
  modify (set_app_cmd_handler handler).

Definition shell_register_prompt_handler (handler : option (unit -> option string)) : M unit :=
  modify (set_app_prompt_handler handler).

Definition shell_register_default_module (name : string) : M unit :=
  result <- set_default_module name ;;
  if negb (result =? -1)%Z then
    console_printf nl ;;;
    p <- gets (fun s => cstr (default_module_prompt s)) ;;
    console_printf p
  else ret tt.

(** The part of [shell_init] that touches the variables above. *)
Definition shell_init : M unit := modify (set_prompt SHELL_PROMPT).

(** * Vocabulary of the statements *)

(** ** Reading a run *)

Definition retval {A} (r : list event * option (A * shell)) : option A :=
  option_map fst (outcome r).

(** The console text of a run: the [Print] events, in order. *)
Fixpoint printed (t : list event) : list string :=
  match t with
  | [] => []
  | Print s :: rest => s :: printed rest
  | Call _ _ _ :: rest => printed rest
  end.

(** The invocations of a run, in order. *)
Fixpoint calls (t : list event) : list (shell_cmd_func_t * nat * list (option string)) :=
  match t with
  | [] => []
  | Print _ :: rest => calls rest
  | Call f n a :: rest => (f, n, a) :: calls rest
  end.

(** A computation that makes no call through [sc_cmd_func], and one that
    leaves the variables of the shell as they were. *)
Definition callfree {A} (m : M A) : Prop := forall s, calls (fst (m s)) = [].
Definition readonly {A} (m : M A) : Prop :=
  forall s a s', snd (m s) = Some (a, s') -> s' = s.

(** ** Lines made of tokens *)

Definition spaces (n : nat) : list ascii := repeat SP n.

Definition token_char (c : ascii) : bool := negb (is_nul c) && negb (Ascii.eqb c SP).

(** A token: at least one character, none of them a space or a NUL. *)
Definition is_token (t : list ascii) : bool :=
  match t with
  | [] => false
  | _ :: _ => forallb token_char t
  end.

(** Tokens with the spaces that follow each: a token that is not the last
    is followed by one space more than its count, the last one by exactly
    its count. *)
Fixpoint join (toks : list (list ascii * nat)) : list ascii :=
  match toks with
  | [] => []
  | (t, k) :: rest =>
      t ++ match rest with
           | [] => spaces k
           | _ :: _ => spaces (S k) ++ join rest
           end
  end.

Definition make_line (lead : nat) (toks : list (list ascii * nat)) : list ascii :=
  spaces lead ++ join toks.

(** Nothing is left of the line once its spaces are trimmed. *)
Definition blank (line : list ascii) : bool := forallb (Ascii.eqb SP) line.

(** The arguments a line of tokens should give. *)
Definition token_strings (toks : list (list ascii * nat)) : list (option string) :=
  map (fun t => Some (string_of_list_ascii (fst t))) toks.

(** The memory from the start of token [t] (at address [p]) on, and the
    addresses of the tokens after [t], once the loop of [line2argv] has
    gone over them. *)
Fixpoint scan (p : nat) (t : list ascii) (k : nat) (rest : list (list ascii * nat))
  : list ascii * list nat :=
  match rest with
  | [] => (t ++ match k with O => [] | S k' => NUL :: spaces k' end, [])
  | (t2, k2) :: rest' =>
      let p2 := p + List.length t + 1 + k in
      (t ++ NUL :: spaces k ++ fst (scan p2 t2 k2 rest'),
       p2 :: snd (scan p2 t2 k2 rest'))
  end.

(** What [line2argv] hands back: either the count 0, or a count below
    [size] with NULL stored at [argv[count]] and nothing printed. *)
Definition line2argv_result (size : nat) (tr : list event)
    (r : nat * list ascii * list cell) : Prop :=
  let '(argc, _, argv) := r in
  List.length argv = size
  /\ (argc = 0 \/ (argc < size /\ nth_error argv argc = Some Null /\ tr = [])).

(** ** Selecting a default module *)

(** A C string: no NUL among its characters. *)
Definition nul_free (s : string) : bool :=
  forallb (fun c => negb (is_nul c)) (list_ascii_of_string s).

(** The two ways a selection fails, and the line printed for each. *)
Definition select_failure (st : shell) (name : string) : option string :=
  if MODULE_NAME_MAX_LEN <? String.length name then Some (too_long_msg name)
  else if (get_destination_module_from (shell_modules st) 0 name MODULE_NAME_MAX_LEN =? -1)%Z
       then Some (illegal_default_msg name)
       else None.

(** ** Resolving a line *)

(** The first argument does not name a built-in and the line is not a
    single bare token with no default module. *)
Definition reaches_lookup (st : shell) (argc : nat) (argv : list (option string)) : Prop :=
  exists a0, arg argv 0 = Some a0
             /\ a0 <> EmptyString /\ a0 <> "help" /\ a0 <> "select"
             /\ ((argc =? 1) && (default_module st =? -1)%Z) = false.

(** The arguments name a registered command: [get_command_and_module]
    gives a command name and a module, the module is a registered one,
    and [c] is the first entry of that name in its table, with callback
    [f]. *)
Record resolves_to (st : shell) (argv : list (option string))
    (command : string) (module : Z) (c : shell_cmd) (f : user_callback) : Prop := {
  res_lookup : get_command_and_module argv st = ([], Some ((Some command, module), st));
  res_index : (0 <= module)%Z;
  res_module : exists m, nth_error (shell_modules st) (Z.to_nat module) = Some m
                         /\ find_cmd (commands m) command = Some c;
  res_func : sc_cmd_func c = Some f
}.

(** The value of [sc_cmd_func] when [shell_process_command] reaches its
    call: what [get_cb] returned or, failing that, the application's
    command handler. *)
Definition resolved_callback (st : shell) (argc : nat) (argv : list (option string))
  : option shell_cmd_func_t :=
  match retval (get_cb argc argv st) with
  | Some (Some f) => Some f
  | Some None => option_map user_fn (app_cmd_handler st)
  | None => None
  end.

(** [argc_offset] of [shell_process_command]. *)
Definition argc_offset (st : shell) (cb : shell_cmd_func_t) : nat :=
  if (default_module st =? -1)%Z && negb (is_select_module cb) && negb (is_show_help cb)
  then 1 else 0.

(** ** The claims in the spec's own words, where the code differs *)

(** The prompt precedence as the spec words it: the callback's string wins
    when it is a non-empty string. *)
Definition spec_get_prompt (st : shell) : string :=
  let fallback :=
    if (default_module st =? -1)%Z then prompt st
    else cstr (default_module_prompt st) in
  match app_prompt_handler st with
  | Some f =>
      match f tt with
      | Some s => if String.eqb s EmptyString then fallback else s
      | None => fallback
      end
  | None => fallback
  end.

(** The tokenizer property as the spec words it, for one line: the
    arguments are the tokens, and the count is zero exactly for a blank
    line. *)
Definition spec_tokenizer (size lead : nat) (toks : list (list ascii * nat)) : Prop :=
  forall argc buf argv st',
    outcome (line2argv (make_line lead toks) (repeat Indet size) size shell_start)
      = Some ((argc, buf, argv), st') ->
    firstn argc (argv_view buf argv argc)
      = token_strings toks
    /\ (argc = 0 <-> blank (make_line lead toks) = true).

(** ** Sample data *)

Definition L (s : string) : list ascii := list_ascii_of_string s.

Definition cb_ok : user_callback := fun _ _ => (0%Z, []).
Definition cb_usage_error : user_callback := fun _ _ => ((-1)%Z, []).

Definition ble_module : shell_module :=
  mk_module "ble"
    [mk_cmd "scan" (Some cb_ok) (Some (mk_help (Some "scan for peers") None));
     mk_cmd "conn" (Some cb_usage_error) (Some (mk_help (Some "connect") (Some "conn <addr>")))].

Definition st_ble : shell :=
  mk_shell [ble_module] SHELL_PROMPT (repeat NUL PROMPT_MAX_LEN) (-1) None None.

Definition name20 : string := "aaaaaaaaaaaaaaaaaaaa".

Definition st_name20 : shell :=
  mk_shell [mk_module name20 []] SHELL_PROMPT (repeat NUL PROMPT_MAX_LEN) (-1) None None.

Definition st_empty_prompt_cb : shell :=
  mk_shell [ble_module] SHELL_PROMPT (repeat NUL PROMPT_MAX_LEN) (-1) None
           (Some (fun _ => Some EmptyString)).

(** [st_ble] once "select ble" has run. *)
Definition st_ble_selected : shell :=
  set_default_module_var 0 (set_default_module_prompt (L "ble> " ++ repeat NUL 18) st_ble).

(** * Vocabulary of the further properties *)

(** ** What line2argv leaves behind *)

(** [buf'] is [buf] with some of its spaces overwritten by NUL and
    nothing else changed. *)
Definition only_spaces_cleared (buf buf' : list ascii) : Prop :=
  List.length buf' = List.length buf
  /\ forall i, nth i buf' NUL = nth i buf NUL
               \/ (nth i buf NUL = SP /\ nth i buf' NUL = NUL).

(** The string at address [p] of [buf] is an argument in the making: it
    lies inside the line, has a character and has no space. *)
Definition good_arg (buf : list ascii) (p : nat) : Prop :=
  p < List.length buf /\ is_token (list_ascii_of_string (cstr_at buf p)) = true.

(** An argument whose terminator lies before address [str]. *)
Definition closed_arg (buf : list ascii) (str p : nat) : Prop :=
  exists e, p <= e /\ e < str /\ is_nul (nth e buf NUL) = true /\ good_arg buf p.

(** ** The registry *)

(** [s] and [nm] agree on their first [n] characters: what
    [strncmp(s, nm, n) == 0] decides. *)
Definition name_matches (s nm : string) (n : nat) : Prop :=
  firstn n (list_ascii_of_string s) = firstn n (list_ascii_of_string nm).

(** A run of calls of [shell_register], as the packages make them one
    after the other at start-up; the result is the list of the values
    returned. *)
Fixpoint shell_register_all (MAX : nat) (regs : list (string * list shell_cmd)) : M (list Z) :=
  match regs with
  | [] => ret []
  | (name, cmds) :: rest =>
      r <- shell_register MAX name cmds ;;
      rs <- shell_register_all MAX rest ;;
      ret (r :: rs)
  end.

Definition module_of (reg : string * list shell_cmd) : shell_module :=
  mk_module (fst reg) (snd reg).

Definition st_two_modules : shell :=
  mk_shell [mk_module "net" []; mk_module "aaaaaaaaaaaaaaaaaaaa-long-name" []]
           SHELL_PROMPT (repeat NUL PROMPT_MAX_LEN) (-1) None None.

(** ** States the shell can be in *)

(** [default_module] is -1 or the index of a registered module, and
    [default_module_prompt] is the array of PROMPT_MAX_LEN bytes. *)
Definition shell_wf (st : shell) : Prop :=
  (default_module st = (-1)%Z
   \/ (0 <= default_module st < Z.of_nat (num_of_shell_entities st))%Z)
  /\ List.length (default_module_prompt st) = PROMPT_MAX_LEN.

(** [st'] differs from [st] at most in the default module and in its
    cached prompt. *)
Definition same_registry (st st' : shell) : Prop :=
  shell_modules st' = shell_modules st
  /\ prompt st' = prompt st
  /\ app_cmd_handler st' = app_cmd_handler st
  /\ app_prompt_handler st' = app_prompt_handler st.

(** The computation [m] returns from [st], leaves [st] as it is and
    gives a value that satisfies [P]. *)
Definition runs {A} (m : M A) (st : shell) (P : A -> Prop) : Prop :=
  exists t a, m st = (t, Some (a, st)) /\ P a.

(** [m] is the index of a registered module. *)
Definition valid_module (st : shell) (m : Z) : Prop :=
  (0 <= m < Z.of_nat (num_of_shell_entities st))%Z.

(** ** What the console shows *)

(** The characters a run sends to the console, all calls of
    [console_printf] put end to end. *)
Definition console_text (t : list event) : string :=
  fold_right String.append EmptyString (printed t).

(** The line of a command in the listing of its module: the name padded
    to 30 columns, then the summary when there is one. *)
Definition command_line (c : shell_cmd) : string :=
  fmt_left 30 (sc_cmd c)
  ++ match help c with
     | Some h => match summary h with Some sm => sm | None => EmptyString end
     | None => EmptyString
     end
  ++ nl.

Definition modules_hint : string :=
  "To select a module, enter 'select <module name>'." ++ nl.

(** * Proofs *)

(** ** The monad *)

Lemma bind_some {A B} (m : M A) (f : A -> M B) s t a s' :
  m s = (t, Some (a, s')) ->
  bind m f s = (t ++ fst (f a s'), snd (f a s')).
Proof. intros H. unfold bind. rewrite H. destruct (f a s'); reflexivity. Qed.

Lemma bind_none {A B} (m : M A) (f : A -> M B) s t :
  m s = (t, None) -> bind m f s = (t, None).
Proof. intros H. unfold bind. rewrite H. reflexivity. Qed.

Lemma bind_ret {A B} (a : A) (f : A -> M B) s : bind (ret a) f s = f a s.
Proof. unfold bind, ret. destruct (f a s); reflexivity. Qed.

Lemma bind_gets {A B} (g : shell -> A) (f : A -> M B) s : bind (gets g) f s = f (g s) s.
Proof. unfold bind, gets. destruct (f (g s) s); reflexivity. Qed.

Lemma bind_modify {B} (g : shell -> shell) (f : unit -> M B) s :
  bind (modify g) f s = f tt (g s).
Proof. unfold bind, modify. destruct (f tt (g s)); reflexivity. Qed.

Lemma bind_printf {B} (x : string) (f : unit -> M B) s :
  bind (console_printf x) f s = (Print x :: fst (f tt s), snd (f tt s)).
Proof. unfold bind, console_printf. destruct (f tt s); reflexivity. Qed.

Lemma bind_mark_call {B} g n a (f : unit -> M B) s :
  bind (mark_call g n a) f s = (Call g n a :: fst (f tt s), snd (f tt s)).
Proof. unfold bind, mark_call. destruct (f tt s); reflexivity. Qed.

Lemma bind_assoc {A B C} (m : M A) (f : A -> M B) (g : B -> M C) s :
  bind (bind m f) g s = bind m (fun a => bind (f a) g) s.
Proof.
  unfold bind. destruct (m s) as [t [[a s']|]]; [|reflexivity].
  destruct (f a s') as [t1 [[b s1]|]]; [|reflexivity].
  destruct (g b s1) as [t2 r]. now rewrite app_assoc.
Qed.

(** ** Computations that only print, and computations that only read *)

Lemma calls_app (t1 t2 : list event) : calls (t1 ++ t2) = calls t1 ++ calls t2.
Proof.
  induction t1 as [|[x|f n a] t1 IH]; cbn; [reflexivity | exact IH | now rewrite IH].
Qed.

Lemma callfree_bind {A B} (m : M A) (f : A -> M B) :
  callfree m -> (forall a, callfree (f a)) -> callfree (bind m f).
Proof.
  intros Hm Hf s. unfold bind. specialize (Hm s).
  destruct (m s) as [t [[a s']|]]; cbn in *; [|exact Hm].
  specialize (Hf a s'). destruct (f a s') as [t' r]. cbn in *.
  now rewrite calls_app, Hm, Hf.
Qed.

Lemma readonly_bind {A B} (m : M A) (f : A -> M B) :
  readonly m -> (forall a, readonly (f a)) -> readonly (bind m f).
Proof.
  intros Hm Hf s b s2. unfold bind. specialize (Hm s).
  destruct (m s) as [t [[a s']|]]; cbn in *; [|discriminate].
  specialize (Hm a s' eq_refl). subst s'.
  specialize (Hf a s b s2). destruct (f a s) as [t' r]. cbn in *. exact Hf.
Qed.

Lemma callfree_ret {A} (a : A) : callfree (ret a).
Proof. intros s. reflexivity. Qed.
Lemma callfree_gets {A} (g : shell -> A) : callfree (gets g).
Proof. intros s. reflexivity. Qed.
Lemma callfree_modify (g : shell -> shell) : callfree (modify g).
Proof. intros s. reflexivity. Qed.
Lemma callfree_printf (x : string) : callfree (console_printf x).
Proof. intros s. reflexivity. Qed.
Lemma callfree_undefined {A} : callfree (@undefined A).
Proof. intros s. reflexivity. Qed.
Lemma callfree_of_option {A} (o : option A) : callfree (of_option o).
Proof. destruct o; intros s; reflexivity. Qed.

Lemma readonly_ret {A} (a : A) : readonly (ret a).
Proof. intros s b s' H. now inversion H. Qed.
Lemma readonly_gets {A} (g : shell -> A) : readonly (gets g).
Proof. intros s b s' H. now inversion H. Qed.
Lemma readonly_printf (x : string) : readonly (console_printf x).
Proof. intros s b s' H. now inversion H. Qed.
Lemma readonly_undefined {A} : readonly (@undefined A).
Proof. intros s b s' H. discriminate. Qed.
Lemma readonly_of_option {A} (o : option A) : readonly (of_option o).
Proof. destruct o; [apply readonly_ret | apply readonly_undefined]. Qed.

Create HintDb shell.
#[local] Hint Resolve callfree_ret callfree_gets callfree_modify callfree_printf
  callfree_undefined callfree_of_option readonly_ret readonly_gets
  readonly_printf readonly_undefined readonly_of_option : shell.

Ltac effects :=
  repeat first
    [ progress intros
    | apply callfree_bind | apply readonly_bind
    | solve [auto with shell]
    | match goal with
      | |- callfree (if ?b then _ else _) => destruct b
      | |- readonly (if ?b then _ else _) => destruct b
      | |- callfree (match ?x with _ => _ end) => destruct x
      | |- readonly (match ?x with _ => _ end) => destruct x
      end ].

Lemma module_at_callfree module : callfree (module_at module).
Proof. unfold module_at. effects. Qed.
#[local] Hint Resolve module_at_callfree : shell.

Lemma module_at_readonly module : readonly (module_at module).
Proof. unfold module_at. effects. Qed.
#[local] Hint Resolve module_at_readonly : shell.

Lemma get_prompt_callfree : callfree (get_prompt).
Proof. unfold get_prompt. effects. Qed.
#[local] Hint Resolve get_prompt_callfree : shell.

Lemma get_prompt_readonly : readonly (get_prompt).
Proof. unfold get_prompt. effects. Qed.
#[local] Hint Resolve get_prompt_readonly : shell.

Lemma get_destination_module_callfree s n : callfree (get_destination_module s n).
Proof. unfold get_destination_module. effects. Qed.
#[local] Hint Resolve get_destination_module_callfree : shell.

Lemma get_destination_module_readonly s n : readonly (get_destination_module s n).
Proof. unfold get_destination_module. effects. Qed.
#[local] Hint Resolve get_destination_module_readonly : shell.

Lemma get_command_and_module_callfree argv : callfree (get_command_and_module argv).
Proof. unfold get_command_and_module. effects. Qed.
#[local] Hint Resolve get_command_and_module_callfree : shell.

Lemma get_command_and_module_readonly argv : readonly (get_command_and_module argv).
Proof. unfold get_command_and_module. effects. Qed.
#[local] Hint Resolve get_command_and_module_readonly : shell.

Lemma show_cmd_help_loop_callfree cmds command argv0 : callfree (show_cmd_help_loop cmds command argv0).
Proof. induction cmds as [|c rest IH]; cbn [show_cmd_help_loop]; effects. Qed.
#[local] Hint Resolve show_cmd_help_loop_callfree : shell.

Lemma show_cmd_help_loop_readonly cmds command argv0 : readonly (show_cmd_help_loop cmds command argv0).
Proof. induction cmds as [|c rest IH]; cbn [show_cmd_help_loop]; effects. Qed.
#[local] Hint Resolve show_cmd_help_loop_readonly : shell.

Lemma show_cmd_help_callfree argv : callfree (show_cmd_help argv).
Proof. unfold show_cmd_help. effects. Qed.
#[local] Hint Resolve show_cmd_help_callfree : shell.

Lemma show_cmd_help_readonly argv : readonly (show_cmd_help argv).
Proof. unfold show_cmd_help. effects. Qed.
#[local] Hint Resolve show_cmd_help_readonly : shell.

Lemma print_modules_from_callfree mods : callfree (print_modules_from mods).
Proof. induction mods as [|m rest IH]; cbn [print_modules_from]; effects. Qed.
#[local] Hint Resolve print_modules_from_callfree : shell.

Lemma print_modules_from_readonly mods : readonly (print_modules_from mods).
Proof. induction mods as [|m rest IH]; cbn [print_modules_from]; effects. Qed.
#[local] Hint Resolve print_modules_from_readonly : shell.

Lemma print_module_commands_loop_callfree cmds : callfree (print_module_commands_loop cmds).
Proof. induction cmds as [|c rest IH]; cbn [print_module_commands_loop]; effects. Qed.
#[local] Hint Resolve print_module_commands_loop_callfree : shell.

Lemma print_module_commands_loop_readonly cmds : readonly (print_module_commands_loop cmds).
Proof. induction cmds as [|c rest IH]; cbn [print_module_commands_loop]; effects. Qed.
#[local] Hint Resolve print_module_commands_loop_readonly : shell.

Lemma print_lines_callfree l : callfree (print_lines l).
Proof. induction l as [|x rest IH]; cbn [print_lines]; effects. Qed.
#[local] Hint Resolve print_lines_callfree : shell.

Lemma print_lines_readonly l : readonly (print_lines l).
Proof. induction l as [|x rest IH]; cbn [print_lines]; effects. Qed.
#[local] Hint Resolve print_lines_readonly : shell.

Lemma show_help_callfree argc argv : callfree (show_help argc argv).
Proof. unfold show_help, print_module_commands, print_modules. effects. Qed.
#[local] Hint Resolve show_help_callfree : shell.

Lemma show_help_readonly argc argv : readonly (show_help argc argv).
Proof. unfold show_help, print_module_commands, print_modules. effects. Qed.
#[local] Hint Resolve show_help_readonly : shell.

Lemma set_default_module_callfree name : callfree (set_default_module name).
Proof. unfold set_default_module. effects. Qed.
#[local] Hint Resolve set_default_module_callfree : shell.

Lemma select_module_callfree argc argv : callfree (select_module argc argv).
Proof. unfold select_module. effects. Qed.
#[local] Hint Resolve select_module_callfree : shell.

Lemma get_cb_callfree argc argv : callfree (get_cb argc argv).
Proof. unfold get_cb. effects. Qed.
#[local] Hint Resolve get_cb_callfree : shell.

Lemma get_cb_readonly argc argv : readonly (get_cb argc argv).
Proof. unfold get_cb. effects. Qed.
#[local] Hint Resolve get_cb_readonly : shell.

(** ** shell_register *)

(** C1, counterexample.  With one module registered and room for three,
    [shell_register] does not return the index of the new module (1): it
    returns the status 0. *)
Lemma shell_register_status_is_not_index :
  num_of_shell_entities st_ble < 3 /\
  retval (shell_register 3 "net" [] st_ble)
    <> Some (Z.of_nat (num_of_shell_entities st_ble)).
Proof. split; [cbn; lia | cbn; discriminate]. Qed.

(** C1, as amended.  Below capacity [shell_register] stores the module in
    the slot whose index is the old count, raises the count by one, leaves
    every other variable alone and returns 0; at capacity it returns -1
    and changes nothing.  It prints nothing either way. *)
Theorem shell_register_appends_or_fails :
  forall (MAX : nat) (name : string) (cmds : list shell_cmd) (st : shell),
    (num_of_shell_entities st < MAX ->
       exists st',
         shell_register MAX name cmds st = ([], Some (0%Z, st'))
         /\ shell_modules st' = shell_modules st ++ [mk_module name cmds]
         /\ nth_error (shell_modules st') (num_of_shell_entities st)
              = Some (mk_module name cmds)
         /\ num_of_shell_entities st' = S (num_of_shell_entities st)
         /\ prompt st' = prompt st
         /\ default_module st' = default_module st
         /\ default_module_prompt st' = default_module_prompt st
         /\ app_cmd_handler st' = app_cmd_handler st
         /\ app_prompt_handler st' = app_prompt_handler st)
    /\ (MAX <= num_of_shell_entities st ->
          shell_register MAX name cmds st = ([], Some ((-1)%Z, st))).
Proof.
  intros MAX name cmds st. unfold shell_register. rewrite bind_gets. split.
  - intros Hlt. apply Nat.leb_gt in Hlt. rewrite Hlt.
    eexists. split; [reflexivity|]. cbn [shell_modules set_shell_modules].
    repeat split.
    + unfold num_of_shell_entities.
      rewrite nth_error_app2 by lia. now rewrite Nat.sub_diag.
    + unfold num_of_shell_entities, set_shell_modules. cbn [shell_modules].
      rewrite length_app. cbn. lia.
  - intros Hge. apply Nat.leb_le in Hge. now rewrite Hge.
Qed.

Lemma shell_register_appends_or_fails_witness :
  (exists st',
     shell_register 3 "net" [] st_ble = ([], Some (0%Z, st'))
     /\ num_of_shell_entities st' = 2)
  /\ shell_register 1 "net" [] st_ble = ([], Some ((-1)%Z, st_ble)).
Proof.
  destruct (shell_register_appends_or_fails 3 "net" [] st_ble) as [Hroom _].
  destruct (shell_register_appends_or_fails 1 "net" [] st_ble) as [_ Hfull].
  split.
  - destruct Hroom as (st' & Hrun & _ & _ & Hn & _); [cbn; lia|].
    exists st'. split; [exact Hrun | exact Hn].
  - apply Hfull. cbn. lia.
Defined.

(** ** get_prompt *)

(** C4, counterexample.  A registered prompt callback that returns the
    empty string (a non-NULL pointer to a NUL) still wins: the prompt is
    empty, where the spec's wording falls through to the base prompt. *)
Lemma get_prompt_empty_callback_string_wins :
  retval (get_prompt st_empty_prompt_cb) = Some EmptyString
  /\ spec_get_prompt st_empty_prompt_cb = SHELL_PROMPT
  /\ retval (get_prompt st_empty_prompt_cb) <> Some (spec_get_prompt st_empty_prompt_cb).
Proof. repeat split. cbn. discriminate. Qed.

(** C4, as amended.  [get_prompt] prints nothing, changes nothing and
    returns: the string of the application prompt callback when one is
    registered and returns a non-NULL string (empty or not); otherwise
    the cached module prompt when a default module is selected; otherwise
    the base prompt. *)
Theorem get_prompt_precedence :
  forall st : shell,
    exists p : string,
      get_prompt st = ([], Some (p, st))
      /\ (forall f s, app_prompt_handler st = Some f -> f tt = Some s -> p = s)
      /\ ((app_prompt_handler st = None
           \/ exists f, app_prompt_handler st = Some f /\ f tt = None) ->
          (default_module st <> (-1)%Z -> p = cstr (default_module_prompt st))
          /\ (default_module st = (-1)%Z -> p = prompt st)).
Proof.
  intros st. unfold get_prompt. rewrite bind_gets.
  destruct (app_prompt_handler st) as [f|] eqn:Hh.
  - destruct (f tt) as [s|] eqn:Hf.
    + exists s. split; [reflexivity|]. split.
      * intros f' s' Heq Hs. inversion Heq; subst. congruence.
      * intros [Hn | (f' & Heq & Hs)]; [discriminate|].
        inversion Heq; subst. congruence.
    + rewrite bind_gets.
      destruct (default_module st =? -1)%Z eqn:Hd; cbn [negb].
      * apply Z.eqb_eq in Hd. exists (prompt st). split; [reflexivity|].
        split; [intros f' s' Heq Hs; inversion Heq; subst; congruence|].
        intros _. split; [intros Hne; contradiction | reflexivity].
      * apply Z.eqb_neq in Hd. exists (cstr (default_module_prompt st)).
        split; [reflexivity|].
        split; [intros f' s' Heq Hs; inversion Heq; subst; congruence|].
        intros _. split; [reflexivity | intros He; contradiction].
  - rewrite bind_gets.
    destruct (default_module st =? -1)%Z eqn:Hd; cbn [negb].
    + apply Z.eqb_eq in Hd. exists (prompt st). split; [reflexivity|].
      split; [intros f' s' Heq; discriminate|].
      intros _. split; [intros Hne; contradiction | reflexivity].
    + apply Z.eqb_neq in Hd. exists (cstr (default_module_prompt st)).
      split; [reflexivity|].
      split; [intros f' s' Heq; discriminate|].
      intros _. split; [reflexivity | intros He; contradiction].
Qed.

Lemma get_prompt_precedence_witness :
  get_prompt st_empty_prompt_cb = ([], Some (EmptyString, st_empty_prompt_cb))
  /\ get_prompt st_ble = ([], Some (SHELL_PROMPT, st_ble)).
Proof.
  split.
  - destruct (get_prompt_precedence st_empty_prompt_cb) as (p & Hrun & Hcb & _).
    rewrite Hrun.
    now rewrite (Hcb (fun _ => Some EmptyString) EmptyString eq_refl eq_refl).
  - destruct (get_prompt_precedence st_ble) as (p & Hrun & _ & Hfall).
    rewrite Hrun.
    destruct (Hfall (or_introl eq_refl)) as [_ Hbase].
    now rewrite (Hbase eq_refl).
Defined.

Lemma get_prompt_runs (st : shell) :
  exists p, get_prompt st = ([], Some (p, st)).
Proof.
  unfold get_prompt. rewrite bind_gets.
  destruct (match app_prompt_handler st with Some f => f tt | None => None end).
  - now eexists.
  - rewrite bind_gets. destruct (negb _); now eexists.
Qed.

(** ** line2argv on any line: it returns, and marks the end when the count is not zero *)

Lemma strchr_bounds l : forall p q,
  strchr l p SP = Some q -> p <= q < p + List.length l.
Proof.
  induction l as [|h t IH]; intros p q; cbn [strchr List.length].
  - change (Ascii.eqb NUL SP) with false. discriminate.
  - destruct (Ascii.eqb h SP); [intros H; inversion H; lia|].
    destruct (is_nul h); [discriminate|].
    intros H. apply IH in H. lia.
Qed.

Lemma store_defined {A} (a : list A) : forall i x,
  i < List.length a ->
  exists a', store a i x = Some a' /\ List.length a' = List.length a
             /\ nth_error a' i = Some x.
Proof.
  induction a as [|h t IH]; intros i x Hi; cbn [List.length] in Hi; [lia|].
  destruct i as [|i]; cbn [store].
  - now eexists.
  - destruct (IH i x ltac:(lia)) as (t' & -> & Hlen & Hnth).
    eexists. split; [reflexivity|]. cbn. now rewrite Hlen.
Qed.

Lemma skip_spaces_bounds l : forall p, p <= skip_spaces l p <= p + List.length l.
Proof.
  induction l as [|h t IH]; intros p; cbn [skip_spaces List.length]; [lia|].
  destruct (negb (is_nul h) && Ascii.eqb h SP); [|lia].
  specialize (IH (S p)). lia.
Qed.

Lemma line2argv_loop_defined fuel :
  forall buf str argv argc size st,
    List.length buf - str < fuel ->
    str <= List.length buf ->
    0 < argc < size ->
    List.length argv = size ->
    exists r, line2argv_loop fuel buf str argv argc size st
              = (fst (line2argv_loop fuel buf str argv argc size st), Some (r, st))
              /\ line2argv_result size
                   (fst (line2argv_loop fuel buf str argv argc size st)) r.
Proof.
  induction fuel as [|fuel IH]; intros buf str argv argc size st Hfuel Hstr Hargc Hlen;
    [lia|].
  cbn [line2argv_loop].
  destruct (store_defined argv argc Null ltac:(lia)) as (argvN & HstN & HlenN & HnthN).
  destruct (strchr (skipn str buf) str SP) as [q|] eqn:Hq.
  - apply strchr_bounds in Hq. rewrite length_skipn in Hq.
    destruct (store_defined buf q NUL ltac:(lia)) as (buf1 & Hst1 & Hlen1 & _).
    rewrite Hst1. cbn [of_option]. rewrite bind_ret.
    pose proof (skip_spaces_bounds (skipn (S q) buf1) (S q)) as Hskip.
    rewrite length_skipn, Hlen1 in Hskip.
    destruct (is_nul (peek buf1 (skip_spaces (skipn (S q) buf1) (S q)))).
    + rewrite HstN. cbn [of_option]. rewrite bind_ret.
      eexists. split; [reflexivity|]. cbn. split; [lia|]. right. now repeat split.
    + destruct (store_defined argv argc
                  (Ptr (skip_spaces (skipn (S q) buf1) (S q))) ltac:(lia))
        as (argv1 & Hst2 & Hlen2 & _).
      rewrite Hst2. cbn [of_option]. rewrite bind_ret.
      destruct (S argc =? size) eqn:Hfull.
      * rewrite bind_printf. eexists. split; [reflexivity|].
        cbn. split; [lia | now left].
      * apply Nat.eqb_neq in Hfull. apply IH; lia.
  - rewrite HstN. cbn [of_option]. rewrite bind_ret.
    eexists. split; [reflexivity|]. cbn. split; [lia|]. right. now repeat split.
Qed.

(** [line2argv] always returns when the array has room for one argument
    and the marker; the state is untouched. *)
Lemma line2argv_defined str argv size st :
  2 <= size ->
  List.length argv = size ->
  exists r, line2argv str argv size st
            = (fst (line2argv str argv size st), Some (r, st))
            /\ line2argv_result size (fst (line2argv str argv size st)) r.
Proof.
  intros Hsize Hlen. unfold line2argv.
  destruct (strlen str =? 0).
  - eexists. split; [reflexivity|]. cbn. split; [exact Hlen | now left].
  - cbv zeta. destruct (is_nul (peek str (skip_spaces str 0))).
    + eexists. split; [reflexivity|]. cbn. split; [exact Hlen | now left].
    + destruct (store_defined argv 0 (Ptr (skip_spaces str 0)) ltac:(lia))
        as (argv1 & Hst & Hlen1 & _).
      rewrite Hst. cbn [of_option]. rewrite bind_ret.
      pose proof (skip_spaces_bounds str 0) as Hskip.
      apply line2argv_loop_defined; lia.
Qed.

(** ** line2argv on a line made of tokens *)

Lemma skipn_app_length {A} (pre l : list A) : skipn (List.length pre) (pre ++ l) = l.
Proof. induction pre as [|x pre IH]; cbn; [reflexivity | exact IH]. Qed.

Lemma store_app_length {A} (pre : list A) (c x : A) (l : list A) :
  store (pre ++ c :: l) (List.length pre) x = Some (pre ++ x :: l).
Proof.
  induction pre as [|y pre IH]; cbn; [reflexivity|]. now rewrite IH.
Qed.

Lemma peek_app_length (pre l : list ascii) :
  peek (pre ++ l) (List.length pre) = peek l 0.
Proof.
  unfold peek. induction pre as [|x pre IH]; cbn; [reflexivity | exact IH].
Qed.

Lemma spaces_length k : List.length (spaces k) = k.
Proof. apply repeat_length. Qed.

Lemma token_char_inv c : token_char c = true -> is_nul c = false /\ Ascii.eqb c SP = false.
Proof.
  unfold token_char. intros H. apply andb_prop in H as [H1 H2].
  now rewrite negb_true_iff in H1, H2.
Qed.

Lemma is_token_inv t :
  is_token t = true -> exists c t', t = c :: t' /\ forallb token_char t = true.
Proof.
  destruct t as [|c t']; cbn [is_token]; [discriminate|].
  intros H. now exists c, t'.
Qed.

Lemma strchr_token t : forall l p,
  forallb token_char t = true ->
  strchr (t ++ l) p SP = strchr l (p + List.length t) SP.
Proof.
  induction t as [|c t IH]; intros l p Ht; cbn [app List.length].
  - now rewrite Nat.add_0_r.
  - cbn in Ht. apply andb_prop in Ht as [Hc Ht].
    apply token_char_inv in Hc as [Hn Hs].
    cbn [strchr]. rewrite Hs, Hn, IH by exact Ht. f_equal. lia.
Qed.

Lemma skip_spaces_spaces k : forall l p,
  skip_spaces (spaces k ++ l) p = skip_spaces l (p + k).
Proof.
  induction k as [|k IH]; intros l p; cbn [spaces repeat app].
  - now rewrite Nat.add_0_r.
  - cbn [skip_spaces]. change (repeat SP k) with (spaces k).
    change (negb (is_nul SP) && (SP =? SP)%char) with true.
    cbv iota. rewrite IH. f_equal. lia.
Qed.

Lemma skip_spaces_only k p : skip_spaces (spaces k) p = p + k.
Proof.
  rewrite <- (app_nil_r (spaces k)). now rewrite skip_spaces_spaces.
Qed.

Lemma skip_spaces_token c l p :
  token_char c = true -> skip_spaces (c :: l) p = p.
Proof.
  intros H. apply token_char_inv in H as [_ Hs]. cbn [skip_spaces].
  now rewrite Hs, andb_false_r.
Qed.

Lemma cstr_token t : forall l,
  forallb token_char t = true ->
  (l = [] \/ exists l', l = NUL :: l') ->
  cstr (t ++ l) = string_of_list_ascii t.
Proof.
  induction t as [|c t IH]; intros l Ht Hl; cbn [app].
  - destruct Hl as [-> | (l' & ->)]; reflexivity.
  - cbn in Ht. apply andb_prop in Ht as [Hc Ht].
    apply token_char_inv in Hc as [Hn _].
    cbn [cstr string_of_list_ascii]. rewrite Hn. f_equal. now apply IH.
Qed.

Lemma join_cons_length t k rest :
  List.length t < List.length (join ((t, k) :: rest)) \/ (rest = [] /\ k = 0).
Proof.
  cbn [join]. rewrite length_app.
  destruct rest as [|[t2 k2] rest'].
  - destruct k as [|k]; [now right|]. left. rewrite spaces_length. lia.
  - left. rewrite length_app, spaces_length. lia.
Qed.

Lemma join_head t k rest :
  is_token t = true ->
  exists c tl, join ((t, k) :: rest) = c :: tl /\ token_char c = true.
Proof.
  intros Ht. apply is_token_inv in Ht as (c & t' & -> & Ht).
  cbn [forallb] in Ht. apply andb_prop in Ht as [Hc _].
  cbn [join app]. now eexists _, _.
Qed.

Lemma skip_spaces_join t k rest p :
  is_token t = true -> skip_spaces (join ((t, k) :: rest)) p = p.
Proof.
  intros Ht. destruct (join_head t k rest Ht) as (c & tl & -> & Hc).
  now apply skip_spaces_token.
Qed.

Lemma peek_join t k rest :
  is_token t = true -> is_nul (peek (join ((t, k) :: rest)) 0) = false.
Proof.
  intros Ht. destruct (join_head t k rest Ht) as (c & tl & -> & Hc).
  now apply token_char_inv in Hc as [Hn _].
Qed.

Lemma store_token_end {A} (pre t : list A) (c x : A) (l : list A) :
  store (pre ++ t ++ c :: l) (List.length pre + List.length t) x
  = Some (pre ++ t ++ x :: l).
Proof.
  rewrite app_assoc, <- length_app, store_app_length. now rewrite <- app_assoc.
Qed.

Lemma skipn_token_end {A} (pre t : list A) (c : A) (l : list A) :
  skipn (S (List.length pre + List.length t)) (pre ++ t ++ c :: l) = l.
Proof.
  replace (pre ++ t ++ c :: l) with ((pre ++ t ++ [c]) ++ l)
    by (rewrite <- !app_assoc; reflexivity).
  replace (S (List.length pre + List.length t)) with (List.length (pre ++ t ++ [c]))
    by (rewrite !length_app; cbn; lia).
  apply skipn_app_length.
Qed.

Lemma line2argv_loop_tokens rest :
  forall t k pre done todo fuel st,
    is_token t = true ->
    forallb is_token (map fst rest) = true ->
    List.length (join ((t, k) :: rest)) < fuel ->
    List.length rest < List.length todo ->
    line2argv_loop fuel (pre ++ join ((t, k) :: rest)) (List.length pre)
                   (done ++ todo) (List.length done)
                   (List.length done + List.length todo) st
    = ([], Some ((List.length done + List.length rest,
                  pre ++ fst (scan (List.length pre) t k rest),
                  done ++ map Ptr (snd (scan (List.length pre) t k rest))
                       ++ Null :: skipn (S (List.length rest)) todo), st)).
Proof.
  induction rest as [|[t2 k2] rest IH];
    intros t k pre done todo fuel st Ht Hrest Hfuel Htodo.
  - (* the last token *)
    destruct fuel as [|fuel]; [lia|].
    destruct todo as [|c todo]; [cbn in Htodo; lia|].
    apply is_token_inv in Ht as (c0 & t0 & Hteq & Ht).
    cbn [line2argv_loop join scan fst snd map List.length].
    rewrite skipn_app_length, strchr_token by exact Ht.
    rewrite Nat.add_0_r.
    destruct k as [|k].
    + cbn [spaces repeat strchr]. change (Ascii.eqb NUL SP) with false. cbv iota.
      rewrite store_app_length. cbn [of_option]. rewrite bind_ret.
      cbn [app skipn]. reflexivity.
    + cbn [spaces repeat strchr]. change (Ascii.eqb SP SP) with true. cbv iota.
      change (repeat SP k) with (spaces k).
      rewrite store_token_end. cbn [of_option]. rewrite bind_ret.
      rewrite skipn_token_end.
      rewrite skip_spaces_only.
      replace (peek (pre ++ t ++ NUL :: spaces k) (S (List.length pre + List.length t) + k))
        with NUL.
      2:{ unfold peek. symmetry. apply nth_overflow.
          rewrite !length_app. cbn [List.length]. rewrite spaces_length. lia. }
      change (is_nul NUL) with true. cbv iota.
      rewrite store_app_length. cbn [of_option]. rewrite bind_ret.
      cbn [app skipn]. reflexivity.
  - (* a token with another one after it *)
    destruct fuel as [|fuel]; [lia|].
    destruct todo as [|c todo]; [cbn in Htodo; lia|].
    destruct todo as [|c' todo]; [cbn in Htodo; lia|].
    pose proof Ht as Htok.
    apply is_token_inv in Ht as (c0 & t0 & Hteq & Ht).
    cbn [map fst forallb] in Hrest. apply andb_prop in Hrest as [Htok2 Hrest].
    cbn [line2argv_loop].
    change (join ((t, k) :: (t2, k2) :: rest))
      with (t ++ SP :: spaces k ++ join ((t2, k2) :: rest)) in *.
    rewrite skipn_app_length, strchr_token by exact Ht.
    cbn [strchr]. change (Ascii.eqb SP SP) with true. cbv iota.
    rewrite store_token_end. cbn [of_option]. rewrite bind_ret.
    rewrite skipn_token_end, skip_spaces_spaces.
    rewrite skip_spaces_join by exact Htok2.
    assert (Hpre' : S (List.length pre + List.length t) + k
                    = List.length (pre ++ t ++ NUL :: spaces k)).
    { rewrite !length_app. cbn [List.length]. rewrite spaces_length. lia. }
    rewrite Hpre'.
    replace (pre ++ t ++ NUL :: spaces k ++ join ((t2, k2) :: rest))
      with ((pre ++ t ++ NUL :: spaces k) ++ join ((t2, k2) :: rest))
      by (rewrite <- !app_assoc; reflexivity).
    rewrite peek_app_length, peek_join by exact Htok2.
    rewrite store_app_length. cbn [of_option]. rewrite bind_ret.
    replace (S (List.length done) =? List.length done + List.length (c :: c' :: todo))
      with false by (symmetry; apply Nat.eqb_neq; cbn [List.length]; lia).
    specialize (IH t2 k2 (pre ++ t ++ NUL :: spaces k)
                   (done ++ [Ptr (List.length (pre ++ t ++ NUL :: spaces k))])
                   (c' :: todo) fuel st Htok2 Hrest).
    replace (List.length (done ++ [Ptr (List.length (pre ++ t ++ NUL :: spaces k))]))
      with (S (List.length done)) in IH
      by (rewrite (length_app done); cbn; lia).
    rewrite <- (app_assoc done) in IH. cbn [app] in IH.
    replace (S (List.length done) + List.length (c' :: todo))
      with (List.length done + List.length (c :: c' :: todo)) in IH
      by (cbn [List.length]; lia).
    rewrite IH.
    + cbn [scan fst snd map List.length skipn].
      replace (List.length pre + List.length t + 1 + k)
        with (List.length (pre ++ t ++ NUL :: spaces k)) by lia.
      replace (S (List.length done) + List.length rest)
        with (List.length done + S (List.length rest)) by lia.
      rewrite <- !app_assoc. reflexivity.
    + rewrite !length_app in Hfuel. cbn [List.length] in Hfuel.
      rewrite length_app, spaces_length in Hfuel. lia.
    + cbn [List.length] in *. lia.
Qed.

Lemma scan_reads rest :
  forall t k pre,
    is_token t = true ->
    forallb is_token (map fst rest) = true ->
    map (cstr_at (pre ++ fst (scan (List.length pre) t k rest)))
        (List.length pre :: snd (scan (List.length pre) t k rest))
    = map string_of_list_ascii (t :: map fst rest).
Proof.
  induction rest as [|[t2 k2] rest IH]; intros t k pre Ht Hrest.
  - apply is_token_inv in Ht as (c & t' & _ & Ht).
    cbn [scan fst snd map]. unfold cstr_at. rewrite skipn_app_length.
    f_equal. apply cstr_token; [exact Ht|].
    destruct k; [now left | right; now eexists].
  - cbn [map fst forallb] in Hrest. apply andb_prop in Hrest as [Ht2 Hrest].
    pose proof Ht as Htok. apply is_token_inv in Ht as (c & t' & _ & Ht).
    cbn [scan fst snd]. cbn [map]. f_equal.
    + unfold cstr_at. rewrite skipn_app_length.
      apply cstr_token; [exact Ht | right; now eexists].
    + specialize (IH t2 k2 (pre ++ t ++ NUL :: spaces k) Ht2 Hrest).
      replace (List.length (pre ++ t ++ NUL :: spaces k))
        with (List.length pre + List.length t + 1 + k) in IH
        by (rewrite !length_app; cbn [List.length]; rewrite spaces_length; lia).
      rewrite <- !app_assoc in IH. cbn [app] in IH. rewrite <- ?app_assoc in IH.
      exact IH.
Qed.

Lemma blank_make_line lead toks :
  forallb is_token (map fst toks) = true ->
  (blank (make_line lead toks) = true <-> toks = []).
Proof.
  intros Htoks. unfold blank, make_line. rewrite forallb_app.
  assert (Hsp : forallb (Ascii.eqb SP) (spaces lead) = true).
  { induction lead; cbn; [reflexivity | assumption]. }
  rewrite Hsp. cbn [andb]. destruct toks as [|[t k] rest].
  - split; reflexivity.
  - cbn [map fst forallb] in Htoks. apply andb_prop in Htoks as [Ht _].
    destruct (join_head t k rest Ht) as (c & tl & -> & Hc).
    apply token_char_inv in Hc as [_ Hs]. cbn [forallb].
    rewrite Ascii.eqb_sym, Hs. cbn [andb]. split; discriminate.
Qed.

Lemma strlen_make_line lead t k rest :
  is_token t = true -> (strlen (make_line lead ((t, k) :: rest)) =? 0) = false.
Proof.
  intros Ht. unfold strlen, make_line.
  destruct lead as [|lead].
  - destruct (join_head t k rest Ht) as (c & tl & -> & Hc).
    apply token_char_inv in Hc as [Hn _]. cbn [spaces repeat app cstr]. now rewrite Hn.
  - reflexivity.
Qed.

(** The whole of [line2argv] on a line of at least one token that fits. *)
Lemma line2argv_tokens lead t k rest c todo st :
  is_token t = true ->
  forallb is_token (map fst rest) = true ->
  List.length rest < List.length todo ->
  line2argv (make_line lead ((t, k) :: rest)) (c :: todo) (S (List.length todo)) st
  = ([], Some ((S (List.length rest),
                spaces lead ++ fst (scan lead t k rest),
                Ptr lead :: map Ptr (snd (scan lead t k rest))
                  ++ Null :: skipn (S (List.length rest)) todo), st)).
Proof.
  intros Ht Hrest Htodo. unfold line2argv.
  rewrite strlen_make_line by exact Ht.
  unfold make_line. rewrite skip_spaces_spaces, skip_spaces_join by exact Ht.
  cbn [Nat.add].
  assert (Hpeek : peek (spaces lead ++ join ((t, k) :: rest)) lead
                  = peek (join ((t, k) :: rest)) 0).
  { rewrite <- (peek_app_length (spaces lead)). now rewrite spaces_length. }
  rewrite Hpeek, peek_join by exact Ht.
  cbn [store of_option]. rewrite bind_ret.
  pose proof (line2argv_loop_tokens rest t k (spaces lead) [Ptr lead]
                todo (S (List.length (spaces lead ++ join ((t, k) :: rest)))) st
                Ht Hrest) as Hloop.
  rewrite !spaces_length in Hloop. cbn [List.length app Nat.add] in Hloop.
  apply Hloop; [rewrite length_app; lia | exact Htodo].
Qed.

Lemma scan_length rest : forall p t k, List.length (snd (scan p t k rest)) = List.length rest.
Proof.
  induction rest as [|[t2 k2] rest IH]; intros p t k; cbn [scan snd List.length].
  - reflexivity.
  - now rewrite IH.
Qed.

Lemma line2argv_blank lead argv0 size st :
  line2argv (make_line lead []) argv0 size st
  = ([], Some ((0, make_line lead [], argv0), st)).
Proof.
  unfold line2argv, make_line. cbn [join]. rewrite app_nil_r.
  destruct lead as [|lead]; [reflexivity|].
  change (strlen (spaces (S lead)) =? 0) with false. cbv iota.
  rewrite skip_spaces_only. cbn [Nat.add].
  replace (peek (spaces (S lead)) (S lead)) with NUL; [reflexivity|].
  unfold peek. symmetry. apply nth_overflow. rewrite spaces_length. lia.
Qed.

Lemma argv_view_tokens lead t k rest todo :
  is_token t = true ->
  forallb is_token (map fst rest) = true ->
  argv_view (spaces lead ++ fst (scan lead t k rest))
            (Ptr lead :: map Ptr (snd (scan lead t k rest)) ++ Null :: todo)
            (S (List.length rest))
  = token_strings ((t, k) :: rest) ++ [None].
Proof.
  intros Ht Hrest. unfold argv_view, token_strings.
  change (Ptr lead :: map Ptr (snd (scan lead t k rest)) ++ Null :: todo)
    with (map Ptr (lead :: snd (scan lead t k rest)) ++ Null :: todo).
  replace (S (S (List.length rest)))
    with (List.length (map Ptr (lead :: snd (scan lead t k rest))) + 1)
    by (rewrite length_map; cbn [List.length]; rewrite scan_length; lia).
  rewrite firstn_app_2. cbn [firstn]. rewrite map_app, map_map. cbn [map read_cell].
  f_equal.
  pose proof (scan_reads rest t k (spaces lead) Ht Hrest) as Hr.
  rewrite spaces_length in Hr. cbn [map] in Hr.
  injection Hr as Hr0 Hr1. f_equal.
  - now rewrite Hr0.
  - rewrite <- (map_map (cstr_at _) Some), Hr1, !map_map. reflexivity.
Qed.

(** ** line2argv on a line with too many tokens *)

Lemma line2argv_loop_overflow rest :
  forall t k pre done todo fuel st,
    is_token t = true ->
    forallb is_token (map fst rest) = true ->
    List.length (join ((t, k) :: rest)) < fuel ->
    0 < List.length todo <= List.length rest ->
    exists buf' tl,
      line2argv_loop fuel (pre ++ join ((t, k) :: rest)) (List.length pre)
                     (done ++ todo) (List.length done)
                     (List.length done + List.length todo) st
      = ([Print (too_many_msg (List.length done + List.length todo))],
         Some ((0, buf', done ++ tl), st)).
Proof.
  induction rest as [|[t2 k2] rest IH];
    intros t k pre done todo fuel st Ht Hrest Hfuel Htodo; [cbn in Htodo; lia|].
  destruct fuel as [|fuel]; [lia|].
  destruct todo as [|c todo]; [cbn in Htodo; lia|].
  apply is_token_inv in Ht as (c0 & t0 & Hteq & Ht).
  cbn [map fst forallb] in Hrest. apply andb_prop in Hrest as [Htok2 Hrest].
  cbn [line2argv_loop].
  change (join ((t, k) :: (t2, k2) :: rest))
    with (t ++ SP :: spaces k ++ join ((t2, k2) :: rest)) in *.
  rewrite skipn_app_length, strchr_token by exact Ht.
  cbn [strchr]. change (Ascii.eqb SP SP) with true. cbv iota.
  rewrite store_token_end. cbn [of_option]. rewrite bind_ret.
  rewrite skipn_token_end, skip_spaces_spaces.
  rewrite skip_spaces_join by exact Htok2.
  assert (Hpre' : S (List.length pre + List.length t) + k
                  = List.length (pre ++ t ++ NUL :: spaces k)).
  { rewrite !length_app. cbn [List.length]. rewrite spaces_length. lia. }
  rewrite Hpre'.
  replace (pre ++ t ++ NUL :: spaces k ++ join ((t2, k2) :: rest))
    with ((pre ++ t ++ NUL :: spaces k) ++ join ((t2, k2) :: rest))
    by (rewrite <- !app_assoc; reflexivity).
  rewrite peek_app_length, peek_join by exact Htok2.
  rewrite store_app_length. cbn [of_option]. rewrite bind_ret.
  destruct todo as [|c' todo].
  - (* the array is full: the line is rejected *)
    replace (S (List.length done) =? List.length done + List.length [c])
      with true by (symmetry; apply Nat.eqb_eq; cbn [List.length]; lia).
    rewrite bind_printf. cbn [ret fst snd]. now eexists _, _.
  - replace (S (List.length done) =? List.length done + List.length (c :: c' :: todo))
      with false by (symmetry; apply Nat.eqb_neq; cbn [List.length]; lia).
    specialize (IH t2 k2 (pre ++ t ++ NUL :: spaces k)
                   (done ++ [Ptr (List.length (pre ++ t ++ NUL :: spaces k))])
                   (c' :: todo) fuel st Htok2 Hrest).
    replace (List.length (done ++ [Ptr (List.length (pre ++ t ++ NUL :: spaces k))]))
      with (S (List.length done)) in IH
      by (rewrite (length_app done); cbn; lia).
    rewrite <- (app_assoc done) in IH. cbn [app] in IH.
    replace (S (List.length done) + List.length (c' :: todo))
      with (List.length done + List.length (c :: c' :: todo)) in IH
      by (cbn [List.length]; lia).
    destruct IH as (buf' & tl & IH).
    + rewrite !length_app in Hfuel. cbn [List.length] in Hfuel.
      rewrite length_app, spaces_length in Hfuel. lia.
    + cbn [List.length] in *. lia.
    + rewrite IH. rewrite <- app_assoc. now eexists _, _.
Qed.

(** A line with more tokens than SHELL_CMD_ARGC_MAX is rejected as a
    whole: one notice is printed, the count is 0, and [argv[0]] is left
    pointing at the first token. *)
Lemma line2argv_too_many MAX lead toks argv0 st :
  forallb is_token (map fst toks) = true ->
  1 <= MAX < List.length toks ->
  List.length argv0 = MAX + 1 ->
  exists buf argv,
    line2argv (make_line lead toks) argv0 (MAX + 1) st
      = ([Print (too_many_msg (MAX + 1))], Some ((0, buf, argv), st))
    /\ nth_error argv 0 = Some (Ptr lead).
Proof.
  intros Htoks Hmax Hargv.
  destruct toks as [|[t k] rest]; [cbn in Hmax; lia|].
  cbn [map fst forallb] in Htoks. apply andb_prop in Htoks as [Ht Hrest].
  destruct argv0 as [|c todo]; [cbn in Hargv; lia|].
  cbn [List.length] in Hmax, Hargv.
  unfold line2argv. rewrite strlen_make_line by exact Ht.
  unfold make_line. rewrite skip_spaces_spaces, skip_spaces_join by exact Ht.
  cbn [Nat.add].
  assert (Hpeek : peek (spaces lead ++ join ((t, k) :: rest)) lead
                  = peek (join ((t, k) :: rest)) 0).
  { rewrite <- (peek_app_length (spaces lead)). now rewrite spaces_length. }
  rewrite Hpeek, peek_join by exact Ht.
  cbn [store of_option]. rewrite bind_ret.
  destruct (line2argv_loop_overflow rest t k (spaces lead) [Ptr lead]
              todo (S (List.length (spaces lead ++ join ((t, k) :: rest)))) st
              Ht Hrest) as (buf' & tl & Hloop).
  - rewrite length_app. lia.
  - lia.
  - rewrite !spaces_length in Hloop. cbn [List.length app Nat.add] in Hloop.
    replace (MAX + 1) with (S (List.length todo)) by lia.
    rewrite Hloop. now eexists _, _.
Qed.

(** ** line2argv: the tokens of a line *)

(** C3, counterexample.  With room for two arguments the line "a b c" is
    rejected: the count is 0 although the line is not blank, and the
    three tokens are not returned. *)
Lemma line2argv_rejects_a_third_token :
  ~ spec_tokenizer 3 0 [(L "a", 0); (L "b", 0); (L "c", 0)].
Proof.
  intros H. specialize (H 0 _ _ _ eq_refl). destruct H as [_ [H _]].
  specialize (H eq_refl). discriminate.
Qed.

Lemma line2argv_on_tokens :
  forall (MAX lead : nat) (toks : list (list ascii * nat)) (argv0 : list cell) (st : shell),
    forallb is_token (map fst toks) = true ->
    List.length toks <= MAX ->
    List.length argv0 = MAX + 1 ->
    exists buf argv,
      line2argv (make_line lead toks) argv0 (MAX + 1) st
        = ([], Some ((List.length toks, buf, argv), st))
      /\ firstn (List.length toks) (argv_view buf argv (List.length toks))
           = token_strings toks
      /\ (toks <> [] ->
          argv_view buf argv (List.length toks) = token_strings toks ++ [None])
      /\ (List.length toks = 0 <-> blank (make_line lead toks) = true).
Proof.
  intros MAX lead toks argv0 st Htoks Hfit Hargv.
  destruct toks as [|[t k] rest].
  - exists (make_line lead []), argv0. rewrite line2argv_blank.
    repeat split; try reflexivity; try congruence.
    intros _. now apply blank_make_line.
  - cbn [map fst forallb] in Htoks. pose proof Htoks as Hall.
    apply andb_prop in Htoks as [Ht Hrest].
    destruct argv0 as [|c todo]; [cbn in Hargv; lia|].
    cbn [List.length] in Hfit, Hargv.
    replace (MAX + 1) with (S (List.length todo)) by lia.
    assert (Htodo : List.length rest < List.length todo) by lia.
    eexists _, _. split; [apply (line2argv_tokens lead t k rest c todo st Ht Hrest Htodo)|].
    cbn [List.length].
    pose proof (argv_view_tokens lead t k rest
                  (skipn (S (List.length rest)) todo) Ht Hrest) as Hview.
    split; [|split; [intros _; exact Hview|]].
    + rewrite Hview.
      replace (S (List.length rest)) with (List.length (token_strings ((t, k) :: rest)) + 0)
        by (unfold token_strings; rewrite length_map; cbn [List.length]; lia).
      rewrite firstn_app_2. cbn [firstn]. apply app_nil_r.
    + split; [discriminate|].
      intros Hb. apply (blank_make_line lead ((t, k) :: rest)) in Hb; [discriminate|].
      cbn [map fst forallb]. exact Hall.
Qed.

(** C3, as amended.  For a line made of at most SHELL_CMD_ARGC_MAX
    tokens, separated by one space or more and with any number of
    leading and trailing spaces, [line2argv] prints nothing, returns the
    number of tokens and leaves in [argv] the tokens, in order, with NULL
    after the last one; the count is zero exactly when the line is blank. *)
Theorem line2argv_recovers_tokens :
  forall (MAX lead : nat) (toks : list (list ascii * nat)) (argv0 : list cell) (st : shell),
    forallb is_token (map fst toks) = true ->
    List.length toks <= MAX ->
    List.length argv0 = MAX + 1 ->
    exists buf argv,
      line2argv (make_line lead toks) argv0 (MAX + 1) st
        = ([], Some ((List.length toks, buf, argv), st))
      /\ firstn (List.length toks) (argv_view buf argv (List.length toks))
           = token_strings toks
      /\ (toks <> [] ->
          argv_view buf argv (List.length toks) = token_strings toks ++ [None])
      /\ (List.length toks = 0 <-> blank (make_line lead toks) = true).
Proof. exact line2argv_on_tokens. Qed.

Lemma line2argv_recovers_tokens_witness :
  exists buf argv,
    line2argv (L "  ble   scan ") (repeat Indet 13) 13 shell_start
      = ([], Some ((2, buf, argv), shell_start))
    /\ argv_view buf argv 2 = [Some "ble"; Some "scan"; None].
Proof.
  destruct (line2argv_recovers_tokens 12 2 [(L "ble", 2); (L "scan", 1)]
              (repeat Indet 13) shell_start eq_refl ltac:(cbn; lia) eq_refl)
    as (buf & argv & Hrun & _ & Hview & _).
  exists buf, argv. split; [exact Hrun|]. apply Hview. discriminate.
Defined.

(** ** line2argv: the end marker *)

(** C9, the code at the failing inputs.  When [line2argv] returns 0 it
    returns before the statement that stores the NULL marker.  For a
    blank line [argv] is handed back as it was received, so [argv[0]] is
    whatever the caller's array held.  For a line with more tokens than
    SHELL_CMD_ARGC_MAX the count is 0 and [argv[0]] still points at the
    first token. *)
Theorem line2argv_zero_count_has_no_end_marker :
  (forall (lead : nat) (argv0 : list cell) (size : nat) (st : shell),
      line2argv (make_line lead []) argv0 size st
      = ([], Some ((0, make_line lead [], argv0), st)))
  /\ (forall (MAX lead : nat) (toks : list (list ascii * nat)) (argv0 : list cell)
              (st : shell),
         forallb is_token (map fst toks) = true ->
         1 <= MAX < List.length toks ->
         List.length argv0 = MAX + 1 ->
         exists buf argv,
           line2argv (make_line lead toks) argv0 (MAX + 1) st
             = ([Print (too_many_msg (MAX + 1))], Some ((0, buf, argv), st))
           /\ nth_error argv 0 = Some (Ptr lead)).
Proof.
  split.
  - intros lead argv0 size st. apply line2argv_blank.
  - intros MAX lead toks argv0 st. apply line2argv_too_many.
Qed.

Lemma line2argv_zero_count_has_no_end_marker_witness :
  (exists buf argv,
     line2argv (L "") (repeat Indet 3) 3 shell_start
       = ([], Some ((0, buf, argv), shell_start))
     /\ nth_error argv 0 = Some Indet)
  /\ (exists buf argv,
        line2argv (L "a b c") (repeat Indet 3) 3 shell_start
          = ([Print (too_many_msg 3)], Some ((0, buf, argv), shell_start))
        /\ nth_error argv 0 = Some (Ptr 0)
        /\ read_cell buf (Ptr 0) = Some "a").
Proof.
  destruct line2argv_zero_count_has_no_end_marker as [Hblank Hmany].
  split.
  - exists (L ""), (repeat Indet 3). split; [|reflexivity].
    exact (Hblank 0 (repeat Indet 3) 3 shell_start).
  - destruct (Hmany 2 0 [(L "a", 0); (L "b", 0); (L "c", 0)] (repeat Indet 3)
                shell_start eq_refl ltac:(cbn; lia) eq_refl)
      as (buf & argv & Hrun & Hnth).
    exists buf, argv. split; [exact Hrun|]. split; [exact Hnth|].
    change (line2argv (make_line 0 [(L "a", 0); (L "b", 0); (L "c", 0)])
              (repeat Indet (2 + 1)) (2 + 1) shell_start)
      with (line2argv (L "a b c") (repeat Indet 3) 3 shell_start) in Hrun.
    vm_compute in Hrun. inversion Hrun. reflexivity.
Defined.

(** ** line2argv: effects *)

Lemma line2argv_loop_effects fuel :
  forall buf str argv argc size,
    callfree (line2argv_loop fuel buf str argv argc size)
    /\ readonly (line2argv_loop fuel buf str argv argc size).
Proof.
  induction fuel as [|fuel IH]; intros buf str argv argc size;
    cbn [line2argv_loop]; [split; effects|].
  destruct (strchr (skipn str buf) str SP) as [q|]; [|split; effects].
  split; effects; apply IH.
Qed.

Lemma line2argv_callfree str argv size : callfree (line2argv str argv size).
Proof. unfold line2argv. effects. apply line2argv_loop_effects. Qed.

Lemma line2argv_readonly str argv size : readonly (line2argv str argv size).
Proof. unfold line2argv. effects. apply line2argv_loop_effects. Qed.

Lemma shell_process_command_tokenized MAXARG line st tr0 argc buf argv :
  line2argv line (repeat Indet (MAXARG + 1)) (MAXARG + 1) st
    = (tr0, Some ((argc, buf, argv), st)) ->
  argc <> 0 ->
  shell_process_command MAXARG line st
  = (tr0 ++ fst (shell_process_argv argc (argv_view buf argv argc) st),
     snd (shell_process_argv argc (argv_view buf argv argc) st)).
Proof.
  intros Htok Hargc. unfold shell_process_command.
  rewrite (bind_some _ _ _ _ _ _ Htok).
  apply Nat.eqb_neq in Hargc. now rewrite Hargc.
Qed.

(** ** set_default_module and select_module *)

Lemma set_default_module_failure (st : shell) (name msg : string) :
  select_failure st name = Some msg ->
  set_default_module name st = ([Print msg], Some ((-1)%Z, st)).
Proof.
  unfold select_failure, set_default_module. intros H.
  destruct (MODULE_NAME_MAX_LEN <? String.length name).
  - inversion H; subst. now rewrite bind_printf.
  - unfold get_destination_module. rewrite bind_gets.
    destruct (_ =? -1)%Z; [|discriminate].
    inversion H; subst. now rewrite bind_printf.
Qed.

Lemma select_module_returns_zero (argc : nat) (argv : list (option string)) (st : shell) :
  forall r st', outcome (select_module argc argv st) = Some (r, st') -> r = 0%Z.
Proof.
  intros r st'. unfold select_module, outcome, bind at 1.
  match goal with |- context [match ?m st with _ => _ end] =>
    destruct (m st) as [t [[u s1]|]] end; cbn.
  - intros H. now inversion H.
  - discriminate.
Qed.

(** ** set_default_module on names shorter than the maximum *)

Lemma strncpy_fits n : forall src dst,
  String.length src <= n -> n <= List.length dst ->
  strncpy dst src n
  = Some (list_ascii_of_string src ++ repeat NUL (n - String.length src) ++ skipn n dst).
Proof.
  induction n as [|n IH]; intros src dst Hsrc Hdst.
  - destruct src; [reflexivity | cbn in Hsrc; lia].
  - destruct dst as [|d dst]; [cbn in Hdst; lia|]. cbn [List.length] in Hdst.
    destruct src as [|c src]; cbn [strncpy String.length list_ascii_of_string].
    + rewrite (IH EmptyString dst) by (cbn; lia). cbn. now rewrite Nat.sub_0_r.
    + cbn [String.length] in Hsrc. rewrite (IH src dst) by lia. reflexivity.
Qed.

Lemma strcpy_fits src : forall dst,
  String.length src < List.length dst ->
  strcpy dst src
  = Some (list_ascii_of_string src ++ NUL :: skipn (S (String.length src)) dst).
Proof.
  induction src as [|c src IH]; intros dst Hlen;
    (destruct dst as [|d dst]; [cbn in Hlen; lia|]).
  - reflexivity.
  - cbn [String.length List.length] in Hlen.
    cbn [strcpy]. rewrite IH by lia. reflexivity.
Qed.

Lemma strcat_at_first_nul pre : forall tl src,
  forallb (fun c => negb (is_nul c)) pre = true ->
  strcat (pre ++ NUL :: tl) src = option_map (app pre) (strcpy (NUL :: tl) src).
Proof.
  induction pre as [|c pre IH]; intros tl src Hpre.
  - cbn [app strcat]. change (is_nul NUL) with true. cbv iota.
    now destruct (strcpy (NUL :: tl) src).
  - cbn [forallb] in Hpre. apply andb_prop in Hpre as [Hc Hpre].
    apply negb_true_iff in Hc. cbn [app strcat]. rewrite Hc, IH by exact Hpre.
    now destruct (strcpy (NUL :: tl) src).
Qed.

Lemma cstr_app_nul pre : forall tl,
  forallb (fun c => negb (is_nul c)) pre = true ->
  cstr (pre ++ NUL :: tl) = string_of_list_ascii pre.
Proof.
  induction pre as [|c pre IH]; intros tl Hpre; [reflexivity|].
  cbn [forallb] in Hpre. apply andb_prop in Hpre as [Hc Hpre].
  apply negb_true_iff in Hc. cbn [app cstr string_of_list_ascii].
  now rewrite Hc, IH.
Qed.

Lemma list_ascii_of_string_app a b :
  list_ascii_of_string (a ++ b) = list_ascii_of_string a ++ list_ascii_of_string b.
Proof. induction a as [|c a IH]; cbn; [reflexivity | now rewrite IH]. Qed.

Lemma list_ascii_of_string_length s :
  List.length (list_ascii_of_string s) = String.length s.
Proof. induction s as [|c s IH]; cbn; [reflexivity | now rewrite IH]. Qed.

(** A successful selection under a name of fewer than 20 characters does
    what the spec says: the module found becomes the default and the
    cached prompt reads name + "> ". *)
Lemma set_default_module_short st name :
  String.length name < MODULE_NAME_MAX_LEN ->
  nul_free name = true ->
  List.length (default_module_prompt st) = PROMPT_MAX_LEN ->
  select_failure st name = None ->
  exists st',
    set_default_module name st = ([], Some (0%Z, st'))
    /\ default_module st'
       = get_destination_module_from (shell_modules st) 0 name MODULE_NAME_MAX_LEN
    /\ default_module st' <> (-1)%Z
    /\ cstr (default_module_prompt st') = (name ++ "> ")%string
    /\ List.length (default_module_prompt st') = PROMPT_MAX_LEN
    /\ shell_modules st' = shell_modules st
    /\ prompt st' = prompt st
    /\ app_cmd_handler st' = app_cmd_handler st
    /\ app_prompt_handler st' = app_prompt_handler st.
Proof.
  intros Hshort Hfree Hbuf Hok.
  unfold select_failure in Hok. unfold set_default_module.
  destruct (MODULE_NAME_MAX_LEN <? String.length name); [discriminate|].
  unfold get_destination_module. rewrite bind_gets.
  destruct (_ =? -1)%Z eqn:Hfound; [discriminate|]. apply Z.eqb_neq in Hfound.
  rewrite bind_modify, bind_gets.
  cbn [default_module_prompt set_default_module_var].
  change PROMPT_MAX_LEN with 23 in *. change MODULE_NAME_MAX_LEN with 20 in *.
  rewrite strncpy_fits by lia.
  destruct (20 - String.length name) as [|k] eqn:Hk; [lia|].
  cbn [repeat app of_option]. rewrite bind_ret, bind_modify.
  rewrite strcat_at_first_nul by exact Hfree.
  assert (Hroom : String.length "> " < List.length (NUL :: repeat NUL k ++ skipn 20 (default_module_prompt st))).
  { cbn [List.length String.length]. rewrite length_app, repeat_length, length_skipn. lia. }
  rewrite (strcpy_fits "> " _ Hroom). cbn [option_map of_option].
  rewrite bind_ret, bind_modify. cbn [ret].
  eexists. split; [reflexivity|].
  cbn [default_module default_module_prompt shell_modules prompt app_cmd_handler
       app_prompt_handler set_default_module_prompt set_default_module_var].
  repeat split; try assumption.
  - rewrite app_assoc, cstr_app_nul.
    + rewrite <- list_ascii_of_string_app. apply string_of_list_ascii_of_string.
    + rewrite forallb_app. unfold nul_free in Hfree. now rewrite Hfree.
  - repeat (rewrite ?length_app, ?length_skipn, ?repeat_length,
              ?list_ascii_of_string_length; cbn [List.length String.length]).
    lia.
Qed.

(** ** set_default_module on names of exactly 20 characters *)

Lemma strcat_nul_free_prefix pre : forall l src,
  forallb (fun c => negb (is_nul c)) pre = true ->
  strcat (pre ++ l) src = option_map (app pre) (strcat l src).
Proof.
  induction pre as [|c pre IH]; intros l src Hpre.
  - cbn [app]. now destruct (strcat l src).
  - cbn [forallb] in Hpre. apply andb_prop in Hpre as [Hc Hpre].
    apply negb_true_iff in Hc. cbn [app strcat]. rewrite Hc, IH by exact Hpre.
    now destruct (strcat l src).
Qed.

Lemma strcat_no_room l : List.length l <= 2 -> strcat l "> " = None.
Proof.
  destruct l as [|c1 [|c2 [|c3 l]]]; cbn [List.length]; intros H; try lia.
  - reflexivity.
  - cbn. now destruct (is_nul c1).
  - cbn. destruct (is_nul c1); [reflexivity|]. now destruct (is_nul c2).
Qed.

(** The defect behind C6 in general: when the byte after the 20 name
    characters is not NUL (it holds the ">" or the " " of an earlier
    prompt), selecting a module under a 20-character name overruns
    [default_module_prompt]. *)
Lemma set_default_module_overrun st name :
  String.length name = MODULE_NAME_MAX_LEN ->
  nul_free name = true ->
  List.length (default_module_prompt st) = PROMPT_MAX_LEN ->
  is_nul (nth MODULE_NAME_MAX_LEN (default_module_prompt st) NUL) = false ->
  select_failure st name = None ->
  outcome (set_default_module name st) = None.
Proof.
  intros Hlen Hfree Hbuf Hbyte Hok.
  unfold select_failure in Hok. unfold set_default_module, outcome.
  destruct (MODULE_NAME_MAX_LEN <? String.length name); [discriminate|].
  unfold get_destination_module. rewrite bind_gets.
  destruct (_ =? -1)%Z; [discriminate|].
  rewrite bind_modify, bind_gets.
  cbn [default_module_prompt set_default_module_var].
  change PROMPT_MAX_LEN with 23 in *. change MODULE_NAME_MAX_LEN with 20 in *.
  rewrite strncpy_fits by lia. rewrite Hlen, Nat.sub_diag. cbn [repeat app of_option].
  rewrite bind_ret, bind_modify.
  remember (skipn 20 (default_module_prompt st)) as tl eqn:Htl.
  assert (Htl3 : List.length tl = 3) by (subst tl; rewrite length_skipn; lia).
  assert (Hhd : is_nul (nth 0 tl NUL) = false).
  { subst tl. rewrite nth_skipn. exact Hbyte. }
  destruct tl as [|c0 tl]; [discriminate|]. cbn [nth] in Hhd.
  replace (list_ascii_of_string name ++ c0 :: tl)
    with ((list_ascii_of_string name ++ [c0]) ++ tl)
    by (rewrite <- app_assoc; reflexivity).
  rewrite strcat_nul_free_prefix.
  - rewrite strcat_no_room by (cbn [List.length] in Htl3; lia). reflexivity.
  - rewrite forallb_app. unfold nul_free in Hfree. rewrite Hfree. cbn. now rewrite Hhd.
Qed.

(** C6, the code at the failing input.  With a module whose name has
    exactly 20 characters registered, selecting it works the first time
    (the cached prompt is the name followed by "> ").  Selecting it again
    does not recompute the prompt as name + "> ": [strncpy] writes the 20
    characters without a terminator, so [strcat] appends after the old
    "> " and writes past the end of [default_module_prompt]. *)
Theorem set_default_module_20_chars_overruns :
  exists st1,
    set_default_module name20 st_name20 = ([], Some (0%Z, st1))
    /\ default_module st1 = 0%Z
    /\ cstr (default_module_prompt st1) = (name20 ++ "> ")%string
    /\ select_failure st1 name20 = None
    /\ strncpy (default_module_prompt st1) name20 MODULE_NAME_MAX_LEN
         = Some (default_module_prompt st1)
    /\ strcat (default_module_prompt st1) "> " = None
    /\ outcome (set_default_module name20 st1) = None.
Proof. eexists. repeat split. Qed.

(** ** Looking modules and commands up *)

Lemma get_destination_module_from_found mods :
  forall k s n i,
    get_destination_module_from mods k s n = i -> i <> (-1)%Z -> (0 <= k)%Z ->
    (k <= i)%Z /\ exists m, nth_error mods (Z.to_nat (i - k)) = Some m
                            /\ strncmp_eq s (module_name m) n = true.
Proof.
  induction mods as [|m0 rest IH]; intros k s n i Hi Hne Hk; cbn in Hi.
  - congruence.
  - destruct (strncmp_eq s (module_name m0) n) eqn:Hc.
    + subst i. split; [lia|]. exists m0. now rewrite Z.sub_diag.
    + destruct (IH (k + 1)%Z s n i Hi Hne ltac:(lia)) as (Hle & m & Hm & Hs).
      split; [lia|]. exists m. split; [|exact Hs].
      replace (Z.to_nat (i - k)) with (S (Z.to_nat (i - (k + 1)))) by lia.
      exact Hm.
Qed.

Lemma module_at_run (st : shell) (i : Z) (m : shell_module) :
  (0 <= i)%Z -> nth_error (shell_modules st) (Z.to_nat i) = Some m ->
  module_at i st = ([], Some (m, st)).
Proof.
  intros Hi Hm. unfold module_at. rewrite bind_gets.
  destruct (i <? 0)%Z eqn:Hlt; [apply Z.ltb_lt in Hlt; lia|].
  now rewrite Hm.
Qed.

Lemma get_cb_loop_find cmds command :
  get_cb_loop cmds command
  = match find_cmd cmds command with
    | Some c => option_map user_fn (sc_cmd_func c)
    | None => None
    end.
Proof.
  induction cmds as [|c rest IH]; cbn; [reflexivity|].
  now destruct (strcmp_eq command (sc_cmd c)).
Qed.

Lemma show_cmd_help_loop_find cmds command argv0 st :
  show_cmd_help_loop cmds command argv0 st
  = match find_cmd cmds command with
    | Some c => ([Print (sc_cmd c ++ ":" ++ nl); Print (help_text c)], Some (0%Z, st))
    | None => ([Print ("Unrecognized command: " ++ argv0 ++ nl)], Some (0%Z, st))
    end.
Proof.
  induction cmds as [|c rest IH]; cbn [show_cmd_help_loop find_cmd].
  - now rewrite bind_printf.
  - destruct (strcmp_eq command (sc_cmd c)); [|exact IH].
    now rewrite !bind_printf.
Qed.

Lemma print_lines_run l st : print_lines l st = (map Print l, Some (tt, st)).
Proof.
  induction l as [|x rest IH]; cbn [print_lines map]; [reflexivity|].
  now rewrite bind_printf, IH.
Qed.

(** ** Resolving and running a registered command *)

Lemma get_cb_registered st argc argv command module c f :
  reaches_lookup st argc argv ->
  resolves_to st argv command module c f ->
  get_cb argc argv st
  = ([Print (resolver_line module command)], Some (Some (user_fn f), st)).
Proof.
  intros (a0 & Ha0 & Hne & Hh & Hs & Hargc) [Hl Hi (m & Hm & Hc) Hf].
  unfold get_cb. rewrite Ha0.
  apply String.eqb_neq in Hne, Hh, Hs. unfold strcmp_eq. rewrite Hne, Hh, Hs.
  rewrite bind_gets, Hargc.
  rewrite (bind_some _ _ _ _ _ _ Hl). cbn [fst snd app].
  destruct (module =? -1)%Z eqn:Hm1; [apply Z.eqb_eq in Hm1; lia|].
  rewrite (bind_some _ _ _ _ _ _ (module_at_run st module m Hi Hm)).
  cbn [fst snd app]. rewrite bind_printf. cbn [ret fst snd].
  rewrite get_cb_loop_find, Hc, Hf. reflexivity.
Qed.

Lemma show_cmd_help_registered st argv command module c f :
  resolves_to st argv command module c f ->
  show_cmd_help argv st
  = ([Print (sc_cmd c ++ ":" ++ nl); Print (help_text c)], Some (0%Z, st)).
Proof.
  intros [Hl Hi (m & Hm & Hc) Hf].
  unfold show_cmd_help. rewrite (bind_some _ _ _ _ _ _ Hl). cbn [fst snd app].
  destruct (module =? -1)%Z eqn:Hm1; [apply Z.eqb_eq in Hm1; lia|].
  rewrite (bind_some _ _ _ _ _ _ (module_at_run st module m Hi Hm)).
  cbn [fst snd app].
  assert (Ha : exists a0, arg argv 0 = Some a0).
  { unfold get_command_and_module in Hl. destruct (arg argv 0) as [a0|]; [now exists a0|].
    rewrite bind_printf in Hl. discriminate. }
  destruct Ha as (a0 & Ha). rewrite Ha. cbn [of_option]. rewrite bind_ret.
  rewrite show_cmd_help_loop_find, Hc. reflexivity.
Qed.

(** What [shell_process_command] does, from [get_cb] on, for arguments
    that name a registered command. *)
Lemma shell_process_argv_registered st argc argv command module c f p :
  reaches_lookup st argc argv ->
  resolves_to st argv command module c f ->
  get_prompt st = ([], Some (p, st)) ->
  let off := if (default_module st =? -1)%Z then 1 else 0 in
  let r := f (argc - off) (skipn off argv) in
  shell_process_argv argc argv st
  = (Print (resolver_line module command)
       :: Call (user_fn f) (argc - off) (skipn off argv)
       :: map Print (snd r)
          ++ (if (fst r <? 0)%Z
              then [Print (sc_cmd c ++ ":" ++ nl); Print (help_text c)] else [])
          ++ [Print p],
     Some (tt, st)).
Proof.
  intros Hreach Hres Hp off r.
  unfold shell_process_argv.
  rewrite (bind_some _ _ _ _ _ _ (get_cb_registered _ _ _ _ _ _ _ Hreach Hres)).
  cbn [fst snd app]. rewrite !bind_gets.
  cbn [is_select_module is_show_help negb]. rewrite !andb_true_r.
  fold off. unfold invoke. rewrite bind_assoc, bind_mark_call.
  rewrite bind_assoc. rewrite (bind_some _ _ _ _ _ _ (print_lines_run _ _)).
  cbn [fst snd]. rewrite bind_ret. fold r.
  destruct (fst r <? 0)%Z.
  - rewrite bind_assoc.
    rewrite (bind_some _ _ _ _ _ _ (show_cmd_help_registered _ _ _ _ _ _ Hres)).
    cbn [fst snd]. rewrite !bind_ret.
    rewrite (bind_some _ _ _ _ _ _ Hp). cbn [fst snd console_printf app].
    reflexivity.
  - rewrite bind_ret. rewrite (bind_some _ _ _ _ _ _ Hp).
    cbn [fst snd console_printf app]. reflexivity.
Qed.

Lemma invoke_calls f n a {B} (k : Z -> M B) s :
  (forall r, callfree (k r)) ->
  calls (fst (bind (invoke f n a) k s)) = [(f, n, a)].
Proof.
  intros Hk. unfold invoke. rewrite bind_assoc, bind_mark_call. cbn [fst calls].
  f_equal.
  assert (Hfree : callfree (bind
            match f with
            | show_help_fn => show_help n a
            | select_module_fn => select_module n a
            | user_fn g => print_lines (snd (g n a));;; ret (fst (g n a))
            end k)).
  { apply callfree_bind; [|exact Hk]. destruct f; effects. }
  apply Hfree.
Qed.

Lemma shell_process_argv_calls st argc argv :
  calls (output (shell_process_argv argc argv st))
  = match resolved_callback st argc argv with
    | Some cb => [(cb, argc - argc_offset st cb, skipn (argc_offset st cb) argv)]
    | None => []
    end.
Proof.
  unfold shell_process_argv, resolved_callback, retval, outcome, output.
  pose proof (get_cb_callfree argc argv st) as Hfree.
  pose proof (get_cb_readonly argc argv st) as Hro.
  destruct (get_cb argc argv st) as [t [[cb s1]|]] eqn:Hcb.
  - cbn in Hfree. rewrite (Hro cb s1 eq_refl) in *.
    rewrite (bind_some _ _ _ _ _ _ Hcb). cbn [fst snd option_map].
    rewrite calls_app, Hfree. cbn [app]. rewrite bind_gets.
    assert (Hdone : forall cb',
      calls (fst ((dm <- gets default_module;;
        (let argc_offset :=
           if (dm =? -1)%Z && negb (is_select_module cb') && negb (is_show_help cb')
           then 1 else 0 in
         r <- invoke cb' (argc - argc_offset) (skipn argc_offset argv);;
         (if (r <? 0)%Z then show_cmd_help argv;;; ret tt else ret tt);;;
         p <- get_prompt;; console_printf p)) st))
      = [(cb', argc - argc_offset st cb', skipn (argc_offset st cb') argv)]).
    { intros cb'. rewrite bind_gets. cbv zeta. fold (argc_offset st cb').
      apply invoke_calls. intros r. effects. }
    destruct cb as [cb|].
    + apply Hdone.
    + destruct (app_cmd_handler st) as [h|]; cbn [option_map].
      * apply Hdone.
      * assert (Hfree' : callfree (argv0 <- of_option (arg argv 0);;
            console_printf ("Unrecognized command: " ++ argv0 ++ nl);;;
            console_printf ("Type 'help' for list of available commands" ++ nl);;;
            p <- get_prompt;; console_printf p)) by effects.
        apply Hfree'.
  - rewrite (bind_none _ _ _ _ Hcb). cbn [fst snd option_map]. exact Hfree.
Qed.

(** ** shell_process_command *)

(** C5.  When a line names a registered command and its callback returns
    a negative value, the console shows, after the resolver's line and
    whatever the callback printed: the name of the command, then its
    usage string if it has one, else its summary if it has one, else an
    empty line, and then the active prompt, once.  No "Unrecognized
    command" line is printed and the variables of the shell are
    unchanged. *)
Theorem negative_return_prints_command_help :
  forall (MAXARG : nat) (line : list ascii) (st : shell)
         (argc : nat) (buf : list ascii) (argv : list cell)
         (command : string) (module : Z) (c : shell_cmd) (f : user_callback)
         (p : string),
    line2argv line (repeat Indet (MAXARG + 1)) (MAXARG + 1) st
      = ([], Some ((argc, buf, argv), st)) ->
    argc <> 0 ->
    reaches_lookup st argc (argv_view buf argv argc) ->
    resolves_to st (argv_view buf argv argc) command module c f ->
    get_prompt st = ([], Some (p, st)) ->
    let off := if (default_module st =? -1)%Z then 1 else 0 in
    let args := skipn off (argv_view buf argv argc) in
    (fst (f (argc - off)%nat args) < 0)%Z ->
    shell_process_command MAXARG line st
      = (Print (resolver_line module command)
           :: Call (user_fn f) (argc - off) args
           :: map Print (snd (f (argc - off) args))
              ++ [Print (sc_cmd c ++ ":" ++ nl);
                  Print (match help c with
                         | Some {| summary := _; usage := Some u |} => u ++ nl
                         | Some {| summary := Some s; usage := None |} => s ++ nl
                         | Some {| summary := None; usage := None |} => nl
                         | None => nl
                         end);
                  Print p],
         Some (tt, st)).
Proof.
  intros MAXARG line st argc buf argv command module c f p
         Htok Hargc Hreach Hres Hp off args Hneg.
  rewrite (shell_process_command_tokenized _ _ _ _ _ _ _ Htok Hargc).
  rewrite (shell_process_argv_registered _ _ _ _ _ _ _ _ Hreach Hres Hp).
  fold off. fold args. apply Z.ltb_lt in Hneg. rewrite Hneg.
  cbn [fst snd app]. f_equal. f_equal. f_equal. f_equal. cbn [app]. f_equal. f_equal.
  unfold help_text. destruct (help c) as [[[s|] [u|]]|]; reflexivity.
Qed.

Lemma negative_return_prints_command_help_witness :
  shell_process_command 12 (L "ble conn") st_ble
  = ([Print (resolver_line 0 "conn");
      Call (user_fn cb_usage_error) 1 [Some "conn"; None];
      Print ("conn:" ++ nl); Print ("conn <addr>" ++ nl); Print SHELL_PROMPT],
     Some (tt, st_ble)).
Proof.
  refine (negative_return_prints_command_help 12 (L "ble conn") st_ble 2
            (L ("ble" ++ String NUL "conn")) _ "conn" 0%Z
            (mk_cmd "conn" (Some cb_usage_error)
                    (Some (mk_help (Some "connect") (Some "conn <addr>"))))
            cb_usage_error SHELL_PROMPT eq_refl _ _ _ eq_refl _).
  - discriminate.
  - exists "ble". repeat split; discriminate.
  - split.
    + reflexivity.
    + cbn. lia.
    + exists ble_module. split; reflexivity.
    + reflexivity.
  - cbn. lia.
Defined.

Lemma get_command_and_module_prefixed st a0 a1 rest :
  default_module st = (-1)%Z ->
  a1 <> EmptyString ->
  get_destination_module_from (shell_modules st) 0 a0 MODULE_NAME_MAX_LEN <> (-1)%Z ->
  get_command_and_module (Some a0 :: Some a1 :: rest) st
  = ([], Some ((Some a1,
                get_destination_module_from (shell_modules st) 0 a0 MODULE_NAME_MAX_LEN), st)).
Proof.
  intros Hd Ha1 Hfound. unfold get_command_and_module. cbn [arg nth].
  rewrite bind_gets, Hd. cbn [Z.eqb Pos.eqb].
  apply String.eqb_neq in Ha1. rewrite Ha1.
  unfold get_destination_module. rewrite bind_gets.
  apply Z.eqb_neq in Hfound. now rewrite Hfound.
Qed.

Lemma get_command_and_module_default st a0 rest :
  default_module st <> (-1)%Z ->
  get_command_and_module (Some a0 :: rest) st
  = ([], Some ((Some a0, default_module st), st)).
Proof.
  intros Hd. unfold get_command_and_module. cbn [arg nth].
  rewrite bind_gets. apply Z.eqb_neq in Hd. now rewrite Hd.
Qed.

(** The line "ble scan", tokenized with room for two arguments or more. *)
Lemma line2argv_ble_scan MAXARG st :
  2 <= MAXARG ->
  exists buf argv,
    line2argv (L "ble scan") (repeat Indet (MAXARG + 1)) (MAXARG + 1) st
      = ([], Some ((2, buf, argv), st))
    /\ argv_view buf argv 2 = [Some "ble"; Some "scan"; None].
Proof.
  intros Hmax.
  destruct (line2argv_on_tokens MAXARG 0 [(L "ble", 0); (L "scan", 0)]
              (repeat Indet (MAXARG + 1)) st eq_refl Hmax (repeat_length _ _))
    as (buf & argv & Hrun & _ & Hview & _).
  exists buf, argv. split; [exact Hrun|]. apply Hview. discriminate.
Qed.

(** C8, counterexample.  With the module "ble" and its command "scan"
    registered and no default module, the line "ble scan" calls the
    callback of scan with argc 1 (argv[0] is "scan"), not 0, and the
    console shows the resolver's line before the prompt. *)
Lemma ble_scan_gets_argc_1_and_a_resolver_line :
  calls (output (shell_process_command 12 (L "ble scan") st_ble))
    = [(user_fn cb_ok, 1, [Some "scan"; None])]
  /\ (forall a, calls (output (shell_process_command 12 (L "ble scan") st_ble))
                <> [(user_fn cb_ok, 0, a)])
  /\ printed (output (shell_process_command 12 (L "ble scan") st_ble))
       = [resolver_line 0 "scan"; SHELL_PROMPT]
  /\ printed (output (shell_process_command 12 (L "ble scan") st_ble))
       <> [SHELL_PROMPT].
Proof.
  repeat split.
  - intros a H. vm_compute in H. discriminate.
  - intros H. vm_compute in H. discriminate.
Qed.

(** C8, as amended.  With no default module selected, a module found
    under the name "ble" whose first command named "scan" has a callback
    that returns 0, and room for two arguments or more, the line
    "ble scan" calls that callback with argc 1 and the arguments "scan",
    NULL; the console shows the resolver's line "module: <index>,
    command: scan", whatever the callback printed and then the prompt,
    and nothing else; the variables of the shell are unchanged. *)
Theorem ble_scan_runs_scan :
  forall (MAXARG : nat) (st : shell) (m : shell_module) (c : shell_cmd)
         (f : user_callback) (p : string),
    let i := get_destination_module_from (shell_modules st) 0 "ble" MODULE_NAME_MAX_LEN in
    2 <= MAXARG ->
    default_module st = (-1)%Z ->
    i <> (-1)%Z ->
    nth_error (shell_modules st) (Z.to_nat i) = Some m ->
    find_cmd (commands m) "scan" = Some c ->
    sc_cmd_func c = Some f ->
    fst (f 1 [Some "scan"; None]) = 0%Z ->
    get_prompt st = ([], Some (p, st)) ->
    shell_process_command MAXARG (L "ble scan") st
      = (Print (resolver_line i "scan")
           :: Call (user_fn f) 1 [Some "scan"; None]
           :: map Print (snd (f 1 [Some "scan"; None])) ++ [Print p],
         Some (tt, st)).
Proof.
  intros MAXARG st m c f p i Hmax Hd Hi Hm Hc Hf Hret Hp.
  destruct (line2argv_ble_scan MAXARG st Hmax) as (buf & argv & Htok & Hview).
  rewrite (shell_process_command_tokenized _ _ _ _ _ _ _ Htok ltac:(discriminate)).
  rewrite Hview.
  assert (Hreach : reaches_lookup st 2 [Some "ble"; Some "scan"; None]).
  { exists "ble". repeat split; discriminate. }
  assert (Hres : resolves_to st [Some "ble"; Some "scan"; None] "scan" i c f).
  { split.
    - apply get_command_and_module_prefixed; [exact Hd | discriminate | exact Hi].
    - destruct (get_destination_module_from_found _ _ _ _ _ eq_refl Hi (Z.le_refl 0)).
      assumption.
    - now exists m.
    - exact Hf. }
  rewrite (shell_process_argv_registered _ _ _ _ _ _ _ _ Hreach Hres Hp).
  rewrite Hd. cbn [Z.eqb Pos.eqb Nat.sub skipn]. rewrite Hret.
  cbn [Z.ltb Z.compare app fst snd]. reflexivity.
Qed.

Lemma ble_scan_runs_scan_witness :
  shell_process_command 12 (L "ble scan") st_ble
  = ([Print (resolver_line 0 "scan"); Call (user_fn cb_ok) 1 [Some "scan"; None];
      Print SHELL_PROMPT],
     Some (tt, st_ble)).
Proof.
  refine (ble_scan_runs_scan 12 st_ble ble_module
            (mk_cmd "scan" (Some cb_ok) (Some (mk_help (Some "scan for peers") None)))
            cb_ok SHELL_PROMPT _ eq_refl _ eq_refl eq_refl eq_refl eq_refl eq_refl).
  - lia.
  - cbn. discriminate.
Defined.

(** C7, counterexample.  For the single token "foo" with no default
    module, [get_cb] returns NULL but what it prints is "Missing
    parameter", not "Unrecognized command: foo"; with an application
    command handler registered the whole line prints no "Unrecognized
    command: foo" at all. *)
Lemma bare_token_resolution_prints_missing_parameter :
  get_cb 1 [Some "foo"; None] st_ble
    = ([Print ("Missing parameter" ++ nl)], Some (None, st_ble))
  /\ ~ In (Print ("Unrecognized command: foo" ++ nl))
          (output (get_cb 1 [Some "foo"; None] st_ble))
  /\ ~ In ("Unrecognized command: foo" ++ nl)%string
          (printed (output (shell_process_command 12 (L "foo")
                              (set_app_cmd_handler (Some cb_ok) st_ble)))).
Proof.
  split; [reflexivity|]. split.
  - intros H. vm_compute in H. destruct H as [H|[]]. discriminate.
  - intros H. vm_compute in H. destruct H as [H|[H|[]]]; discriminate.
Qed.

(** C7, as amended.  For a line of exactly one token that is neither
    "help" nor "select", with no default module selected, [get_cb]
    returns no callback and prints "Missing parameter"; when no
    application command handler is registered, [shell_process_command]
    then prints "Unrecognized command: <the token>", the hint to type
    help, and the prompt. *)
Theorem bare_token_is_missing_parameter :
  forall (MAXARG : nat) (line : list ascii) (st : shell)
         (buf : list ascii) (argv : list cell) (t p : string),
    line2argv line (repeat Indet (MAXARG + 1)) (MAXARG + 1) st
      = ([], Some ((1, buf, argv), st)) ->
    argv_view buf argv 1 = [Some t; None] ->
    t <> EmptyString -> t <> "help" -> t <> "select" ->
    default_module st = (-1)%Z ->
    get_prompt st = ([], Some (p, st)) ->
    get_cb 1 (argv_view buf argv 1) st
      = ([Print ("Missing parameter" ++ nl)], Some (None, st))
    /\ (app_cmd_handler st = None ->
        shell_process_command MAXARG line st
          = ([Print ("Missing parameter" ++ nl);
              Print ("Unrecognized command: " ++ t ++ nl);
              Print ("Type 'help' for list of available commands" ++ nl);
              Print p],
             Some (tt, st))).
Proof.
  intros MAXARG line st buf argv t p Htok Hview Hne Hh Hs Hd Hp.
  assert (Hcb : get_cb 1 (argv_view buf argv 1) st
                = ([Print ("Missing parameter" ++ nl)], Some (None, st))).
  { rewrite Hview. unfold get_cb. cbn [arg nth].
    apply String.eqb_neq in Hne, Hh, Hs. unfold strcmp_eq. rewrite Hne, Hh, Hs.
    rewrite bind_gets, Hd. cbn [Nat.eqb Z.eqb Pos.eqb andb].
    now rewrite bind_printf. }
  split; [exact Hcb|]. intros Hnone.
  rewrite (shell_process_command_tokenized _ _ _ _ _ _ _ Htok ltac:(discriminate)).
  unfold shell_process_argv. rewrite (bind_some _ _ _ _ _ _ Hcb).
  cbn [fst snd]. rewrite bind_gets, Hnone. cbn [option_map].
  rewrite Hview. cbn [arg nth of_option]. rewrite bind_ret, !bind_printf.
  rewrite (bind_some _ _ _ _ _ _ Hp). reflexivity.
Qed.

Lemma bare_token_is_missing_parameter_witness :
  shell_process_command 12 (L "foo") st_ble
  = ([Print ("Missing parameter" ++ nl);
      Print ("Unrecognized command: foo" ++ nl);
      Print ("Type 'help' for list of available commands" ++ nl);
      Print SHELL_PROMPT],
     Some (tt, st_ble)).
Proof.
  refine (proj2 (bare_token_is_missing_parameter 12 (L "foo") st_ble (L "foo")
                   [Ptr 0; Null; Indet; Indet; Indet; Indet; Indet; Indet; Indet;
                    Indet; Indet; Indet; Indet]
                   "foo" SHELL_PROMPT eq_refl eq_refl _ _ _ eq_refl eq_refl) eq_refl);
    discriminate.
Defined.

(** C10.  [select_module] returns 0 whenever it returns.  When the
    selection fails (the name is longer than 20 characters, or no module
    is found under it) it prints the one diagnostic line, returns 0 and
    changes nothing, and the line "select <name>" shows only that
    diagnostic and the prompt: [show_cmd_help] is not run. *)
Theorem failed_select_returns_zero :
  forall (MAXARG : nat) (line : list ascii) (st : shell)
         (argc : nat) (buf : list ascii) (argv : list cell)
         (name : string) (rest : list (option string)) (msg p : string),
    line2argv line (repeat Indet (MAXARG + 1)) (MAXARG + 1) st
      = ([], Some ((argc, buf, argv), st)) ->
    argv_view buf argv argc = Some "select" :: Some name :: rest ->
    2 <= argc ->
    select_failure st name = Some msg ->
    get_prompt st = ([], Some (p, st)) ->
    (forall n a s r s', outcome (select_module n a s) = Some (r, s') -> r = 0%Z)
    /\ select_module argc (argv_view buf argv argc) st = ([Print msg], Some (0%Z, st))
    /\ shell_process_command MAXARG line st
       = ([Call select_module_fn argc (argv_view buf argv argc); Print msg; Print p],
          Some (tt, st)).
Proof.
  intros MAXARG line st argc buf argv name rest msg p Htok Hview Hargc Hfail Hp.
  assert (Hn1 : (argc =? 1) = false) by (apply Nat.eqb_neq; lia).
  assert (Hsel : select_module argc (argv_view buf argv argc) st
                 = ([Print msg], Some (0%Z, st))).
  { unfold select_module. rewrite Hn1, Hview. cbn [arg nth of_option].
    rewrite bind_assoc, bind_ret, bind_assoc.
    rewrite (bind_some _ _ _ _ _ _ (set_default_module_failure _ _ _ Hfail)).
    cbn [fst snd]. rewrite !bind_ret. reflexivity. }
  split; [intros n a s; apply select_module_returns_zero|].
  split; [exact Hsel|].
  rewrite (shell_process_command_tokenized _ _ _ _ _ _ _ Htok ltac:(lia)).
  unfold shell_process_argv.
  assert (Hcb : get_cb argc (argv_view buf argv argc) st
                = ([], Some (Some select_module_fn, st))).
  { rewrite Hview. reflexivity. }
  rewrite (bind_some _ _ _ _ _ _ Hcb). cbn [fst snd app]. rewrite !bind_gets.
  cbn [is_select_module negb andb]. rewrite andb_false_r. cbn [andb].
  rewrite Nat.sub_0_r. cbn [skipn]. unfold invoke.
  rewrite bind_assoc, bind_mark_call.
  rewrite (bind_some _ _ _ _ _ _ Hsel). cbn [fst snd Z.ltb Z.compare].
  rewrite bind_ret. rewrite (bind_some _ _ _ _ _ _ Hp). reflexivity.
Qed.

Lemma failed_select_returns_zero_witness :
  shell_process_command 12 (L "select wifi") st_ble
  = ([Call select_module_fn 2 [Some "select"; Some "wifi"; None];
      Print (illegal_default_msg "wifi"); Print SHELL_PROMPT],
     Some (tt, st_ble)).
Proof.
  refine (proj2 (proj2 (failed_select_returns_zero 12 (L "select wifi") st_ble 2
            (L ("select" ++ String NUL "wifi"))
            [Ptr 0; Ptr 7; Null; Indet; Indet; Indet; Indet; Indet; Indet;
             Indet; Indet; Indet; Indet]
            "wifi" [None] (illegal_default_msg "wifi") SHELL_PROMPT
            eq_refl eq_refl _ eq_refl eq_refl))).
  lia.
Defined.

Lemma shell_process_command_calls MAXARG line st tr argc buf argv :
  line2argv line (repeat Indet (MAXARG + 1)) (MAXARG + 1) st
    = (tr, Some ((argc, buf, argv), st)) ->
  argc <> 0 ->
  calls (output (shell_process_command MAXARG line st))
  = match resolved_callback st argc (argv_view buf argv argc) with
    | Some cb => [(cb, argc - argc_offset st cb,
                   skipn (argc_offset st cb) (argv_view buf argv argc))]
    | None => []
    end.
Proof.
  intros Htok Hargc.
  rewrite (shell_process_command_tokenized _ _ _ _ _ _ _ Htok Hargc).
  unfold output. cbn [fst]. rewrite calls_app.
  pose proof (line2argv_callfree line (repeat Indet (MAXARG + 1)) (MAXARG + 1) st) as Hfree.
  rewrite Htok in Hfree. cbn [fst] in Hfree. rewrite Hfree. cbn [app].
  apply shell_process_argv_calls.
Qed.

Lemma get_cb_loop_user cmds command cb :
  get_cb_loop cmds command = Some cb -> exists f, cb = user_fn f.
Proof.
  rewrite get_cb_loop_find. destruct (find_cmd cmds command) as [c|]; [|discriminate].
  destruct (sc_cmd_func c) as [f|]; [|discriminate].
  intros H. inversion H. now exists f.
Qed.

(** The callback a line resolves to is the same whether the module is
    named first and no default is selected, or the module is the default
    and only the command is typed. *)
Lemma resolved_callback_prefixed st st2 argc m c rest :
  default_module st = (-1)%Z ->
  m <> EmptyString -> m <> "help" -> m <> "select" ->
  c <> "help" -> c <> "select" ->
  shell_modules st2 = shell_modules st ->
  app_cmd_handler st2 = app_cmd_handler st ->
  default_module st2
    = get_destination_module_from (shell_modules st) 0 m MODULE_NAME_MAX_LEN ->
  default_module st2 <> (-1)%Z ->
  2 <= argc ->
  resolved_callback st argc (Some m :: Some c :: rest)
    = resolved_callback st2 (argc - 1) (Some c :: rest)
  /\ forall cb, resolved_callback st argc (Some m :: Some c :: rest) = Some cb ->
                exists f, cb = user_fn f.
Proof.
  intros Hd Hm Hmh Hms Hch Hcs Hmods Hh Hd2 Hsel Hargc.
  assert (Hn1 : (argc =? 1) = false) by (apply Nat.eqb_neq; lia).
  apply String.eqb_neq in Hm, Hmh, Hms, Hch, Hcs.
  pose proof Hsel as Hsel'. apply Z.eqb_neq in Hsel'.
  destruct (String.eqb c EmptyString) eqn:Hc.
  - (* an empty command name: neither resolves *)
    assert (H1 : exists t, get_cb argc (Some m :: Some c :: rest) st = (t, Some (None, st))).
    { unfold get_cb, strcmp_eq. cbn [arg nth].
      rewrite Hm, Hmh, Hms, bind_gets, Hn1. cbn [andb].
      assert (Hgc : get_command_and_module (Some m :: Some c :: rest) st
                    = ([Print ("Unrecognized command: " ++ m ++ nl)],
                       Some ((None, (-1)%Z), st))).
      { unfold get_command_and_module. cbn [arg nth]. rewrite bind_gets, Hd.
        cbn [Z.eqb Pos.eqb]. rewrite Hc. now rewrite bind_printf. }
      rewrite (bind_some _ _ _ _ _ _ Hgc). now eexists. }
    assert (H2 : exists t, get_cb (argc - 1) (Some c :: rest) st2 = (t, Some (None, st2))).
    { unfold get_cb. cbn [arg nth]. rewrite Hc, bind_printf. now eexists. }
    destruct H1 as (t1 & H1). destruct H2 as (t2 & H2).
    unfold resolved_callback, retval, outcome. rewrite H1, H2. cbn [snd fst option_map].
    rewrite Hh. split; [reflexivity|].
    intros cb Hcb. destruct (app_cmd_handler st) as [h|]; [|discriminate].
    inversion Hcb. now exists h.
  - pose proof Hc as Hc'. apply String.eqb_neq in Hc'.
    assert (Hfound : get_destination_module_from (shell_modules st) 0 m MODULE_NAME_MAX_LEN
                     <> (-1)%Z) by (now rewrite <- Hd2).
    destruct (get_destination_module_from_found _ _ _ _ _ eq_refl Hfound (Z.le_refl 0))
      as (Hi & mi & Hmi & _).
    rewrite Z.sub_0_r in Hmi.
    assert (H1 : exists t, get_cb argc (Some m :: Some c :: rest) st
                           = (t, Some (get_cb_loop (commands mi) c, st))).
    { unfold get_cb, strcmp_eq. cbn [arg nth].
      rewrite Hm, Hmh, Hms, bind_gets, Hn1. cbn [andb].
      rewrite (bind_some _ _ _ _ _ _
                 (get_command_and_module_prefixed st m c rest Hd Hc' Hfound)).
      cbn [fst snd app]. apply Z.eqb_neq in Hfound. rewrite Hfound.
      rewrite (bind_some _ _ _ _ _ _ (module_at_run st _ mi Hi Hmi)).
      cbn [fst snd app]. rewrite bind_printf. now eexists. }
    assert (H2 : exists t, get_cb (argc - 1) (Some c :: rest) st2
                           = (t, Some (get_cb_loop (commands mi) c, st2))).
    { unfold get_cb, strcmp_eq. cbn [arg nth].
      rewrite Hc, Hch, Hcs, bind_gets, Hsel', andb_false_r.
      rewrite (bind_some _ _ _ _ _ _ (get_command_and_module_default st2 c rest Hsel)).
      cbn [fst snd app]. rewrite Hsel'.
      assert (Hmi2 : nth_error (shell_modules st2) (Z.to_nat (default_module st2)) = Some mi)
        by (now rewrite Hmods, Hd2).
      assert (Hi2 : (0 <= default_module st2)%Z) by (now rewrite Hd2).
      rewrite (bind_some _ _ _ _ _ _ (module_at_run st2 _ mi Hi2 Hmi2)).
      cbn [fst snd app]. rewrite bind_printf. now eexists. }
    destruct H1 as (t1 & H1). destruct H2 as (t2 & H2).
    unfold resolved_callback, retval, outcome. rewrite H1, H2. cbn [snd fst option_map].
    rewrite Hh. split; [reflexivity|].
    intros cb Hcb. destruct (get_cb_loop (commands mi) c) as [g|] eqn:Hg.
    + inversion Hcb; subst. now apply get_cb_loop_user in Hg.
    + destruct (app_cmd_handler st) as [h|]; [|discriminate].
      inversion Hcb. now exists h.
Qed.

(** C2.  [shell_process_command] makes exactly one call through
    [sc_cmd_func] for a line that resolves to a callback (from [get_cb]
    or, failing that, the application handler).  With no default module
    selected and a callback that is neither [select_module] nor
    [show_help], the call gets argc - 1 and the arguments from argv[1]
    on; for [select_module] and [show_help], and whenever a default
    module is selected, it gets argc and argv unchanged.  Hence
    "module command args" typed with no default selected and "command
    args" typed with that module selected call the same callback with the
    same argument count and the same arguments. *)
Theorem module_prefix_is_stripped :
  forall (MAXARG : nat) (line : list ascii) (st : shell) (tr : list event)
         (argc : nat) (buf : list ascii) (argv : list cell) (cb : shell_cmd_func_t),
    line2argv line (repeat Indet (MAXARG + 1)) (MAXARG + 1) st
      = (tr, Some ((argc, buf, argv), st)) ->
    argc <> 0 ->
    resolved_callback st argc (argv_view buf argv argc) = Some cb ->
    let args := argv_view buf argv argc in
    let run := calls (output (shell_process_command MAXARG line st)) in
    (default_module st = (-1)%Z ->
     is_select_module cb = false -> is_show_help cb = false ->
     run = [(cb, argc - 1, skipn 1 args)])
    /\ (default_module st = (-1)%Z ->
        is_select_module cb || is_show_help cb = true ->
        run = [(cb, argc, args)])
    /\ (default_module st <> (-1)%Z -> run = [(cb, argc, args)])
    /\ (forall (line2 : list ascii) (st2 : shell) (tr2 : list event)
               (buf2 : list ascii) (argv2 : list cell)
               (m c : string) (rest : list (option string)),
          default_module st = (-1)%Z ->
          args = Some m :: Some c :: rest ->
          m <> EmptyString -> m <> "help" -> m <> "select" ->
          c <> "help" -> c <> "select" ->
          shell_modules st2 = shell_modules st ->
          app_cmd_handler st2 = app_cmd_handler st ->
          default_module st2
            = get_destination_module_from (shell_modules st) 0 m MODULE_NAME_MAX_LEN ->
          default_module st2 <> (-1)%Z ->
          2 <= argc ->
          line2argv line2 (repeat Indet (MAXARG + 1)) (MAXARG + 1) st2
            = (tr2, Some ((argc - 1, buf2, argv2), st2)) ->
          argv_view buf2 argv2 (argc - 1) = Some c :: rest ->
          run = [(cb, argc - 1, Some c :: rest)]
          /\ calls (output (shell_process_command MAXARG line2 st2))
             = [(cb, argc - 1, Some c :: rest)]).
Proof.
  intros MAXARG line st tr argc buf argv cb Htok Hargc Hcb args run.
  assert (Hrun : run = [(cb, argc - argc_offset st cb, skipn (argc_offset st cb) args)]).
  { unfold run. rewrite (shell_process_command_calls _ _ _ _ _ _ _ Htok Hargc).
    now rewrite Hcb. }
  split; [|split; [|split]].
  - intros Hd Hs Hh. rewrite Hrun. unfold argc_offset. rewrite Hd, Hs, Hh. reflexivity.
  - intros Hd Hb. rewrite Hrun. unfold argc_offset. rewrite Hd.
    apply orb_true_iff in Hb as [Hb|Hb]; rewrite Hb; cbn [negb andb];
      rewrite ?andb_false_r, Nat.sub_0_r; reflexivity.
  - intros Hd. rewrite Hrun. unfold argc_offset. apply Z.eqb_neq in Hd. rewrite Hd.
    cbn [andb skipn]. now rewrite Nat.sub_0_r.
  - intros line2 st2 tr2 buf2 argv2 m c rest Hd Hargs Hm Hmh Hms Hch Hcs
           Hmods Hh Hd2 Hsel Hargc2 Htok2 Hview2.
    fold args in Hcb. rewrite Hargs in Hcb.
    destruct (resolved_callback_prefixed st st2 argc m c rest
                Hd Hm Hmh Hms Hch Hcs Hmods Hh Hd2 Hsel Hargc2) as [Hsame Huser].
    destruct (Huser cb Hcb) as (f & ->).
    split.
    + rewrite Hrun, Hargs. unfold argc_offset. rewrite Hd. reflexivity.
    + rewrite (shell_process_command_calls _ _ _ _ _ _ _ Htok2 ltac:(lia)).
      rewrite Hview2, <- Hsame, Hcb. unfold argc_offset.
      apply Z.eqb_neq in Hsel. rewrite Hsel. cbn [andb skipn]. now rewrite Nat.sub_0_r.
Qed.

Example select_ble_selects :
  shell_process_command 12 (L "select ble") st_ble
  = ([Call select_module_fn 2 [Some "select"; Some "ble"; None]; Print "ble> "],
     Some (tt, st_ble_selected)).
Proof. reflexivity. Qed.

Lemma module_prefix_is_stripped_witness :
  calls (output (shell_process_command 12 (L "ble scan x") st_ble))
    = [(user_fn cb_ok, 2, [Some "scan"; Some "x"; None])]
  /\ calls (output (shell_process_command 12 (L "scan x") st_ble_selected))
    = [(user_fn cb_ok, 2, [Some "scan"; Some "x"; None])]
  /\ calls (output (shell_process_command 12 (L "help ble") st_ble))
    = [(show_help_fn, 2, [Some "help"; Some "ble"; None])].
Proof.
  destruct (module_prefix_is_stripped 12 (L "ble scan x") st_ble [] 3
              (L ("ble" ++ String NUL "scan" ++ String NUL "x"))
              [Ptr 0; Ptr 4; Ptr 9; Null; Indet; Indet; Indet; Indet; Indet;
               Indet; Indet; Indet; Indet]
              (user_fn cb_ok) eq_refl ltac:(discriminate) eq_refl)
    as (Hstrip & _ & _ & Hsame).
  destruct (module_prefix_is_stripped 12 (L "help ble") st_ble [] 2
              (L ("help" ++ String NUL "ble"))
              [Ptr 0; Ptr 5; Null; Indet; Indet; Indet; Indet; Indet; Indet;
               Indet; Indet; Indet; Indet]
              show_help_fn eq_refl ltac:(discriminate) eq_refl)
    as (_ & Hbuiltin & _ & _).
  split; [exact (Hstrip eq_refl eq_refl eq_refl)|].
  split; [|exact (Hbuiltin eq_refl eq_refl)].
  refine (proj2 (Hsame (L "scan x") st_ble_selected []
            (L ("scan" ++ String NUL "x"))
            [Ptr 0; Ptr 5; Null; Indet; Indet; Indet; Indet; Indet; Indet;
             Indet; Indet; Indet; Indet]
            "ble" "scan" [Some "x"; None]
            eq_refl eq_refl _ _ _ _ _ eq_refl eq_refl eq_refl _ _ eq_refl eq_refl));
    try discriminate.
  lia.
Defined.

(** * Further properties of the code *)

(** ** line2argv on any line: what it writes *)

Lemma bind_of_option_inv {A B} (o : option A) (f : A -> M B) s t r :
  bind (of_option o) f s = (t, Some r) ->
  exists a, o = Some a /\ f a s = (t, Some r).
Proof.
  destruct o as [a|]; cbn [of_option].
  - rewrite bind_ret. intros H. now exists a.
  - unfold bind, undefined. discriminate.
Qed.

Lemma store_inv {A} (a : list A) : forall i x a',
  store a i x = Some a' ->
  i < List.length a /\ List.length a' = List.length a
  /\ nth_error a' i = Some x
  /\ forall j, j <> i -> nth_error a' j = nth_error a j.
Proof.
  induction a as [|h t IH]; intros i x a' H; [discriminate|].
  destruct i as [|i]; cbn [store] in H.
  - inversion H; subst. cbn. repeat split; [lia|].
    intros [|j] Hj; [congruence | reflexivity].
  - destruct (store t i x) as [t'|] eqn:Ht; [|discriminate].
    inversion H; subst. destruct (IH i x t' Ht) as (Hi & Hlen & Hnth & Hother).
    cbn. repeat split; [lia | now rewrite Hlen | exact Hnth |].
    intros [|j] Hj; [reflexivity | apply Hother; lia].
Qed.

Lemma store_nth {A} (a a' : list A) i x d :
  store a i x = Some a' ->
  forall j, nth j a' d = if j =? i then x else nth j a d.
Proof.
  intros H j. destruct (store_inv a i x a' H) as (Hi & Hlen & Hnth & Hother).
  destruct (j =? i) eqn:Hj.
  - apply Nat.eqb_eq in Hj. subst j. now apply nth_error_nth.
  - apply Nat.eqb_neq in Hj. specialize (Hother j Hj).
    destruct (nth_error a j) as [y|] eqn:Hy.
    + rewrite (nth_error_nth a j d Hy). now apply nth_error_nth.
    + apply nth_error_None in Hy. rewrite (nth_overflow a d Hy).
      apply nth_overflow. lia.
Qed.

Lemma strchr_some_split l : forall p q,
  strchr l p SP = Some q ->
  exists t tl, l = t ++ SP :: tl /\ forallb token_char t = true /\ q = p + List.length t.
Proof.
  induction l as [|h l IH]; intros p q; cbn [strchr].
  - change (Ascii.eqb NUL SP) with false. discriminate.
  - destruct (Ascii.eqb h SP) eqn:Hs.
    + intros H. inversion H; subst. apply Ascii.eqb_eq in Hs. subst h.
      exists [], l. repeat split. cbn. lia.
    + destruct (is_nul h) eqn:Hn; [discriminate|].
      intros H. destruct (IH _ _ H) as (t & tl & -> & Ht & ->).
      exists (h :: t), tl. repeat split.
      * cbn [forallb]. unfold token_char at 1. now rewrite Hn, Hs.
      * cbn. lia.
Qed.

Lemma strchr_none_split l : forall p,
  strchr l p SP = None ->
  exists t tl, l = t ++ tl /\ forallb token_char t = true
               /\ (tl = [] \/ exists tl', tl = NUL :: tl').
Proof.
  induction l as [|h l IH]; intros p; cbn [strchr].
  - intros _. exists [], []. repeat split. now left.
  - destruct (Ascii.eqb h SP) eqn:Hs; [discriminate|].
    destruct (is_nul h) eqn:Hn.
    + intros _. apply Ascii.eqb_eq in Hn. subst h.
      exists [], (NUL :: l). repeat split. right. now exists l.
    + intros H. destruct (IH _ H) as (t & tl & -> & Ht & Htl).
      exists (h :: t), tl. repeat split; [|exact Htl].
      cbn [forallb]. unfold token_char at 1. now rewrite Hn, Hs.
Qed.

Lemma skip_spaces_stop l : forall p,
  is_nul (nth (skip_spaces l p - p) l NUL) = false ->
  token_char (nth (skip_spaces l p - p) l NUL) = true.
Proof.
  induction l as [|h l IH]; intros p; cbn [skip_spaces].
  - rewrite Nat.sub_diag. cbn. discriminate.
  - destruct (negb (is_nul h) && Ascii.eqb h SP) eqn:Hh.
    + pose proof (skip_spaces_bounds l (S p)) as Hb.
      replace (skip_spaces l (S p) - p) with (S (skip_spaces l (S p) - S p)) by lia.
      cbn [nth]. apply IH.
    + rewrite Nat.sub_diag. cbn [nth]. intros Hn. unfold token_char.
      rewrite Hn in *. cbn [negb andb] in *. now rewrite Hh.
Qed.

Lemma firstn_skipn_length {A} (l : list A) n :
  n <= List.length l -> List.length (firstn n l) = n.
Proof. intros H. rewrite length_firstn. lia. Qed.

Lemma cstr_at_store_after buf : forall p e q x buf',
  store buf q x = Some buf' ->
  p <= e -> e < q -> is_nul (nth e buf NUL) = true ->
  cstr_at buf' p = cstr_at buf p.
Proof.
  unfold cstr_at.
  induction buf as [|h t IH]; intros p e q x buf' Hst Hpe Heq Hnul; [discriminate|].
  destruct q as [|q]; [lia|]. cbn [store] in Hst.
  destruct (store t q x) as [t'|] eqn:Ht; [|discriminate].
  inversion Hst; subst buf'. destruct p as [|p].
  - cbn [skipn cstr]. destruct (is_nul h) eqn:Hh; [reflexivity|].
    destruct e as [|e]; [cbn in Hnul; congruence|].
    f_equal. apply (IH 0 e q x t' Ht); [lia | lia | exact Hnul].
  - destruct e as [|e]; [lia|]. cbn [skipn].
    apply (IH p e q x t' Ht); [lia | lia | exact Hnul].
Qed.

Lemma list_ascii_of_string_of_list l :
  list_ascii_of_string (string_of_list_ascii l) = l.
Proof. apply list_ascii_of_string_of_list_ascii. Qed.

(** The argument that starts at [str] and runs into the end of the line. *)
Lemma good_arg_to_the_end buf str :
  token_char (peek buf str) = true ->
  strchr (skipn str buf) str SP = None ->
  good_arg buf str.
Proof.
  intros Hpk Hnone. unfold good_arg, cstr_at.
  assert (Hlt : str < List.length buf).
  { destruct (Nat.lt_ge_cases str (List.length buf)) as [H|H]; [exact H|].
    unfold peek in Hpk. now rewrite nth_overflow in Hpk by exact H. }
  split; [exact Hlt|].
  destruct (strchr_none_split _ _ Hnone) as (t & tl & Hsplit & Ht & Htl).
  rewrite Hsplit, cstr_token by assumption. rewrite list_ascii_of_string_of_list.
  destruct t as [|c t]; [|exact Ht].
  unfold peek in Hpk. rewrite <- (Nat.add_0_r str), <- nth_skipn, Hsplit in Hpk.
  destruct Htl as [-> | (tl' & ->)]; discriminate.
Qed.

(** The argument that starts at [str], once the space after it is
    overwritten. *)
Lemma good_arg_closed buf str q buf1 :
  token_char (peek buf str) = true ->
  strchr (skipn str buf) str SP = Some q ->
  store buf q NUL = Some buf1 ->
  str < q /\ nth q buf NUL = SP /\ is_nul (nth q buf1 NUL) = true /\ good_arg buf1 str.
Proof.
  intros Hpk Hsome Hst.
  assert (Hlt : str < List.length buf).
  { destruct (Nat.lt_ge_cases str (List.length buf)) as [H|H]; [exact H|].
    unfold peek in Hpk. now rewrite nth_overflow in Hpk by exact H. }
  destruct (strchr_some_split _ _ _ Hsome) as (t & tl & Hsplit & Ht & ->).
  assert (Hne : t <> []).
  { intros ->. unfold peek in Hpk.
    rewrite <- (Nat.add_0_r str), <- nth_skipn, Hsplit in Hpk. discriminate. }
  assert (Hbuf : buf = firstn str buf ++ t ++ SP :: tl)
    by (now rewrite <- Hsplit, firstn_skipn).
  assert (Hpre : List.length (firstn str buf) = str)
    by (apply firstn_skipn_length; lia).
  remember (firstn str buf) as pre eqn:Heq. clear Heq Hsplit Hsome Hpk Hlt.
  subst buf str.
  rewrite store_token_end in Hst. inversion Hst; subst buf1. clear Hst.
  split; [destruct t; [congruence | cbn; lia]|].
  split; [|split].
  - rewrite app_assoc, <- length_app, app_nth2 by lia. now rewrite Nat.sub_diag.
  - rewrite app_assoc, <- length_app, app_nth2 by lia. now rewrite Nat.sub_diag.
  - unfold good_arg, cstr_at. split.
    + rewrite !length_app. destruct t; [congruence | cbn; lia].
    + rewrite skipn_app_length.
      rewrite cstr_token; [|exact Ht | right; now eexists].
      rewrite list_ascii_of_string_of_list.
      destruct t; [congruence | exact Ht].
Qed.

Lemma closed_arg_after_store buf q buf1 str str1 p :
  store buf q NUL = Some buf1 ->
  str <= q -> q < str1 ->
  closed_arg buf str p -> closed_arg buf1 str1 p.
Proof.
  intros Hst Hq Hq1 (e & Hpe & He & Hnul & Hlt & Htok).
  destruct (store_inv _ _ _ _ Hst) as (_ & Hlen & _).
  exists e. repeat split; try lia.
  - rewrite (store_nth _ _ _ _ NUL Hst).
    destruct (e =? q) eqn:Heq; [reflexivity | exact Hnul].
  - now rewrite (cstr_at_store_after buf p e q NUL buf1 Hst Hpe ltac:(lia) Hnul).
Qed.

Lemma line2argv_loop_args fuel :
  forall buf str argv argc size st tr n buf' argv' st',
    line2argv_loop fuel buf str argv argc size st = (tr, Some ((n, buf', argv'), st')) ->
    0 < argc ->
    nth_error argv (argc - 1) = Some (Ptr str) ->
    token_char (peek buf str) = true ->
    (forall i, i < argc - 1 ->
               exists p, nth_error argv i = Some (Ptr p) /\ closed_arg buf str p) ->
    forall i, i < n -> exists p, nth_error argv' i = Some (Ptr p) /\ good_arg buf' p.
Proof.
  induction fuel as [|fuel IH];
    intros buf str argv argc size st tr n buf' argv' st' H Hargc Hlast Hpk Hold;
    [discriminate|].
  cbn [line2argv_loop] in H.
  destruct (strchr (skipn str buf) str SP) as [q|] eqn:Hq.
  - apply bind_of_option_inv in H as (buf1 & Hst1 & H).
    destruct (good_arg_closed buf str q buf1 Hpk Hq Hst1) as (Hsq & _ & Hnulq & Hgood).
    pose proof (skip_spaces_bounds (skipn (S q) buf1) (S q)) as [Hlo _].
    assert (Hall : forall i, i < argc ->
              exists p, nth_error argv i = Some (Ptr p)
                        /\ closed_arg buf1 (skip_spaces (skipn (S q) buf1) (S q)) p).
    { intros i Hi. destruct (Nat.eq_dec i (argc - 1)) as [->|Hne].
      - exists str. split; [exact Hlast|]. exists q. repeat split; try lia; try apply Hgood.
        exact Hnulq.
      - destruct (Hold i ltac:(lia)) as (p & Hp & Hc). exists p. split; [exact Hp|].
        apply (closed_arg_after_store buf q buf1 str _ p Hst1); [lia | lia | exact Hc]. }
    destruct (is_nul (peek buf1 (skip_spaces (skipn (S q) buf1) (S q)))) eqn:Hpk1.
    + apply bind_of_option_inv in H as (argvN & HstN & H).
      unfold ret in H. inversion H; subst. clear H.
      destruct (store_inv _ _ _ _ HstN) as (_ & _ & _ & Hother).
      intros i Hi. destruct (Hall i Hi) as (p & Hp & (e & _ & _ & _ & Hg)).
      exists p. split; [|exact Hg]. rewrite Hother by lia. exact Hp.
    + apply bind_of_option_inv in H as (argv1 & Hst2 & H).
      destruct (store_inv _ _ _ _ Hst2) as (_ & _ & Hsame & Hother).
      destruct (S argc =? size).
      * rewrite bind_printf in H. cbn [ret fst snd] in H. inversion H; subst. lia.
      * apply (IH _ _ _ _ _ _ _ _ _ _ _ H).
        -- lia.
        -- replace (S argc - 1) with argc by lia. exact Hsame.
        -- unfold peek in *.
           pose proof (skip_spaces_stop (skipn (S q) buf1) (S q)) as Hstop.
           rewrite nth_skipn in Hstop.
           replace (S q + (skip_spaces (skipn (S q) buf1) (S q) - S q))
             with (skip_spaces (skipn (S q) buf1) (S q)) in Hstop by lia.
           apply Hstop. exact Hpk1.
        -- intros i Hi. destruct (Hall i ltac:(lia)) as (p & Hp & Hc).
           exists p. split; [|exact Hc]. rewrite Hother by lia. exact Hp.
  - apply bind_of_option_inv in H as (argvN & HstN & H).
    unfold ret in H. inversion H; subst. clear H.
    destruct (store_inv _ _ _ _ HstN) as (_ & _ & _ & Hother).
    intros i Hi. rewrite Hother by lia.
    destruct (Nat.eq_dec i (n - 1)) as [->|Hne].
    + exists str. split; [exact Hlast|]. now apply good_arg_to_the_end.
    + destruct (Hold i ltac:(lia)) as (p & Hp & (e & _ & _ & _ & Hg)). now exists p.
Qed.

Lemma only_spaces_cleared_refl buf : only_spaces_cleared buf buf.
Proof. split; [reflexivity | intros i; now left]. Qed.

Lemma only_spaces_cleared_trans a b c :
  only_spaces_cleared a b -> only_spaces_cleared b c -> only_spaces_cleared a c.
Proof.
  intros [Hl1 H1] [Hl2 H2]. split; [congruence|]. intros i.
  destruct (H2 i) as [E2|[E2 E2']], (H1 i) as [E1|[E1 E1']].
  - left. congruence.
  - right. split; congruence.
  - right. split; congruence.
  - right. split; congruence.
Qed.

Lemma line2argv_loop_buffer fuel :
  forall buf str argv argc size st tr n buf' argv' st',
    line2argv_loop fuel buf str argv argc size st = (tr, Some ((n, buf', argv'), st')) ->
    only_spaces_cleared buf buf'.
Proof.
  induction fuel as [|fuel IH];
    intros buf str argv argc size st tr n buf' argv' st' H; [discriminate|].
  cbn [line2argv_loop] in H.
  destruct (strchr (skipn str buf) str SP) as [q|] eqn:Hq.
  - apply bind_of_option_inv in H as (buf1 & Hst1 & H).
    assert (Hstep : only_spaces_cleared buf buf1).
    { destruct (store_inv _ _ _ _ Hst1) as (_ & Hlen & _).
      split; [exact Hlen|]. intros i. rewrite (store_nth _ _ _ _ NUL Hst1).
      destruct (i =? q) eqn:Hi; [|now left].
      apply Nat.eqb_eq in Hi. subst i. right. split; [|reflexivity].
      destruct (strchr_some_split _ _ _ Hq) as (t & tl & Hsplit & _ & ->).
      rewrite <- nth_skipn, Hsplit, app_nth2 by lia. now rewrite Nat.sub_diag. }
    destruct (is_nul (peek buf1 (skip_spaces (skipn (S q) buf1) (S q)))).
    + apply bind_of_option_inv in H as (argvN & _ & H).
      unfold ret in H. inversion H; subst. exact Hstep.
    + apply bind_of_option_inv in H as (argv1 & _ & H).
      destruct (S argc =? size).
      * rewrite bind_printf in H. cbn [ret fst snd] in H. inversion H; subst. exact Hstep.
      * apply (only_spaces_cleared_trans _ _ _ Hstep). exact (IH _ _ _ _ _ _ _ _ _ _ _ H).
  - apply bind_of_option_inv in H as (argvN & _ & H).
    unfold ret in H. inversion H; subst. apply only_spaces_cleared_refl.
Qed.

(** X1.  Given an array of [size] slots, [size] at least 2, [line2argv]
    returns on every line, whatever its bytes: the shell's variables are
    untouched, the array keeps its length, the count is below [size], and
    when the count is not zero nothing was printed and [argv[count]] is
    NULL. *)
Theorem line2argv_always_returns :
  forall (str : list ascii) (argv : list cell) (size : nat) (st : shell),
    2 <= size ->
    List.length argv = size ->
    exists tr argc buf argv',
      line2argv str argv size st = (tr, Some ((argc, buf, argv'), st))
      /\ List.length argv' = size
      /\ argc < size
      /\ (argc <> 0 -> tr = [] /\ nth_error argv' argc = Some Null).
Proof.
  intros str argv size st Hsize Hlen.
  destruct (line2argv_defined str argv size st Hsize Hlen) as ([[argc buf] argv'] & Hrun & Hres).
  exists (fst (line2argv str argv size st)), argc, buf, argv'.
  split; [exact Hrun|]. cbn in Hres. destruct Hres as (Hl & Hcase).
  split; [exact Hl|]. destruct Hcase as [-> | (Hlt & Hnull & Htr)].
  - split; [lia | congruence].
  - split; [exact Hlt | intros _; now split].
Qed.

Lemma line2argv_always_returns_witness :
  exists tr argc buf argv',
    line2argv (L " a  b ") (repeat Indet 3) 3 shell_start
      = (tr, Some ((argc, buf, argv'), shell_start))
    /\ List.length argv' = 3 /\ argc < 3
    /\ (argc <> 0 -> tr = [] /\ nth_error argv' argc = Some Null).
Proof.
  exact (line2argv_always_returns (L " a  b ") (repeat Indet 3) 3 shell_start
           ltac:(lia) eq_refl).
Defined.

(** X2.  Whatever the line, [line2argv] changes it only by overwriting
    spaces with NUL: the length is kept, and every other byte, be it a
    character of a token, a NUL or a space it passed over, is as it was. *)
Theorem line2argv_only_clears_spaces :
  forall (str : list ascii) (argv : list cell) (size : nat) (st st' : shell)
         (tr : list event) (argc : nat) (buf : list ascii) (argv' : list cell),
    line2argv str argv size st = (tr, Some ((argc, buf, argv'), st')) ->
    List.length buf = List.length str
    /\ forall i, nth i buf NUL = nth i str NUL
                 \/ (nth i str NUL = SP /\ nth i buf NUL = NUL).
Proof.
  intros str argv size st st' tr argc buf argv' H. unfold line2argv in H.
  destruct (strlen str =? 0).
  - unfold ret in H. inversion H; subst. apply only_spaces_cleared_refl.
  - cbv zeta in H. destruct (is_nul (peek str (skip_spaces str 0))).
    + unfold ret in H. inversion H; subst. apply only_spaces_cleared_refl.
    + apply bind_of_option_inv in H as (argv1 & _ & H).
      exact (line2argv_loop_buffer _ _ _ _ _ _ _ _ _ _ _ _ H).
Qed.

Lemma line2argv_only_clears_spaces_witness :
  List.length (L ("ab" ++ String NUL " c")) = List.length (L "ab  c")
  /\ forall i, nth i (L ("ab" ++ String NUL " c")) NUL = nth i (L "ab  c") NUL
               \/ (nth i (L "ab  c") NUL = SP
                   /\ nth i (L ("ab" ++ String NUL " c")) NUL = NUL).
Proof.
  exact (line2argv_only_clears_spaces (L "ab  c") (repeat Indet 3) 3 shell_start
           shell_start [] 2 (L ("ab" ++ String NUL " c")) [Ptr 0; Ptr 4; Null] eq_refl).
Defined.

Lemma line2argv_args_good :
  forall (str : list ascii) (argv : list cell) (size : nat) (st st' : shell)
         (tr : list event) (argc : nat) (buf : list ascii) (argv' : list cell),
    line2argv str argv size st = (tr, Some ((argc, buf, argv'), st')) ->
    forall i, i < argc ->
      exists p, nth_error argv' i = Some (Ptr p)
                /\ p < List.length buf
                /\ nth_error (argv_view buf argv' argc) i = Some (Some (cstr_at buf p))
                /\ is_token (list_ascii_of_string (cstr_at buf p)) = true.
Proof.
  intros str argv size st st' tr argc buf argv' H i Hi.
  assert (Hargs : exists p, nth_error argv' i = Some (Ptr p) /\ good_arg buf p).
  { unfold line2argv in H.
    destruct (strlen str =? 0); [unfold ret in H; inversion H; subst; lia|].
    cbv zeta in H.
    destruct (is_nul (peek str (skip_spaces str 0))) eqn:Hpk;
      [unfold ret in H; inversion H; subst; lia|].
    apply bind_of_option_inv in H as (argv1 & Hst & H).
    destruct (store_inv _ _ _ _ Hst) as (_ & _ & Hsame & _).
    apply (line2argv_loop_args _ _ _ _ _ _ _ _ _ _ _ _ H); try lia.
    - exact Hsame.
    - pose proof (skip_spaces_stop str 0) as Hstop.
      rewrite Nat.sub_0_r in Hstop. apply Hstop. exact Hpk. }
  destruct Hargs as (p & Hp & Hlt & Htok).
  exists p. repeat split; try assumption.
  unfold argv_view. rewrite nth_error_map, nth_error_firstn.
  replace (i <? S argc) with true by (symmetry; apply Nat.ltb_lt; lia).
  now rewrite Hp.
Qed.

(** X3.  Whatever the line, every argument [line2argv] returns, that is
    every [argv[i]] with [i] below the returned count, points inside the
    line at a string with at least one character and no space in it. *)
Theorem line2argv_arguments_are_tokens :
  forall (str : list ascii) (argv : list cell) (size : nat) (st st' : shell)
         (tr : list event) (argc : nat) (buf : list ascii) (argv' : list cell),
    line2argv str argv size st = (tr, Some ((argc, buf, argv'), st')) ->
    forall i, i < argc ->
      exists p, nth_error argv' i = Some (Ptr p)
                /\ p < List.length buf
                /\ nth_error (argv_view buf argv' argc) i = Some (Some (cstr_at buf p))
                /\ is_token (list_ascii_of_string (cstr_at buf p)) = true.
Proof. exact line2argv_args_good. Qed.

Lemma line2argv_arguments_are_tokens_witness :
  exists p, nth_error [Ptr 0; Ptr 4; Null] 1 = Some (Ptr p)
            /\ p < List.length (L ("ab" ++ String NUL " c"))
            /\ nth_error (argv_view (L ("ab" ++ String NUL " c")) [Ptr 0; Ptr 4; Null] 2) 1
               = Some (Some (cstr_at (L ("ab" ++ String NUL " c")) p))
            /\ is_token (list_ascii_of_string (cstr_at (L ("ab" ++ String NUL " c")) p)) = true.
Proof.
  exact (line2argv_arguments_are_tokens (L "ab  c") (repeat Indet 3) 3 shell_start
           shell_start [] 2 (L ("ab" ++ String NUL " c")) [Ptr 0; Ptr 4; Null] eq_refl
           1 ltac:(lia)).
Defined.

(** ** The registry: lookup and registration *)

Lemma strncmp_eq_firstn n : forall a b,
  strncmp_eq a b n = true <-> name_matches a b n.
Proof.
  unfold name_matches.
  induction n as [|n IH]; intros a b;
    [destruct a; split; reflexivity|].
  destruct a as [|c a], b as [|d b]; cbn [strncmp_eq list_ascii_of_string firstn].
  - split; reflexivity.
  - split; discriminate.
  - split; discriminate.
  - rewrite andb_true_iff, Ascii.eqb_eq, IH. split.
    + intros [-> ->]. reflexivity.
    + intros H. inversion H. tauto.
Qed.

Lemma strncmp_eq_refl n : forall a, strncmp_eq a a n = true.
Proof. intros a. now apply strncmp_eq_firstn. Qed.

Lemma get_destination_module_from_spec mods :
  forall k s n,
    (0 <= k)%Z ->
    let i := get_destination_module_from mods k s n in
    (i = (-1)%Z /\ forall m, In m mods -> strncmp_eq s (module_name m) n = false)
    \/ ((k <= i < k + Z.of_nat (List.length mods))%Z
        /\ exists m, nth_error mods (Z.to_nat (i - k)) = Some m
                     /\ strncmp_eq s (module_name m) n = true
                     /\ forall j m', j < Z.to_nat (i - k) ->
                                     nth_error mods j = Some m' ->
                                     strncmp_eq s (module_name m') n = false).
Proof.
  induction mods as [|m0 rest IH]; intros k s n Hk; cbn [get_destination_module_from].
  - left. split; [reflexivity | intros m []].
  - destruct (strncmp_eq s (module_name m0) n) eqn:Hc.
    + right. cbn [List.length]. split; [lia|]. exists m0.
      rewrite Z.sub_diag. cbn. repeat split; [exact Hc|]. intros j m' Hj. lia.
    + destruct (IH (k + 1)%Z s n ltac:(lia)) as [[Hi Hall] | (Hi & m & Hm & Hs & Hfirst)].
      * left. split; [exact Hi|]. intros m [<- | Hin]; [exact Hc | now apply Hall].
      * right. cbn [List.length]. split; [lia|]. exists m.
        replace (Z.to_nat (get_destination_module_from rest (k + 1) s n - k))
          with (S (Z.to_nat (get_destination_module_from rest (k + 1) s n - (k + 1))))
          by lia.
        cbn [nth_error]. repeat split; [exact Hm | exact Hs|].
        intros [|j] m' Hj Hnth; cbn [nth_error] in Hnth.
        -- inversion Hnth; subst. exact Hc.
        -- apply (Hfirst j m'); [lia | exact Hnth].
Qed.

Lemma get_destination_module_from_app mods m :
  forall k s n,
    (0 <= k)%Z ->
    get_destination_module_from (mods ++ [m]) k s n
    = if (get_destination_module_from mods k s n =? -1)%Z
      then (if strncmp_eq s (module_name m) n
            then (k + Z.of_nat (List.length mods))%Z else (-1)%Z)
      else get_destination_module_from mods k s n.
Proof.
  induction mods as [|m0 rest IH]; intros k s n Hk;
    cbn [app get_destination_module_from List.length].
  - change (-1 =? -1)%Z with true. cbv iota.
    destruct (strncmp_eq s (module_name m) n); [cbn; lia | reflexivity].
  - destruct (strncmp_eq s (module_name m0) n) eqn:Hc.
    + destruct (k =? -1)%Z eqn:Hk1; [apply Z.eqb_eq in Hk1; lia | reflexivity].
    + rewrite IH by lia. destruct (_ =? -1)%Z; [|reflexivity].
      destruct (strncmp_eq s (module_name m) n); [lia | reflexivity].
Qed.

(** X4.  [get_destination_module] returns -1 exactly when no registered
    module has a name that agrees with the candidate on the first [len]
    characters; otherwise it returns the index of the first such module
    in registration order.  The comparison stops after [len] characters,
    so a longer stored name that shares them is a match. *)
Theorem get_destination_module_first_match :
  forall (st : shell) (s : string) (len : nat),
    exists i,
      get_destination_module s len st = ([], Some (i, st))
      /\ (i = (-1)%Z <->
          forall m, In m (shell_modules st) -> ~ name_matches s (module_name m) len)
      /\ (i <> (-1)%Z ->
          (0 <= i < Z.of_nat (num_of_shell_entities st))%Z
          /\ exists m, nth_error (shell_modules st) (Z.to_nat i) = Some m
                       /\ name_matches s (module_name m) len
                       /\ forall j m', j < Z.to_nat i ->
                                       nth_error (shell_modules st) j = Some m' ->
                                       ~ name_matches s (module_name m') len).
Proof.
  intros st s len. eexists. split; [reflexivity|].
  pose proof (get_destination_module_from_spec (shell_modules st) 0 s len (Z.le_refl 0))
    as Hspec.
  cbv zeta in Hspec. unfold num_of_shell_entities.
  destruct Hspec as [[Hi Hall] | (Hi & m & Hm & Hs & Hfirst)].
  - rewrite Hi. split; [|congruence]. split; [|reflexivity].
    intros _ m Hin Hmatch. apply strncmp_eq_firstn in Hmatch.
    rewrite (Hall m Hin) in Hmatch. discriminate.
  - rewrite Z.sub_0_r in Hm, Hfirst. split.
    + split; [lia|]. intros Hnone. exfalso.
      apply (Hnone m); [now apply nth_error_In in Hm | now apply strncmp_eq_firstn].
    + intros _. split; [lia|]. exists m. split; [exact Hm|].
      split; [now apply strncmp_eq_firstn|].
      intros j m' Hj Hnth Hmatch. apply strncmp_eq_firstn in Hmatch.
      rewrite (Hfirst j m' Hj Hnth) in Hmatch. discriminate.
Qed.

Lemma get_destination_module_first_match_witness :
  exists m, nth_error (shell_modules st_two_modules) 1 = Some m
            /\ module_name m = "aaaaaaaaaaaaaaaaaaaa-long-name"
            /\ name_matches "aaaaaaaaaaaaaaaaaaaa/other" (module_name m) MODULE_NAME_MAX_LEN.
Proof.
  destruct (get_destination_module_first_match st_two_modules
              "aaaaaaaaaaaaaaaaaaaa/other" MODULE_NAME_MAX_LEN)
    as (i & Hrun & _ & Hfound).
  vm_compute in Hrun. inversion Hrun; subst i. clear Hrun.
  destruct (Hfound ltac:(discriminate)) as (_ & m & Hm & Hmatch & _).
  exists m. split; [exact Hm|]. split; [|exact Hmatch].
  cbn in Hm. now inversion Hm.
Defined.

Lemma set_shell_modules_twice v w st :
  set_shell_modules v (set_shell_modules w st) = set_shell_modules v st.
Proof. reflexivity. Qed.

Lemma set_shell_modules_same st : set_shell_modules (shell_modules st) st = st.
Proof. now destruct st. Qed.

(** X5.  A module registered while there is room is found by its own
    name from then on: the lookup gives an index that is at most the slot
    it was stored in, and exactly that slot when no module registered
    before matched the name.  Registration never changes what a name that
    was already found resolves to. *)
Theorem registered_module_is_found :
  forall (MAX : nat) (name : string) (cmds : list shell_cmd) (st : shell) (len : nat),
    num_of_shell_entities st < MAX ->
    exists st' i',
      shell_register MAX name cmds st = ([], Some (0%Z, st'))
      /\ get_destination_module name len st' = ([], Some (i', st'))
      /\ (0 <= i' <= Z.of_nat (num_of_shell_entities st))%Z
      /\ (get_destination_module name len st = ([], Some ((-1)%Z, st)) ->
          i' = Z.of_nat (num_of_shell_entities st))
      /\ (forall s i, get_destination_module s len st = ([], Some (i, st)) ->
                      i <> (-1)%Z ->
                      get_destination_module s len st' = ([], Some (i, st'))).
Proof.
  intros MAX name cmds st len Hroom.
  unfold shell_register. rewrite bind_gets.
  apply Nat.leb_gt in Hroom. rewrite Hroom, bind_modify.
  eexists _, _. split; [reflexivity|]. split; [reflexivity|].
  unfold get_destination_module, gets, num_of_shell_entities.
  cbn [shell_modules set_shell_modules].
  pose proof (get_destination_module_from_app (shell_modules st)
                (mk_module name cmds) 0 name len (Z.le_refl 0)) as Happ.
  cbn [module_name] in Happ. rewrite strncmp_eq_refl in Happ.
  pose proof (get_destination_module_from_spec (shell_modules st) 0 name len (Z.le_refl 0))
    as Hspec.
  cbv zeta in Hspec. split; [|split].
  - rewrite Happ. destruct Hspec as [[Hi _] | (Hi & _)].
    + rewrite Hi. cbn. lia.
    + destruct (_ =? -1)%Z; lia.
  - intros Hnone. inversion Hnone as [Hi]. rewrite Happ, Hi. reflexivity.
  - intros s i Hfound Hi. inversion Hfound as [Hfi].
    rewrite (get_destination_module_from_app (shell_modules st)
               (mk_module name cmds) 0 s len (Z.le_refl 0)).
    apply Z.eqb_neq in Hi. rewrite Hfi in *. now rewrite Hi.
Qed.

Lemma registered_module_is_found_witness :
  exists st',
    shell_register 3 "net" [] st_ble = ([], Some (0%Z, st'))
    /\ get_destination_module "net" MODULE_NAME_MAX_LEN st' = ([], Some (1%Z, st'))
    /\ get_destination_module "ble" MODULE_NAME_MAX_LEN st' = ([], Some (0%Z, st')).
Proof.
  destruct (registered_module_is_found 3 "net" [] st_ble MODULE_NAME_MAX_LEN
              ltac:(cbn; lia))
    as (st' & i' & Hreg & Hfind & _ & Hnew & Hold).
  exists st'. split; [exact Hreg|]. split.
  - rewrite Hfind, (Hnew eq_refl). reflexivity.
  - exact (Hold "ble" 0%Z eq_refl ltac:(discriminate)).
Defined.

Lemma shell_register_all_run MAX regs :
  forall st,
    shell_register_all MAX regs st
    = ([], Some (repeat 0%Z (Nat.min (MAX - num_of_shell_entities st) (List.length regs))
                   ++ repeat (-1)%Z (List.length regs - (MAX - num_of_shell_entities st)),
                 set_shell_modules
                   (shell_modules st
                      ++ map module_of (firstn (MAX - num_of_shell_entities st) regs)) st)).
Proof.
  induction regs as [|[name cmds] rest IH]; intros st.
  - cbn [shell_register_all List.length].
    rewrite Nat.min_0_r, firstn_nil. cbn [map repeat Nat.sub app].
    rewrite app_nil_r, set_shell_modules_same. reflexivity.
  - cbn [shell_register_all]. unfold shell_register at 1. rewrite bind_assoc, bind_gets.
    destruct (MAX <=? num_of_shell_entities st) eqn:Hfull.
    + apply Nat.leb_le in Hfull. rewrite bind_ret.
      rewrite (bind_some _ _ _ _ _ _ (IH st)). cbn [fst snd ret app].
      replace (MAX - num_of_shell_entities st) with 0 by lia.
      cbn [Nat.min firstn repeat app map List.length Nat.sub].
      now rewrite Nat.sub_0_r.
    + apply Nat.leb_gt in Hfull. rewrite bind_assoc, bind_modify, bind_ret.
      rewrite (bind_some _ _ _ _ _ _ (IH _)). cbn [fst snd ret app].
      unfold num_of_shell_entities. cbn [shell_modules set_shell_modules].
      rewrite length_app. cbn [List.length].
      unfold num_of_shell_entities in Hfull.
      destruct (MAX - List.length (shell_modules st)) as [|room] eqn:Hroom; [lia|].
      replace (MAX - (List.length (shell_modules st) + 1)) with room by lia.
      cbn [Nat.min firstn repeat app map List.length Nat.sub module_of fst snd].
      rewrite <- app_assoc. reflexivity.
Qed.

(** X6.  Whatever run of registrations the packages make, the registry
    never holds more modules than its capacity: the first ones that fit
    are stored in order after the modules already there and get 0, all
    the later ones get -1, and nothing else in the shell changes. *)
Theorem shell_register_all_fills_to_capacity :
  forall (MAX : nat) (regs : list (string * list shell_cmd)) (st : shell),
    num_of_shell_entities st <= MAX ->
    exists rets st',
      shell_register_all MAX regs st = ([], Some (rets, st'))
      /\ shell_modules st'
         = shell_modules st ++ map module_of (firstn (MAX - num_of_shell_entities st) regs)
      /\ num_of_shell_entities st'
         = Nat.min (num_of_shell_entities st + List.length regs) MAX
      /\ num_of_shell_entities st' <= MAX
      /\ rets = repeat 0%Z (num_of_shell_entities st' - num_of_shell_entities st)
                  ++ repeat (-1)%Z (List.length regs
                                    - (num_of_shell_entities st' - num_of_shell_entities st))
      /\ st' = set_shell_modules (shell_modules st') st.
Proof.
  intros MAX regs st Hle. eexists _, _. split; [apply shell_register_all_run|].
  cbn [shell_modules set_shell_modules].
  assert (Hnum : num_of_shell_entities
                   (set_shell_modules
                      (shell_modules st
                         ++ map module_of (firstn (MAX - num_of_shell_entities st) regs)) st)
                 = Nat.min (num_of_shell_entities st + List.length regs) MAX).
  { unfold num_of_shell_entities. cbn [shell_modules set_shell_modules].
    rewrite length_app, length_map, length_firstn.
    unfold num_of_shell_entities in Hle. lia. }
  rewrite Hnum. repeat split; try lia.
  f_equal; f_equal; lia.
Qed.

Lemma shell_register_all_fills_to_capacity_witness :
  exists st',
    shell_register_all 2 [("net", []); ("fs", []); ("log", [])] st_ble
      = ([], Some ([0%Z; (-1)%Z; (-1)%Z], st'))
    /\ map module_name (shell_modules st') = ["ble"; "net"].
Proof.
  destruct (shell_register_all_fills_to_capacity 2 [("net", []); ("fs", []); ("log", [])]
              st_ble ltac:(cbn; lia))
    as (rets & st' & Hrun & Hmods & Hnum & _ & Hrets & _).
  exists st'. rewrite Hmods. split; [|reflexivity].
  rewrite Hrun, Hrets, Hnum. reflexivity.
Defined.

(** ** Selecting a default module: what holds of the code *)

(** X7.  [set_default_module] refuses a name of more than 20 characters
    without looking it up, even when its first 20 characters match a
    module, and refuses a name that no module matches: it then prints one
    diagnostic line, returns -1 and leaves every variable of the shell as
    it was. *)
Theorem set_default_module_refusal_changes_nothing :
  forall (st : shell) (name : string),
    MODULE_NAME_MAX_LEN < String.length name
    \/ get_destination_module name MODULE_NAME_MAX_LEN st = ([], Some ((-1)%Z, st)) ->
    exists msg,
      set_default_module name st = ([Print msg], Some ((-1)%Z, st))
      /\ (MODULE_NAME_MAX_LEN < String.length name -> msg = too_long_msg name)
      /\ (String.length name <= MODULE_NAME_MAX_LEN -> msg = illegal_default_msg name).
Proof.
  intros st name Hcause.
  destruct (MODULE_NAME_MAX_LEN <? String.length name) eqn:Hlong.
  - exists (too_long_msg name). split.
    + apply set_default_module_failure. unfold select_failure. now rewrite Hlong.
    + apply Nat.ltb_lt in Hlong. split; [reflexivity | lia].
  - exists (illegal_default_msg name). apply Nat.ltb_ge in Hlong. split.
    + destruct Hcause as [Hl | Hnone]; [lia|].
      unfold get_destination_module, gets in Hnone. injection Hnone as Hi.
      apply set_default_module_failure. unfold select_failure.
      replace (MODULE_NAME_MAX_LEN <? String.length name) with false
        by (symmetry; apply Nat.ltb_ge; lia).
      now rewrite Hi.
    + split; [lia | reflexivity].
Qed.

Lemma set_default_module_refusal_changes_nothing_witness :
  set_default_module "aaaaaaaaaaaaaaaaaaaa-long-name" st_two_modules
    = ([Print (too_long_msg "aaaaaaaaaaaaaaaaaaaa-long-name")],
       Some ((-1)%Z, st_two_modules))
  /\ set_default_module "wifi" st_two_modules
    = ([Print (illegal_default_msg "wifi")], Some ((-1)%Z, st_two_modules)).
Proof.
  assert (Hlen : MODULE_NAME_MAX_LEN < String.length "aaaaaaaaaaaaaaaaaaaa-long-name")
    by (vm_compute; lia).
  assert (Hlen' : String.length "wifi" <= MODULE_NAME_MAX_LEN) by (vm_compute; lia).
  split.
  - destruct (set_default_module_refusal_changes_nothing st_two_modules
                "aaaaaaaaaaaaaaaaaaaa-long-name" (or_introl Hlen))
      as (msg & Hrun & Hlong & _).
    rewrite Hrun, (Hlong Hlen). reflexivity.
  - destruct (set_default_module_refusal_changes_nothing st_two_modules
                "wifi" (or_intror eq_refl))
      as (msg & Hrun & _ & Hshort).
    rewrite Hrun, (Hshort Hlen'). reflexivity.
Defined.

(** X8.  For a name of fewer than 20 characters that some module
    matches, [set_default_module] prints nothing, returns 0, makes the
    first matching module the default and leaves "name> " in the cached
    prompt; the registry, the base prompt and the two handlers are
    unchanged, and the prompt array keeps its size. *)
Theorem set_default_module_selects_short_name :
  forall (st : shell) (name : string) (i : Z),
    String.length name < MODULE_NAME_MAX_LEN ->
    nul_free name = true ->
    List.length (default_module_prompt st) = PROMPT_MAX_LEN ->
    get_destination_module name MODULE_NAME_MAX_LEN st = ([], Some (i, st)) ->
    i <> (-1)%Z ->
    exists st',
      set_default_module name st = ([], Some (0%Z, st'))
      /\ default_module st' = i
      /\ cstr (default_module_prompt st') = (name ++ "> ")%string
      /\ get_destination_module name MODULE_NAME_MAX_LEN st' = ([], Some (i, st'))
      /\ shell_wf st'
      /\ same_registry st st'.
Proof.
  intros st name i Hshort Hfree Hbuf Hfind Hi.
  unfold get_destination_module, gets in Hfind. injection Hfind as Hfi.
  destruct (set_default_module_short st name Hshort Hfree Hbuf) as
    (st' & Hrun & Hd & Hne & Hprompt & Hlen & Hmods & Hp & Hc & Hh).
  { unfold select_failure.
    replace (MODULE_NAME_MAX_LEN <? String.length name) with false
      by (symmetry; apply Nat.ltb_ge; lia).
    apply Z.eqb_neq in Hi. now rewrite Hfi, Hi. }
  exists st'. split; [exact Hrun|]. split; [congruence|]. split; [exact Hprompt|].
  split; [unfold get_destination_module, gets; now rewrite Hmods, Hfi|].
  split; [|now repeat split].
  split; [|exact Hlen]. right. rewrite Hd. unfold num_of_shell_entities. rewrite Hmods.
  rewrite <- Hfi in Hi.
  destruct (get_destination_module_from_spec (shell_modules st) 0 name
              MODULE_NAME_MAX_LEN (Z.le_refl 0)) as [[Hnone _] | (Hrange & _)];
    [congruence | lia].
Qed.

Lemma set_default_module_selects_short_name_witness :
  set_default_module "ble" st_ble = ([], Some (0%Z, st_ble_selected)).
Proof.
  assert (Hlen : String.length "ble" < MODULE_NAME_MAX_LEN) by (vm_compute; lia).
  destruct (set_default_module_selects_short_name st_ble "ble" 0%Z
              Hlen eq_refl eq_refl eq_refl ltac:(discriminate))
    as (st' & Hrun & _).
  rewrite Hrun. vm_compute in Hrun. inversion Hrun. reflexivity.
Defined.

Lemma get_prompt_no_handler st :
  app_prompt_handler st = None ->
  get_prompt st
  = ([], Some (if (default_module st =? -1)%Z then prompt st
               else cstr (default_module_prompt st), st)).
Proof.
  intros Hh. unfold get_prompt. rewrite bind_gets, Hh, bind_gets.
  now destruct (default_module st =? -1)%Z.
Qed.

(** X9.  Selecting and deselecting compose: with no application prompt
    callback, after "select <name>" for a matching name of fewer than 20
    characters the active prompt is "name> "; a following "select" with
    no argument returns 0, sets [default_module] back to -1 and the
    active prompt is the base prompt again, with the registry as it was
    before both. *)
Theorem select_then_deselect_restores_prompt :
  forall (st : shell) (name : string) (rest rest' : list (option string)),
    String.length name < MODULE_NAME_MAX_LEN ->
    nul_free name = true ->
    List.length (default_module_prompt st) = PROMPT_MAX_LEN ->
    get_destination_module_from (shell_modules st) 0 name MODULE_NAME_MAX_LEN <> (-1)%Z ->
    app_prompt_handler st = None ->
    exists st1 st2,
      select_module 2 (Some "select" :: Some name :: rest) st = ([], Some (0%Z, st1))
      /\ get_prompt st1 = ([], Some ((name ++ "> ")%string, st1))
      /\ select_module 1 (Some "select" :: rest') st1 = ([], Some (0%Z, st2))
      /\ default_module st2 = (-1)%Z
      /\ get_prompt st2 = ([], Some (prompt st, st2))
      /\ same_registry st st2.
Proof.
  intros st name rest rest' Hshort Hfree Hbuf Hfound Hh.
  destruct (set_default_module_short st name Hshort Hfree Hbuf) as
    (st1 & Hrun & Hd & Hne & Hprompt & Hlen & Hmods & Hp & Hc & Hph).
  { unfold select_failure.
    replace (MODULE_NAME_MAX_LEN <? String.length name) with false
      by (symmetry; apply Nat.ltb_ge; lia).
    apply Z.eqb_neq in Hfound. now rewrite Hfound. }
  exists st1, (set_default_module_var (-1) st1).
  split.
  { unfold select_module. cbn [Nat.eqb arg nth of_option].
    rewrite bind_assoc, bind_ret, bind_assoc, (bind_some _ _ _ _ _ _ Hrun).
    cbn [fst snd]. now rewrite !bind_ret. }
  split.
  { rewrite get_prompt_no_handler by congruence.
    apply Z.eqb_neq in Hne. now rewrite Hne, Hprompt. }
  split.
  { unfold select_module. cbn [Nat.eqb]. now rewrite bind_modify. }
  split; [reflexivity|]. split.
  { rewrite get_prompt_no_handler by (cbn; congruence). cbn. now rewrite Hp. }
  repeat split; cbn; assumption.
Qed.

Lemma select_then_deselect_restores_prompt_witness :
  exists st1 st2,
    select_module 2 [Some "select"; Some "ble"; None] st_ble = ([], Some (0%Z, st1))
    /\ get_prompt st1 = ([], Some ("ble> ", st1))
    /\ select_module 1 [Some "select"; None] st1 = ([], Some (0%Z, st2))
    /\ get_prompt st2 = ([], Some (SHELL_PROMPT, st2)).
Proof.
  assert (Hlen : String.length "ble" < MODULE_NAME_MAX_LEN) by (vm_compute; lia).
  destruct (select_then_deselect_restores_prompt st_ble "ble" [None] [None]
              Hlen eq_refl eq_refl ltac:(vm_compute; discriminate) eq_refl)
    as (st1 & st2 & H1 & H2 & H3 & _ & H4 & _).
  exists st1, st2. now repeat split.
Defined.

(** ** Computations that return and leave the state alone *)

Lemma runs_ret {A} (a : A) st (P : A -> Prop) : P a -> runs (ret a) st P.
Proof. intros H. now exists [], a. Qed.

Lemma runs_gets {A} (g : shell -> A) st : runs (gets g) st (fun a => a = g st).
Proof. now exists [], (g st). Qed.

Lemma runs_printf x st : runs (console_printf x) st (fun _ => True).
Proof. now exists [Print x], tt. Qed.

Lemma runs_mark_call f n a st : runs (mark_call f n a) st (fun _ => True).
Proof. now exists [Call f n a], tt. Qed.

Lemma runs_of_option {A} (o : option A) (a : A) st :
  o = Some a -> runs (of_option o) st (fun x => x = a).
Proof. intros ->. now exists [], a. Qed.

Lemma runs_bind {A B} (m : M A) (f : A -> M B) st (P : A -> Prop) (Q : B -> Prop) :
  runs m st P -> (forall a, P a -> runs (f a) st Q) -> runs (bind m f) st Q.
Proof.
  intros (t & a & Hm & Ha) Hf. destruct (Hf a Ha) as (t' & b & Hfa & Hb).
  exists (t ++ t'), b. split; [|exact Hb].
  rewrite (bind_some _ _ _ _ _ _ Hm), Hfa. reflexivity.
Qed.

Lemma runs_weaken {A} (m : M A) st (P Q : A -> Prop) :
  runs m st P -> (forall a, P a -> Q a) -> runs m st Q.
Proof. intros (t & a & Hm & Ha) H. exists t, a. split; [exact Hm | now apply H]. Qed.

Lemma runs_seq {A B} (m : M A) (k : M B) st (P : A -> Prop) (Q : B -> Prop) :
  runs m st P -> runs k st Q -> runs (bind m (fun _ => k)) st Q.
Proof. intros Hm Hk. apply (runs_bind m _ st P Q Hm). intros _ _. exact Hk. Qed.

Lemma get_prompt_is_total st : runs get_prompt st (fun _ => True).
Proof. destruct (get_prompt_runs st) as (p & Hp). now exists [], p. Qed.

Lemma module_at_is_total st m :
  valid_module st m -> runs (module_at m) st (fun _ => True).
Proof.
  intros [Hlo Hhi]. unfold num_of_shell_entities in Hhi.
  destruct (nth_error (shell_modules st) (Z.to_nat m)) as [md|] eqn:Hm.
  - exists [], md. split; [now apply module_at_run | exact I].
  - apply nth_error_None in Hm. lia.
Qed.

Lemma get_destination_module_is_total st s n :
  runs (get_destination_module s n) st (fun i => i = (-1)%Z \/ valid_module st i).
Proof.
  exists [], (get_destination_module_from (shell_modules st) 0 s n).
  split; [reflexivity|].
  destruct (get_destination_module_from_spec (shell_modules st) 0 s n (Z.le_refl 0))
    as [[Hi _] | (Hi & _)]; [now left | right].
  unfold valid_module, num_of_shell_entities. lia.
Qed.

Lemma get_command_and_module_is_total st argv :
  shell_wf st ->
  runs (get_command_and_module argv) st
       (fun r => fst r <> None ->
                 (snd r <> (-1)%Z -> valid_module st (snd r)) /\ arg argv 0 <> None).
Proof.
  intros [Hdm _]. unfold get_command_and_module.
  destruct (arg argv 0) as [a0|] eqn:Ha0.
  - eapply runs_bind; [apply runs_gets|]. intros dm ->.
    destruct (default_module st =? -1)%Z eqn:Hd.
    + destruct (arg argv 1) as [a1|].
      * destruct (String.eqb a1 EmptyString).
        -- eapply runs_seq; [apply runs_printf|]. apply runs_ret. cbn. congruence.
        -- eapply runs_bind; [apply get_destination_module_is_total|].
           intros module Hmod. destruct (module =? -1)%Z eqn:Hm.
           ++ eapply runs_seq; [apply runs_printf|]. apply runs_ret. cbn. congruence.
           ++ apply runs_ret. cbn. intros _. split; [|discriminate].
              intros _. apply Z.eqb_neq in Hm. destruct Hmod; [contradiction | assumption].
      * eapply runs_seq; [apply runs_printf|]. apply runs_ret. cbn. congruence.
    + apply runs_ret. cbn. intros _. split; [|discriminate]. intros _.
      apply Z.eqb_neq in Hd. destruct Hdm; [contradiction | assumption].
  - eapply runs_seq; [apply runs_printf|]. apply runs_ret. cbn. congruence.
Qed.

Lemma show_cmd_help_loop_is_total st cmds command argv0 :
  runs (show_cmd_help_loop cmds command argv0) st (fun r => r = 0%Z).
Proof.
  unfold runs. rewrite show_cmd_help_loop_find.
  destruct (find_cmd cmds command); eexists _, _; split; reflexivity.
Qed.

Lemma show_cmd_help_is_total st argv :
  shell_wf st -> runs (show_cmd_help argv) st (fun r => r = 0%Z).
Proof.
  intros Hwf. unfold show_cmd_help.
  eapply runs_bind; [apply (get_command_and_module_is_total st argv Hwf)|].
  intros [command module] Hres. cbn [fst snd] in Hres.
  destruct command as [command|]; [|now apply runs_ret].
  destruct (Hres ltac:(discriminate)) as [Hvalid Harg].
  destruct (module =? -1)%Z eqn:Hm; [now apply runs_ret|].
  apply Z.eqb_neq in Hm.
  eapply runs_bind; [apply module_at_is_total; now apply Hvalid|]. intros md _.
  destruct (arg argv 0) as [a0|]; [|congruence].
  eapply runs_bind; [now apply (runs_of_option (Some a0) a0)|]. intros ? ->.
  apply show_cmd_help_loop_is_total.
Qed.

Lemma print_modules_from_is_total st mods :
  runs (print_modules_from mods) st (fun _ => True).
Proof.
  induction mods as [|m rest IH]; cbn [print_modules_from]; [now apply runs_ret|].
  eapply runs_seq; [apply runs_printf | exact IH].
Qed.

Lemma print_module_commands_loop_is_total st cmds :
  runs (print_module_commands_loop cmds) st (fun _ => True).
Proof.
  induction cmds as [|c rest IH]; cbn [print_module_commands_loop]; [now apply runs_ret|].
  eapply runs_seq; [apply runs_printf|].
  eapply runs_seq with (P := fun _ => True).
  - destruct (help c) as [h|]; [|now apply runs_ret].
    destruct (summary h); [apply runs_printf | now apply runs_ret].
  - eapply runs_seq; [apply runs_printf | exact IH].
Qed.

Lemma print_module_commands_is_total st module :
  valid_module st module -> runs (print_module_commands module) st (fun _ => True).
Proof.
  intros Hvalid. unfold print_module_commands.
  eapply runs_seq; [apply runs_printf|].
  eapply runs_bind; [now apply module_at_is_total|]. intros md _.
  apply print_module_commands_loop_is_total.
Qed.

Lemma print_lines_is_total st l : runs (print_lines l) st (fun _ => True).
Proof. exists (map Print l), tt. split; [apply print_lines_run | exact I]. Qed.

Lemma show_help_is_total st argc argv :
  shell_wf st ->
  (argc = 2 -> default_module st = (-1)%Z -> arg argv 1 <> None) ->
  runs (show_help argc argv) st (fun r => r = 0%Z).
Proof.
  intros Hwf Harg1. unfold show_help.
  eapply runs_bind; [apply runs_gets|]. intros dm ->.
  destruct ((2 <? argc) || (negb (default_module st =? -1)%Z && (argc =? 2))).
  { apply show_cmd_help_is_total. exact Hwf. }
  destruct ((argc =? 2) || (negb (default_module st =? -1)%Z && (argc =? 1))) eqn:Hmod.
  - destruct (default_module st =? -1)%Z eqn:Hd.
    + cbn [negb andb] in Hmod. rewrite orb_false_r in Hmod.
      apply Nat.eqb_eq in Hmod. apply Z.eqb_eq in Hd.
      destruct (arg argv 1) as [a1|] eqn:Ha1; [|now destruct (Harg1 Hmod Hd)].
      eapply runs_bind; [now apply (runs_of_option (Some a1) a1)|]. intros ? ->.
      eapply runs_bind; [apply get_destination_module_is_total|]. intros module Hm.
      destruct (module =? -1)%Z eqn:Hm1.
      * eapply runs_seq; [apply runs_printf | now apply runs_ret].
      * apply Z.eqb_neq in Hm1. destruct Hm as [Hm|Hm]; [contradiction|].
        eapply runs_seq; [now apply print_module_commands_is_total | now apply runs_ret].
    + apply Z.eqb_neq in Hd. destruct Hwf as [[Hdm|Hdm] _]; [contradiction|].
      eapply runs_seq; [now apply print_module_commands_is_total | now apply runs_ret].
  - eapply runs_seq; [apply runs_printf|].
    eapply runs_seq with (P := fun _ => True).
    + unfold print_modules. eapply runs_bind; [apply runs_gets|]. intros mods _.
      apply print_modules_from_is_total.
    + eapply runs_seq; [apply runs_printf | now apply runs_ret].
Qed.

Lemma get_cb_is_total st argc argv :
  shell_wf st ->
  runs (get_cb argc argv) st
       (fun r => r = Some select_module_fn -> arg argv 0 = Some "select").
Proof.
  intros Hwf. unfold get_cb.
  destruct (arg argv 0) as [a0|] eqn:Ha0.
  2:{ eapply runs_seq; [apply runs_printf|]. apply runs_ret. discriminate. }
  destruct (String.eqb a0 EmptyString).
  { eapply runs_seq; [apply runs_printf|]. apply runs_ret. discriminate. }
  unfold strcmp_eq. destruct (String.eqb a0 "help"); [apply runs_ret; discriminate|].
  destruct (String.eqb a0 "select") eqn:Hs.
  { apply runs_ret. intros _. apply String.eqb_eq in Hs. now subst. }
  eapply runs_bind; [apply runs_gets|]. intros dm ->.
  destruct ((argc =? 1) && (default_module st =? -1)%Z).
  { eapply runs_seq; [apply runs_printf|]. apply runs_ret. discriminate. }
  eapply runs_bind; [apply (get_command_and_module_is_total st argv Hwf)|].
  intros [command module] Hres. cbn [fst snd] in Hres.
  destruct command as [command|]; [|apply runs_ret; discriminate].
  destruct (Hres ltac:(discriminate)) as [Hvalid _].
  destruct (module =? -1)%Z eqn:Hm; [apply runs_ret; discriminate|].
  apply Z.eqb_neq in Hm.
  eapply runs_bind; [apply module_at_is_total; now apply Hvalid|]. intros md _.
  eapply runs_seq; [apply runs_printf|]. apply runs_ret.
  intros Hsel. apply get_cb_loop_user in Hsel as (f & Hf). discriminate.
Qed.

(** ** What a line can change, and which lines complete *)

Lemma bind_inv {A B} (m : M A) (f : A -> M B) s t b s' :
  bind m f s = (t, Some (b, s')) ->
  exists t1 a s1 t2,
    m s = (t1, Some (a, s1)) /\ f a s1 = (t2, Some (b, s')) /\ t = t1 ++ t2.
Proof.
  unfold bind. destruct (m s) as [t1 [[a s1]|]]; [|discriminate].
  destruct (f a s1) as [t2 r] eqn:Hf. intros H. inversion H; subst.
  now exists t1, a, s1, t2.
Qed.

Lemma runs_final {A} (m : M A) st (P : A -> Prop) t a st' :
  runs m st P -> m st = (t, Some (a, st')) -> st' = st.
Proof. intros (t0 & a0 & Hm & _) H. rewrite Hm in H. now inversion H. Qed.

Lemma strncpy_length n : forall dst src d,
  strncpy dst src n = Some d -> List.length d = List.length dst.
Proof.
  induction n as [|n IH]; intros dst src d H; cbn [strncpy] in H.
  - now inversion H.
  - destruct dst as [|c dst]; [discriminate|].
    destruct src as [|x src];
      (destruct (strncpy dst _ n) as [d'|] eqn:Hd; [|discriminate]);
      inversion H; subst; cbn; f_equal; eapply IH; exact Hd.
Qed.

Lemma strcpy_length src : forall dst d,
  strcpy dst src = Some d -> List.length d = List.length dst.
Proof.
  induction src as [|x src IH]; intros dst d H;
    (destruct dst as [|c dst]; [discriminate|]); cbn [strcpy] in H.
  - now inversion H.
  - destruct (strcpy dst src) as [d'|] eqn:Hd; [|discriminate].
    inversion H; subst. cbn. f_equal. now apply IH.
Qed.

Lemma strcat_length dst : forall src d,
  strcat dst src = Some d -> List.length d = List.length dst.
Proof.
  induction dst as [|c dst IH]; intros src d H; [discriminate|].
  cbn [strcat] in H. destruct (is_nul c).
  - now apply strcpy_length in H.
  - destruct (strcat dst src) as [d'|] eqn:Hd; [|discriminate].
    inversion H; subst. cbn. f_equal. now apply (IH src).
Qed.

Lemma same_registry_refl st : same_registry st st.
Proof. now repeat split. Qed.

Lemma set_default_module_frame st name t r st' :
  set_default_module name st = (t, Some (r, st')) ->
  shell_wf st -> shell_wf st' /\ same_registry st st'.
Proof.
  intros H Hwf. unfold set_default_module in H.
  destruct (MODULE_NAME_MAX_LEN <? String.length name).
  { rewrite bind_printf in H. cbn in H. inversion H; subst.
    split; [exact Hwf | apply same_registry_refl]. }
  unfold get_destination_module in H. rewrite bind_gets in H.
  destruct (_ =? -1)%Z eqn:Hfound.
  { rewrite bind_printf in H. cbn in H. inversion H; subst.
    split; [exact Hwf | apply same_registry_refl]. }
  apply Z.eqb_neq in Hfound. rewrite bind_modify, bind_gets in H.
  apply bind_of_option_inv in H as (p1 & Hp1 & H). rewrite bind_modify in H.
  apply bind_of_option_inv in H as (p2 & Hp2 & H). rewrite bind_modify in H.
  unfold ret in H. inversion H; subst. clear H.
  cbn [default_module_prompt set_default_module_var set_default_module_prompt] in *.
  apply strncpy_length in Hp1. apply strcat_length in Hp2.
  split; [|now repeat split].
  destruct Hwf as [_ Hbuf]. unfold shell_wf, num_of_shell_entities.
  cbn [default_module default_module_prompt shell_modules
       set_default_module_var set_default_module_prompt].
  split; [|congruence]. right.
  destruct (get_destination_module_from_spec (shell_modules st) 0 name
              MODULE_NAME_MAX_LEN (Z.le_refl 0)) as [[Hnone _] | (Hrange & _)];
    [congruence | lia].
Qed.

Lemma select_module_frame st argc argv t r st' :
  select_module argc argv st = (t, Some (r, st')) ->
  shell_wf st -> shell_wf st' /\ same_registry st st'.
Proof.
  intros H Hwf. unfold select_module in H.
  apply bind_inv in H as (t1 & u & s1 & t2 & Hm & Hk & _).
  unfold ret in Hk. inversion Hk; subst. clear Hk.
  destruct (argc =? 1).
  - unfold modify in Hm. inversion Hm; subst.
    split; [|now repeat split]. destruct Hwf as [_ Hlen].
    split; [now left | exact Hlen].
  - apply bind_of_option_inv in Hm as (a1 & _ & Hm).
    apply bind_inv in Hm as (t3 & z & s2 & t4 & Hset & Hret & _).
    unfold ret in Hret. inversion Hret; subst.
    exact (set_default_module_frame _ _ _ _ _ Hset Hwf).
Qed.



Lemma shell_process_argv_select st argc argv :
  arg argv 0 = Some "select" ->
  shell_process_argv argc argv st
  = (Call select_module_fn argc argv
       :: fst (bind (select_module argc argv)
                    (fun _ => p <- get_prompt ;; console_printf p) st),
     snd (bind (select_module argc argv)
               (fun _ => p <- get_prompt ;; console_printf p) st)).
Proof.
  intros Ha0. unfold shell_process_argv.
  assert (Hcb : get_cb argc argv st = ([], Some (Some select_module_fn, st))).
  { unfold get_cb. rewrite Ha0. reflexivity. }
  rewrite (bind_some _ _ _ _ _ _ Hcb). cbn [fst snd app]. rewrite !bind_gets.
  cbn [is_select_module negb andb]. rewrite andb_false_r. cbn [andb skipn].
  rewrite Nat.sub_0_r. unfold invoke. rewrite bind_assoc, bind_mark_call.
  assert (Heq : bind (select_module argc argv)
                  (fun r => (if (r <? 0)%Z then show_cmd_help argv;;; ret tt else ret tt);;;
                            p <- get_prompt;; console_printf p) st
                = bind (select_module argc argv)
                    (fun _ => p <- get_prompt;; console_printf p) st).
  { destruct (select_module argc argv st) as [t [[r s1]|]] eqn:Hsel.
    - rewrite !(bind_some _ _ _ _ _ _ Hsel).
      rewrite (select_module_returns_zero argc argv st r s1) by (now rewrite Hsel).
      cbn [Z.ltb Z.compare]. now rewrite bind_ret.
    - now rewrite !(bind_none _ _ _ _ Hsel). }
  now rewrite Heq.
Qed.

Lemma shell_process_argv_is_total st argc argv a0 :
  shell_wf st ->
  arg argv 0 = Some a0 ->
  a0 <> "select" ->
  (argc = 2 -> arg argv 1 <> None) ->
  runs (shell_process_argv argc argv) st (fun _ => True).
Proof.
  intros Hwf Ha0 Hns Harg1. unfold shell_process_argv.
  eapply runs_bind; [apply (get_cb_is_total st argc argv Hwf)|]. intros cb Hcb.
  eapply runs_bind; [apply runs_gets|]. intros h ->.
  assert (Hinvoke : forall f, f <> select_module_fn ->
            runs (dm <- gets default_module;;
                  (let argc_offset :=
                     if (dm =? -1)%Z && negb (is_select_module f) && negb (is_show_help f)
                     then 1 else 0 in
                   r <- invoke f (argc - argc_offset) (skipn argc_offset argv);;
                   (if (r <? 0)%Z then show_cmd_help argv;;; ret tt else ret tt);;;
                   p <- get_prompt;; console_printf p)) st (fun _ => True)).
  { intros f Hf. eapply runs_bind; [apply runs_gets|]. intros dm ->. cbv zeta.
    eapply runs_bind with (P := fun _ => True).
    - unfold invoke. eapply runs_seq; [apply runs_mark_call|].
      destruct f as [| |g]; [|congruence|].
      + cbn [is_select_module is_show_help negb andb]. rewrite andb_false_r.
        cbn [skipn]. rewrite Nat.sub_0_r.
        eapply runs_weaken; [apply show_help_is_total; [exact Hwf | now intros H _; auto]|].
        trivial.
      + eapply runs_seq; [apply print_lines_is_total | now apply runs_ret].
    - intros r _. eapply runs_seq with (P := fun _ => True).
      + destruct (r <? 0)%Z; [|now apply runs_ret].
        eapply runs_seq; [now apply show_cmd_help_is_total | now apply runs_ret].
      + eapply runs_bind; [apply get_prompt_is_total|]. intros p _. apply runs_printf. }
  destruct cb as [f|].
  - apply Hinvoke. intros ->. specialize (Hcb eq_refl). congruence.
  - destruct (app_cmd_handler st) as [g|]; cbn [option_map].
    + apply Hinvoke. discriminate.
    + rewrite Ha0. eapply runs_bind; [now apply (runs_of_option (Some a0) a0)|].
      intros ? ->. eapply runs_seq; [apply runs_printf|].
      eapply runs_seq; [apply runs_printf|].
      eapply runs_bind; [apply get_prompt_is_total|]. intros p _. apply runs_printf.
Qed.

Lemma argv_view_args str argv0 size st tr argc buf argv st' :
  line2argv str argv0 size st = (tr, Some ((argc, buf, argv), st')) ->
  forall i, i < argc ->
    exists s, arg (argv_view buf argv argc) i = Some s
              /\ is_token (list_ascii_of_string s) = true.
Proof.
  intros H i Hi.
  destruct (line2argv_args_good _ _ _ _ _ _ _ _ _ H i Hi) as (p & _ & _ & Hview & Htok).
  exists (cstr_at buf p). split; [|exact Htok].
  unfold arg. now apply nth_error_nth.
Qed.

Lemma prompt_is_reprinted st :
  runs (p <- get_prompt ;; console_printf p) st (fun _ => True).
Proof. eapply runs_bind; [apply get_prompt_is_total|]. intros p _. apply runs_printf. Qed.

(** X10.  Whatever line is processed, when [shell_process_command]
    returns, the registry, the base prompt and the two application
    handlers are as they were, and [default_module] is still -1 or the
    index of a registered module.  Only a line whose first argument is
    "select" can change anything at all. *)
Theorem shell_process_command_keeps_registry :
  forall (MAXARG : nat) (line : list ascii) (st st' : shell) (tr : list event),
    shell_wf st ->
    shell_process_command MAXARG line st = (tr, Some (tt, st')) ->
    shell_wf st'
    /\ same_registry st st'
    /\ (forall tr0 argc buf argv,
          line2argv line (repeat Indet (MAXARG + 1)) (MAXARG + 1) st
            = (tr0, Some ((argc, buf, argv), st)) ->
          argc = 0 \/ arg (argv_view buf argv argc) 0 <> Some "select" ->
          st' = st).
Proof.
  intros MAXARG line st st' tr Hwf H. unfold shell_process_command in H.
  apply bind_inv in H as (t1 & [[argc buf] argv] & s1 & t2 & Htok & H & _).
  assert (Hs1 : s1 = st) by (eapply line2argv_readonly; rewrite Htok; reflexivity). subst s1.
  assert (Hsame : st' = st -> shell_wf st' /\ same_registry st st'
            /\ (forall tr0 argc0 buf0 argv0,
                  line2argv line (repeat Indet (MAXARG + 1)) (MAXARG + 1) st
                    = (tr0, Some ((argc0, buf0, argv0), st)) ->
                  argc0 = 0 \/ arg (argv_view buf0 argv0 argc0) 0 <> Some "select" ->
                  st' = st)).
  { intros ->. split; [exact Hwf|]. split; [apply same_registry_refl | reflexivity]. }
  destruct (argc =? 0) eqn:Hargc.
  { apply Hsame. exact (runs_final _ _ _ _ _ _ (prompt_is_reprinted st) H). }
  apply Nat.eqb_neq in Hargc.
  destruct (argv_view_args _ _ _ _ _ _ _ _ _ Htok 0 ltac:(lia)) as (s0 & Ha0 & _).
  destruct (string_dec s0 "select") as [->|Hns].
  - rewrite (shell_process_argv_select st argc _ Ha0) in H.
    destruct (select_module argc (argv_view buf argv argc) st) as [ts [[r s1]|]] eqn:Hsel.
    + rewrite (bind_some _ _ _ _ _ _ Hsel) in H.
      assert (Hfin : st' = s1).
      { destruct (prompt_is_reprinted s1) as (tp & u & Hp & _).
        rewrite Hp in H. cbn [snd] in H. now inversion H. }
      subst s1. destruct (select_module_frame _ _ _ _ _ _ Hsel Hwf) as [Hwf' Hreg].
      split; [exact Hwf'|]. split; [exact Hreg|].
      intros tr0 argc0 buf0 argv0 Htok0 Hcase. rewrite Htok in Htok0.
      inversion Htok0; subst. destruct Hcase as [Hz | Hne]; [lia | congruence].
    + rewrite (bind_none _ _ _ _ Hsel) in H. discriminate.
  - apply Hsame.
    refine (runs_final _ _ _ _ _ _ (shell_process_argv_is_total st argc _ s0 Hwf Ha0 Hns _) H).
    intros Hargc2.
    destruct (argv_view_args _ _ _ _ _ _ _ _ _ Htok 1 ltac:(lia)) as (s1 & Ha1 & _).
    congruence.
Qed.

Lemma shell_process_command_keeps_registry_witness :
  shell_wf st_ble_selected /\ same_registry st_ble st_ble_selected.
Proof.
  assert (Hwf : shell_wf st_ble).
  { split; [now left | reflexivity]. }
  destruct (shell_process_command_keeps_registry 12 (L "select ble") st_ble
              st_ble_selected _ Hwf eq_refl) as (Hwf' & Hreg & _).
  now split.
Defined.



Lemma ends_with_prompt {A} (m : M A) st t st' :
  bind m (fun _ => p <- get_prompt ;; console_printf p) st = (t, Some (tt, st')) ->
  exists t0 p, t = t0 ++ [Print p] /\ get_prompt st' = ([], Some (p, st')).
Proof.
  intros H. apply bind_inv in H as (t1 & a & s1 & t2 & _ & H & ->).
  destruct (get_prompt_runs s1) as (p & Hp).
  rewrite (bind_some _ _ _ _ _ _ Hp) in H. cbn in H. inversion H; subst.
  now exists t1, p.
Qed.

(** X12.  Whenever [shell_process_command] returns, the last thing it
    printed is the prompt, as [get_prompt] gives it in the state the
    command left behind. *)
Theorem shell_process_command_ends_with_prompt :
  forall (MAXARG : nat) (line : list ascii) (st st' : shell) (tr : list event),
    shell_process_command MAXARG line st = (tr, Some (tt, st')) ->
    exists tr0 p, tr = tr0 ++ [Print p] /\ get_prompt st' = ([], Some (p, st')).
Proof.
  intros MAXARG line st st' tr H.
  assert (Hpre : forall (t1 t2 : list event) p,
            (exists t0 q, t2 = t0 ++ [Print q] /\ p q) ->
            exists t0 q, t1 ++ t2 = t0 ++ [Print q] /\ p q).
  { intros t1 t2 p (t0 & q & -> & Hq). exists (t1 ++ t0), q.
    now rewrite app_assoc. }
  unfold shell_process_command in H.
  apply bind_inv in H as (t1 & [[argc buf] argv] & s1 & t2 & _ & H & ->).
  apply (Hpre t1 t2 (fun q => get_prompt st' = ([], Some (q, st')))).
  destruct (argc =? 0).
  { apply (ends_with_prompt (ret tt) s1). now rewrite bind_ret. }
  unfold shell_process_argv in H.
  apply bind_inv in H as (t3 & cb & s2 & t4 & _ & H & ->).
  apply (Hpre t3 t4 (fun q => get_prompt st' = ([], Some (q, st')))).
  rewrite bind_gets in H.
  destruct (match cb with Some f => Some f | None => option_map user_fn (app_cmd_handler s2) end).
  - rewrite bind_gets in H.
    apply bind_inv in H as (t5 & r & s3 & t6 & _ & H & ->).
    apply (Hpre t5 t6 (fun q => get_prompt st' = ([], Some (q, st')))).
    exact (ends_with_prompt _ _ _ _ H).
  - apply bind_inv in H as (t5 & a0 & s3 & t6 & _ & H & ->).
    apply (Hpre t5 t6 (fun q => get_prompt st' = ([], Some (q, st')))).
    apply bind_inv in H as (t7 & [] & s4 & t8 & _ & H & ->).
    apply (Hpre t7 t8 (fun q => get_prompt st' = ([], Some (q, st')))).
    exact (ends_with_prompt _ _ _ _ H).
Qed.

Lemma shell_process_command_ends_with_prompt_witness :
  exists tr0 p, fst (shell_process_command 12 (L "select ble") st_ble) = tr0 ++ [Print p]
                /\ get_prompt st_ble_selected = ([], Some (p, st_ble_selected)).
Proof.
  exact (shell_process_command_ends_with_prompt 12 (L "select ble") st_ble
           st_ble_selected _ eq_refl).
Defined.

(** ** The help texts *)

Lemma print_modules_from_run mods st :
  print_modules_from mods st
  = (map (fun m => Print (module_name m ++ nl)) mods, Some (tt, st)).
Proof.
  induction mods as [|m rest IH]; cbn [print_modules_from map]; [reflexivity|].
  rewrite bind_printf, IH. reflexivity.
Qed.

(** X13.  With no default module, "help" alone prints the heading, the
    name of every registered module, one per line in the order of
    registration, and the hint about "select"; it returns 0 and changes
    nothing. *)
Theorem show_help_lists_every_module :
  forall (st : shell) (argc : nat) (argv : list (option string)),
    default_module st = (-1)%Z ->
    argc < 2 ->
    show_help argc argv st
    = (Print ("Available modules:" ++ nl)
         :: map (fun m => Print (module_name m ++ nl)) (shell_modules st)
         ++ [Print modules_hint],
       Some (0%Z, st)).
Proof.
  intros st argc argv Hdm Hargc. unfold show_help. rewrite bind_gets, Hdm.
  change (-1 =? -1)%Z with true. cbn [negb andb orb].
  replace (2 <? argc) with false by (symmetry; apply Nat.ltb_ge; lia).
  replace (argc =? 2) with false by (symmetry; apply Nat.eqb_neq; lia).
  cbn [orb]. rewrite bind_printf. unfold print_modules.
  rewrite bind_assoc, bind_gets.
  rewrite (bind_some _ _ _ _ _ _ (print_modules_from_run (shell_modules st) st)).
  cbn [fst snd]. rewrite bind_printf. reflexivity.
Qed.

Lemma show_help_lists_every_module_witness :
  show_help 1 [Some "help"; None] st_two_modules
  = ([Print ("Available modules:" ++ nl); Print ("net" ++ nl);
      Print ("aaaaaaaaaaaaaaaaaaaa-long-name" ++ nl); Print modules_hint],
     Some (0%Z, st_two_modules)).
Proof.
  exact (show_help_lists_every_module st_two_modules 1 [Some "help"; None]
           eq_refl ltac:(lia)).
Defined.

Lemma string_append_assoc (a b c : string) : ((a ++ b) ++ c = a ++ (b ++ c))%string.
Proof. induction a as [|x a IH]; cbn; [reflexivity | now rewrite IH]. Qed.

Lemma printed_app (t1 t2 : list event) : printed (t1 ++ t2) = printed t1 ++ printed t2.
Proof.
  induction t1 as [|[s|f n a] t1 IH]; cbn; [reflexivity | now rewrite IH | exact IH].
Qed.

Lemma console_text_app (t1 t2 : list event) :
  console_text (t1 ++ t2) = (console_text t1 ++ console_text t2)%string.
Proof.
  unfold console_text. rewrite printed_app.
  induction (printed t1) as [|s l IH]; cbn; [reflexivity|].
  now rewrite IH, string_append_assoc.
Qed.

Lemma print_module_commands_loop_text cmds st :
  exists t,
    print_module_commands_loop cmds st = (t, Some (tt, st))
    /\ calls t = []
    /\ console_text t = fold_right String.append EmptyString (map command_line cmds).
Proof.
  induction cmds as [|c rest (t & IH & Hcalls & Htext)]; cbn [print_module_commands_loop].
  - now exists [].
  - rewrite bind_printf.
    assert (Hsum : exists ts,
              (match help c with
               | Some h => match summary h with
                           | Some sm => console_printf sm
                           | None => ret tt
                           end
               | None => ret tt
               end) st = (ts, Some (tt, st))
              /\ calls ts = []
              /\ console_text ts
                 = match help c with
                   | Some h => match summary h with Some sm => sm | None => EmptyString end
                   | None => EmptyString
                   end).
    { destruct (help c) as [h|]; [destruct (summary h) as [sm|]|].
      - exists [Print sm]. repeat split. unfold console_text. cbn.
        induction sm as [|x sm IHs]; cbn; [reflexivity | now rewrite IHs].
      - now exists [].
      - now exists []. }
    destruct Hsum as (ts & Hs & Hsc & Hst).
    rewrite (bind_some _ _ _ _ _ _ Hs). cbn [fst snd]. rewrite bind_printf, IH.
    cbn [fst snd]. eexists. split; [reflexivity|]. split.
    + cbn [calls]. rewrite calls_app. cbn [calls]. now rewrite Hsc, Hcalls.
    + change (Print (fmt_left 30 (sc_cmd c)) :: ts ++ Print nl :: t)
        with ([Print (fmt_left 30 (sc_cmd c))] ++ ts ++ [Print nl] ++ t).
      rewrite !console_text_app, Hst, Htext. cbn [map fold_right]. unfold command_line.
      unfold console_text. cbn [printed fold_right].
      assert (Hr : forall s : string, (s ++ EmptyString)%string = s).
      { intros s. induction s as [|x s IHs]; cbn; [reflexivity | now rewrite IHs]. }
      rewrite !Hr, !string_append_assoc. reflexivity.
Qed.

Lemma print_module_commands_text st module m :
  (0 <= module)%Z ->
  nth_error (shell_modules st) (Z.to_nat module) = Some m ->
  exists t,
    print_module_commands module st = (t, Some (tt, st))
    /\ calls t = []
    /\ console_text t
       = ("help" ++ nl ++ fold_right String.append EmptyString
                                     (map command_line (commands m)))%string.
Proof.
  intros Hpos Hnth. unfold print_module_commands. rewrite bind_printf.
  rewrite (bind_some _ _ _ _ _ _ (module_at_run st module m Hpos Hnth)). cbn [fst snd app].
  destruct (print_module_commands_loop_text (commands m) st) as (t & Hrun & Hcalls & Htext).
  rewrite Hrun. cbn [fst snd]. eexists. split; [reflexivity|]. split; [exact Hcalls|].
  change (Print ("help" ++ nl) :: t) with ([Print ("help" ++ nl)] ++ t).
  rewrite console_text_app, Htext. reflexivity.
Qed.

(** X14.  The listing of one module.  With no default module, "help
    <name>" looks the name up by its first 20 characters: when no module
    matches it prints "Illegal module <name>", otherwise it lists the
    first module that matches.  With a default module, "help" alone lists
    that module.  The listing is the line "help" and then, for every
    command of the table in order, its name padded to 30 columns and its
    summary if it has one; the usage text is not shown.  In every case
    the result is 0, no callback runs and nothing changes. *)
Theorem show_help_lists_commands_of_module :
  forall (st : shell) (argv : list (option string)),
    (forall name,
        default_module st = (-1)%Z ->
        arg argv 1 = Some name ->
        let i := get_destination_module_from (shell_modules st) 0 name MODULE_NAME_MAX_LEN in
        (i = (-1)%Z ->
         show_help 2 argv st = ([Print ("Illegal module " ++ name ++ nl)], Some (0%Z, st)))
        /\ (i <> (-1)%Z ->
            exists m t,
              nth_error (shell_modules st) (Z.to_nat i) = Some m
              /\ name_matches name (module_name m) MODULE_NAME_MAX_LEN
              /\ show_help 2 argv st = (t, Some (0%Z, st))
              /\ calls t = []
              /\ console_text t
                 = ("help" ++ nl ++ fold_right String.append EmptyString
                                               (map command_line (commands m)))%string))
    /\ (forall m,
          (0 <= default_module st)%Z ->
          nth_error (shell_modules st) (Z.to_nat (default_module st)) = Some m ->
          exists t,
            show_help 1 argv st = (t, Some (0%Z, st))
            /\ calls t = []
            /\ console_text t
               = ("help" ++ nl ++ fold_right String.append EmptyString
                                             (map command_line (commands m)))%string).
Proof.
  intros st argv. split.
  - intros name Hdm Ha1 i.
    assert (Hhead : show_help 2 argv st
              = (if (i =? -1)%Z
                 then console_printf ("Illegal module " ++ name ++ nl) ;;; ret 0%Z
                 else print_module_commands i ;;; ret 0%Z) st).
    { unfold show_help. rewrite bind_gets, Hdm. change (-1 =? -1)%Z with true.
      cbn [negb andb orb Nat.ltb Nat.leb Nat.eqb]. rewrite Ha1. cbn [of_option].
      rewrite bind_ret. unfold get_destination_module. now rewrite bind_gets. }
    split.
    + intros Hi. rewrite Hhead, Hi. change (-1 =? -1)%Z with true. cbv iota.
      now rewrite bind_printf.
    + intros Hi.
      destruct (get_destination_module_from_found (shell_modules st) 0 name
                  MODULE_NAME_MAX_LEN i eq_refl Hi (Z.le_refl 0)) as (Hpos & m & Hnth & Hcmp).
      rewrite Z.sub_0_r in Hnth.
      destruct (print_module_commands_text st i m Hpos Hnth) as (t & Hrun & Hcalls & Htext).
      exists m, t. split; [exact Hnth|]. split; [now apply strncmp_eq_firstn|].
      split; [|now split].
      rewrite Hhead. apply Z.eqb_neq in Hi. rewrite Hi.
      rewrite (bind_some _ _ _ _ _ _ Hrun). cbn. now rewrite app_nil_r.
  - intros m Hpos Hnth.
    destruct (print_module_commands_text st _ m Hpos Hnth) as (t & Hrun & Hcalls & Htext).
    exists t. split; [|now split].
    unfold show_help. rewrite bind_gets.
    assert (Hne : (default_module st =? -1)%Z = false) by (apply Z.eqb_neq; lia).
    rewrite Hne. cbn [negb andb orb Nat.ltb Nat.leb Nat.eqb].
    rewrite (bind_some _ _ _ _ _ _ Hrun). cbn. now rewrite app_nil_r.
Qed.

Lemma show_help_lists_commands_of_module_witness :
  exists t,
    show_help 2 [Some "help"; Some "ble"; None] st_ble = (t, Some (0%Z, st_ble))
    /\ console_text t
       = ("help" ++ nl
          ++ "scan                          scan for peers" ++ nl
          ++ "conn                          connect" ++ nl)%string.
Proof.
  destruct (show_help_lists_commands_of_module st_ble [Some "help"; Some "ble"; None])
    as [Hnamed _].
  destruct (Hnamed "ble" eq_refl eq_refl) as [_ Hfound].
  destruct (Hfound ltac:(vm_compute; discriminate)) as (m & t & Hnth & _ & Hrun & _ & Htext).
  exists t. split; [exact Hrun|]. rewrite Htext.
  vm_compute in Hnth. inversion Hnth. reflexivity.
Defined.

(** X15.  "help" for a command the module does not have.  With no
    default module, "help <module> <command>" finds the module by the
    first 20 characters of its name and then reports the module name, not
    the command, as unrecognized; with a default module, "help <command>"
    reports the command.  Either way the result is 0 and nothing
    changes. *)
Theorem show_help_unknown_command_names_first_argument :
  forall (st : shell) (argc : nat) (a : option string) (rest : list (option string))
         (m : shell_module) (c : string),
    find_cmd (commands m) c = None ->
    (forall mname,
        default_module st = (-1)%Z ->
        2 < argc ->
        c <> EmptyString ->
        let i := get_destination_module_from (shell_modules st) 0 mname MODULE_NAME_MAX_LEN in
        i <> (-1)%Z ->
        nth_error (shell_modules st) (Z.to_nat i) = Some m ->
        show_help argc (a :: Some mname :: Some c :: rest) st
        = ([Print ("Unrecognized command: " ++ mname ++ nl)], Some (0%Z, st)))
    /\ ((0 <= default_module st)%Z ->
        2 <= argc ->
        nth_error (shell_modules st) (Z.to_nat (default_module st)) = Some m ->
        show_help argc (a :: Some c :: rest) st
        = ([Print ("Unrecognized command: " ++ c ++ nl)], Some (0%Z, st))).
Proof.
  intros st argc a rest m c Hfind. split.
  - intros mname Hdm Hargc Hc i Hi Hnth.
    unfold show_help. rewrite bind_gets, Hdm.
    replace (2 <? argc) with true by (symmetry; apply Nat.ltb_lt; lia).
    cbn [orb skipn]. unfold show_cmd_help, get_command_and_module.
    cbn [arg nth]. rewrite bind_assoc, bind_gets, Hdm. change (-1 =? -1)%Z with true.
    cbv iota. apply String.eqb_neq in Hc. rewrite Hc.
    unfold get_destination_module. rewrite bind_assoc, bind_gets.
    fold i. apply Z.eqb_neq in Hi. rewrite Hi. rewrite bind_ret. rewrite Hi.
    apply Z.eqb_neq in Hi.
    destruct (get_destination_module_from_found (shell_modules st) 0 mname
                MODULE_NAME_MAX_LEN i eq_refl Hi (Z.le_refl 0)) as (Hpos & _).
    rewrite (bind_some _ _ _ _ _ _ (module_at_run st i m Hpos Hnth)). cbn [fst snd app].
    cbn [of_option]. rewrite bind_ret, show_cmd_help_loop_find, Hfind. reflexivity.
  - intros Hpos Hargc Hnth.
    assert (Hne : (default_module st =? -1)%Z = false) by (apply Z.eqb_neq; lia).
    unfold show_help. rewrite bind_gets, Hne. cbn [negb andb].
    assert (Hbranch : (2 <? argc) || (argc =? 2) = true).
    { destruct (Nat.eq_dec argc 2) as [->|Hn]; [reflexivity|].
      replace (2 <? argc) with true by (symmetry; apply Nat.ltb_lt; lia). reflexivity. }
    rewrite Hbranch. cbn [skipn]. unfold show_cmd_help, get_command_and_module.
    cbn [arg nth]. rewrite bind_assoc, bind_gets, Hne, bind_ret, Hne.
    rewrite (bind_some _ _ _ _ _ _ (module_at_run st _ m Hpos Hnth)). cbn [fst snd app].
    cbn [of_option]. rewrite bind_ret, show_cmd_help_loop_find, Hfind. reflexivity.
Qed.

Lemma show_help_unknown_command_names_first_argument_witness :
  show_help 3 [Some "help"; Some "ble"; Some "advertise"; None] st_ble
  = ([Print ("Unrecognized command: ble" ++ nl)], Some (0%Z, st_ble))
  /\ show_help 2 [Some "help"; Some "advertise"; None] st_ble_selected
     = ([Print ("Unrecognized command: advertise" ++ nl)], Some (0%Z, st_ble_selected)).
Proof.
  split.
  - destruct (show_help_unknown_command_names_first_argument st_ble 3 (Some "help")
                [None] ble_module "advertise" eq_refl) as [Hnamed _].
    exact (Hnamed "ble" eq_refl ltac:(lia) ltac:(discriminate)
             ltac:(vm_compute; discriminate) eq_refl).
  - destruct (show_help_unknown_command_names_first_argument st_ble_selected 2 (Some "help")
                [None] ble_module "advertise" eq_refl) as [_ Hdefault].
    exact (Hdefault ltac:(vm_compute; discriminate) ltac:(lia) eq_refl).
Defined.

(** ** Lines that run nothing *)

(** X16.  A line with no argument on it, and a line of more arguments
    than SHELL_CMD_ARGC_MAX, run no command: [shell_process_command]
    prints the prompt, after the notice of [line2argv] in the second
    case, and leaves every variable of the shell as it was, whatever the
    tokens are, "select" included. *)
Theorem shell_process_command_skips_empty_and_long_lines :
  forall (MAXARG lead : nat) (toks : list (list ascii * nat)) (st : shell),
    forallb is_token (map fst toks) = true ->
    exists p,
      get_prompt st = ([], Some (p, st))
      /\ (toks = [] ->
          shell_process_command MAXARG (make_line lead toks) st
          = ([Print p], Some (tt, st)))
      /\ (1 <= MAXARG < List.length toks ->
          shell_process_command MAXARG (make_line lead toks) st
          = ([Print (too_many_msg (MAXARG + 1)); Print p], Some (tt, st))).
Proof.
  intros MAXARG lead toks st Htoks.
  destruct (get_prompt_runs st) as (p & Hp). exists p. split; [exact Hp|]. split.
  - intros ->. unfold shell_process_command.
    rewrite (bind_some _ _ _ _ _ _ (line2argv_blank lead _ _ st)). cbn [fst snd Nat.eqb app].
    rewrite (bind_some _ _ _ _ _ _ Hp). reflexivity.
  - intros Hmany.
    destruct (line2argv_too_many MAXARG lead toks (repeat Indet (MAXARG + 1)) st
                Htoks Hmany (repeat_length _ _)) as (buf & argv & Hrun & _).
    unfold shell_process_command.
    rewrite (bind_some _ _ _ _ _ _ Hrun). cbn [fst snd Nat.eqb app].
    rewrite (bind_some _ _ _ _ _ _ Hp). reflexivity.
Qed.

Lemma shell_process_command_skips_empty_and_long_lines_witness :
  shell_process_command 2 (L "select ble now") st_ble
  = ([Print ("Too many parameters (max 2)" ++ nl); Print SHELL_PROMPT], Some (tt, st_ble)).
Proof.
  destruct (shell_process_command_skips_empty_and_long_lines 2 0
              [(L "select", 0); (L "ble", 0); (L "now", 0)] st_ble eq_refl)
    as (p & Hp & _ & Hlong).
  vm_compute in Hp. inversion Hp; subst p.
  exact (Hlong ltac:(cbn; lia)).
Defined.

(** ** A first argument that names no module *)

Lemma get_command_and_module_unknown_module st m c rest :
  default_module st = (-1)%Z ->
  c <> EmptyString ->
  get_destination_module_from (shell_modules st) 0 m MODULE_NAME_MAX_LEN = (-1)%Z ->
  get_command_and_module (Some m :: Some c :: rest) st
  = ([Print ("Illegal module " ++ m ++ nl)], Some ((None, (-1)%Z), st)).
Proof.
  intros Hdm Hc Hnone. unfold get_command_and_module. cbn [arg nth].
  rewrite bind_gets, Hdm. change (-1 =? -1)%Z with true. cbv iota.
  apply String.eqb_neq in Hc. rewrite Hc.
  unfold get_destination_module. rewrite bind_gets, Hnone.
  change (-1 =? -1)%Z with true. cbv iota. now rewrite bind_printf.
Qed.

Lemma get_cb_unknown_module st argc m c rest :
  default_module st = (-1)%Z ->
  argc <> 1 ->
  m <> EmptyString -> m <> "help" -> m <> "select" ->
  c <> EmptyString ->
  get_destination_module_from (shell_modules st) 0 m MODULE_NAME_MAX_LEN = (-1)%Z ->
  get_cb argc (Some m :: Some c :: rest) st
  = ([Print ("Illegal module " ++ m ++ nl)], Some (None, st)).
Proof.
  intros Hdm Hargc Hm Hhelp Hsel Hc Hnone. unfold get_cb, strcmp_eq. cbn [arg nth].
  apply String.eqb_neq in Hm, Hhelp, Hsel. rewrite Hm, Hhelp, Hsel.
  rewrite bind_gets. apply Nat.eqb_neq in Hargc. rewrite Hargc. cbn [andb].
  rewrite (bind_some _ _ _ _ _ _
             (get_command_and_module_unknown_module st m c rest Hdm Hc Hnone)).
  reflexivity.
Qed.

(** X17.  With no default module, a line of two arguments or more whose
    first argument matches no module on its first 20 characters (and is
    not "help" or "select") makes [get_cb] print "Illegal module".
    Without an application handler the line is then reported as an
    unrecognized command and nothing is called.  With one, the handler is
    called once, without the first argument; when it returns a negative
    value the "Illegal module" line is printed a second time, by
    [show_cmd_help].  The prompt comes last and nothing changes. *)
Theorem unknown_module_is_reported_or_handed_over :
  forall (MAXARG : nat) (line : list ascii) (st : shell)
         (argc : nat) (buf : list ascii) (argv : list cell)
         (m c : string) (rest : list (option string)),
    line2argv line (repeat Indet (MAXARG + 1)) (MAXARG + 1) st
      = ([], Some ((argc, buf, argv), st)) ->
    2 <= argc ->
    argv_view buf argv argc = Some m :: Some c :: rest ->
    m <> EmptyString -> m <> "help" -> m <> "select" ->
    c <> EmptyString ->
    default_module st = (-1)%Z ->
    get_destination_module_from (shell_modules st) 0 m MODULE_NAME_MAX_LEN = (-1)%Z ->
    exists p,
      get_prompt st = ([], Some (p, st))
      /\ (app_cmd_handler st = None ->
          shell_process_command MAXARG line st
          = ([Print ("Illegal module " ++ m ++ nl);
              Print ("Unrecognized command: " ++ m ++ nl);
              Print ("Type 'help' for list of available commands" ++ nl);
              Print p],
             Some (tt, st)))
      /\ (forall h, app_cmd_handler st = Some h ->
          let r := h (argc - 1) (Some c :: rest) in
          shell_process_command MAXARG line st
          = (Print ("Illegal module " ++ m ++ nl)
               :: Call (user_fn h) (argc - 1) (Some c :: rest)
               :: map Print (snd r)
               ++ (if (fst r <? 0)%Z then [Print ("Illegal module " ++ m ++ nl)] else [])
               ++ [Print p],
             Some (tt, st))).
Proof.
  intros MAXARG line st argc buf argv m c rest Htok Hargc Hview Hm Hhelp Hsel Hc Hdm Hnone.
  destruct (get_prompt_runs st) as (p & Hp). exists p. split; [exact Hp|].
  assert (Hcb := get_cb_unknown_module st argc m c rest Hdm ltac:(lia) Hm Hhelp Hsel Hc Hnone).
  rewrite (shell_process_command_tokenized MAXARG line st [] argc buf argv Htok ltac:(lia)).
  rewrite Hview. cbn [app]. unfold shell_process_argv.
  rewrite (bind_some _ _ _ _ _ _ Hcb). cbn [fst snd]. rewrite bind_gets. split.
  - intros Hh. rewrite Hh. cbn [option_map arg nth of_option].
    rewrite bind_ret, !bind_printf, (bind_some _ _ _ _ _ _ Hp). reflexivity.
  - intros h Hh. rewrite Hh. cbn [option_map].
    rewrite bind_gets, Hdm. change (-1 =? -1)%Z with true.
    cbn [andb negb is_select_module is_show_help skipn].
    unfold invoke. rewrite bind_assoc, bind_mark_call, bind_assoc.
    rewrite (bind_some _ _ _ _ _ _ (print_lines_run _ _)). cbn [fst snd].
    rewrite bind_ret. set (r := h (argc - 1) (Some c :: rest)).
    destruct (fst r <? 0)%Z.
    + rewrite bind_assoc.
      assert (Hhelp' : show_cmd_help (Some m :: Some c :: rest) st
                       = ([Print ("Illegal module " ++ m ++ nl)], Some (0%Z, st))).
      { unfold show_cmd_help.
        now rewrite (bind_some _ _ _ _ _ _
                       (get_command_and_module_unknown_module st m c rest Hdm Hc Hnone)). }
      rewrite (bind_some _ _ _ _ _ _ Hhelp'). cbn [fst snd].
      rewrite bind_ret, (bind_some _ _ _ _ _ _ Hp). reflexivity.
    + rewrite bind_ret, (bind_some _ _ _ _ _ _ Hp). reflexivity.
Qed.

Lemma unknown_module_is_reported_or_handed_over_witness :
  shell_process_command 12 (L "wifi scan") st_ble
  = ([Print ("Illegal module wifi" ++ nl);
      Print ("Unrecognized command: wifi" ++ nl);
      Print ("Type 'help' for list of available commands" ++ nl);
      Print SHELL_PROMPT],
     Some (tt, st_ble))
  /\ shell_process_command 12 (L "wifi scan")
       (set_app_cmd_handler (Some cb_usage_error) st_ble)
     = ([Print ("Illegal module wifi" ++ nl);
         Call (user_fn cb_usage_error) 1 [Some "scan"; None];
         Print ("Illegal module wifi" ++ nl);
         Print SHELL_PROMPT],
        Some (tt, set_app_cmd_handler (Some cb_usage_error) st_ble)).
Proof.
  split.
  - destruct (unknown_module_is_reported_or_handed_over 12 (L "wifi scan") st_ble
                2 _ _ "wifi" "scan" [None] eq_refl ltac:(lia) eq_refl
                ltac:(discriminate) ltac:(discriminate) ltac:(discriminate)
                ltac:(discriminate) eq_refl eq_refl) as (p & Hp & Hnone & _).
    vm_compute in Hp. inversion Hp; subst p. exact (Hnone eq_refl).
  - destruct (unknown_module_is_reported_or_handed_over 12 (L "wifi scan")
                (set_app_cmd_handler (Some cb_usage_error) st_ble)
                2 _ _ "wifi" "scan" [None] eq_refl ltac:(lia) eq_refl
                ltac:(discriminate) ltac:(discriminate) ltac:(discriminate)
                ltac:(discriminate) eq_refl eq_refl) as (p & Hp & _ & Hsome).
    vm_compute in Hp. inversion Hp; subst p. exact (Hsome cb_usage_error eq_refl).
Defined.

(** ** Start-up: the default module, and what every entry point keeps *)

(** X18.  [shell_register_default_module] prints a new line and the new
    prompt "name> " when the selection succeeds, which it does for a
    matching name of fewer than 20 characters; when [set_default_module]
    refuses the name, only its diagnostic is printed and nothing
    changes. *)
Theorem shell_register_default_module_announces_prompt :
  forall (st : shell) (name : string),
    let i := get_destination_module_from (shell_modules st) 0 name MODULE_NAME_MAX_LEN in
    (MODULE_NAME_MAX_LEN < String.length name \/ i = (-1)%Z ->
     exists msg,
       shell_register_default_module name st = ([Print msg], Some (tt, st))
       /\ (msg = too_long_msg name \/ msg = illegal_default_msg name))
    /\ (String.length name < MODULE_NAME_MAX_LEN ->
        nul_free name = true ->
        List.length (default_module_prompt st) = PROMPT_MAX_LEN ->
        i <> (-1)%Z ->
        exists st',
          shell_register_default_module name st
            = ([Print nl; Print (name ++ "> ")], Some (tt, st'))
          /\ default_module st' = i
          /\ same_registry st st').
Proof.
  intros st name i. split.
  - intros Hcause.
    assert (Hfail : exists msg, select_failure st name = Some msg
                      /\ (msg = too_long_msg name \/ msg = illegal_default_msg name)).
    { unfold select_failure. fold i.
      destruct (MODULE_NAME_MAX_LEN <? String.length name) eqn:Hlong.
      - eexists. split; [reflexivity | now left].
      - apply Nat.ltb_ge in Hlong. destruct Hcause as [Hl | ->]; [lia|].
        change (-1 =? -1)%Z with true. eexists. split; [reflexivity | now right]. }
    destruct Hfail as (msg & Hfail & Hmsg). exists msg. split; [|exact Hmsg].
    unfold shell_register_default_module.
    rewrite (bind_some _ _ _ _ _ _ (set_default_module_failure st name msg Hfail)).
    reflexivity.
  - intros Hshort Hfree Hbuf Hi.
    destruct (set_default_module_short st name Hshort Hfree Hbuf) as
      (st' & Hrun & Hd & Hne & Hprompt & Hlen & Hmods & Hp & Hc & Hh).
    { unfold select_failure. fold i.
      replace (MODULE_NAME_MAX_LEN <? String.length name) with false
        by (symmetry; apply Nat.ltb_ge; lia).
      apply Z.eqb_neq in Hi. now rewrite Hi. }
    exists st'. split; [|split; [exact Hd | now repeat split]].
    unfold shell_register_default_module.
    rewrite (bind_some _ _ _ _ _ _ Hrun). cbn [fst snd app Z.eqb negb].
    rewrite bind_printf, bind_gets, Hprompt. reflexivity.
Qed.

Lemma shell_register_default_module_announces_prompt_witness :
  shell_register_default_module "ble" st_ble
    = ([Print nl; Print "ble> "], Some (tt, st_ble_selected))
  /\ exists msg, shell_register_default_module "wifi" st_ble = ([Print msg], Some (tt, st_ble)).
Proof.
  split.
  - assert (Hlen : String.length "ble" < MODULE_NAME_MAX_LEN) by (vm_compute; lia).
    destruct (shell_register_default_module_announces_prompt st_ble "ble") as [_ Hok].
    destruct (Hok Hlen eq_refl eq_refl ltac:(vm_compute; discriminate)) as (st' & Hrun & _).
    rewrite Hrun. vm_compute in Hrun. inversion Hrun. reflexivity.
  - destruct (shell_register_default_module_announces_prompt st_ble "wifi") as [Hrefused _].
    destruct (Hrefused (or_intror eq_refl)) as (msg & Hrun & _).
    now exists msg.
Defined.

(** X19.  Processing a line calls at most one command callback, whatever
    the line and the state: the help printed after a negative return
    calls nothing. *)
Theorem shell_process_command_calls_at_most_once :
  forall (MAXARG : nat) (line : list ascii) (st : shell),
    List.length (calls (output (shell_process_command MAXARG line st))) <= 1.
Proof.
  intros MAXARG line st.
  destruct (line2argv line (repeat Indet (MAXARG + 1)) (MAXARG + 1) st)
    as [tr [[[[argc buf] argv] s1]|]] eqn:Htok.
  - assert (Hs1 : s1 = st) by (eapply line2argv_readonly; rewrite Htok; reflexivity).
    subst s1.
    assert (Htr : calls tr = []).
    { pose proof (line2argv_callfree line (repeat Indet (MAXARG + 1)) (MAXARG + 1) st) as H.
      now rewrite Htok in H. }
    destruct (Nat.eq_dec argc 0) as [->|Hargc].
    + unfold shell_process_command, output.
      rewrite (bind_some _ _ _ _ _ _ Htok). cbn [fst snd Nat.eqb].
      destruct (get_prompt_runs st) as (p & Hp).
      rewrite (bind_some _ _ _ _ _ _ Hp). cbn [fst console_printf app].
      rewrite calls_app, Htr. cbn. lia.
    + rewrite (shell_process_command_calls MAXARG line st tr argc buf argv Htok Hargc).
      destruct (resolved_callback st argc (argv_view buf argv argc)); cbn; lia.
  - unfold shell_process_command, output. rewrite (bind_none _ _ _ _ Htok). cbn [fst].
    pose proof (line2argv_callfree line (repeat Indet (MAXARG + 1)) (MAXARG + 1) st) as H.
    rewrite Htok in H. cbn [fst] in H. rewrite H. cbn. lia.
Qed.

Lemma shell_register_keeps_shell_wf MAX name cmds st t r st' :
  shell_register MAX name cmds st = (t, Some (r, st')) -> shell_wf st -> shell_wf st'.
Proof.
  unfold shell_register. rewrite bind_gets. intros H [Hdm Hbuf].
  destruct (MAX <=? num_of_shell_entities st).
  - inversion H; subst. now split.
  - rewrite bind_modify in H. inversion H; subst. split; [|exact Hbuf].
    unfold num_of_shell_entities in *. cbn [set_shell_modules shell_modules default_module].
    rewrite length_app. cbn [List.length]. destruct Hdm as [Hdm | Hdm]; [now left | right; lia].
Qed.

(** X20.  The state the C start-up code leaves has [default_module] at
    -1 and the prompt array at its size, and every entry point keeps
    that: after [shell_init], [shell_register], the registration of a
    handler or [shell_register_default_module], [default_module] is
    still -1 or the index of a registered module, and the prompt array
    still has PROMPT_MAX_LEN bytes. *)
Theorem entry_points_keep_default_module_valid :
  shell_wf shell_start
  /\ forall st : shell, shell_wf st ->
       (forall t st', shell_init st = (t, Some (tt, st')) -> shell_wf st')
       /\ (forall MAX name cmds t r st',
              shell_register MAX name cmds st = (t, Some (r, st')) -> shell_wf st')
       /\ (forall h t st',
              shell_register_app_cmd_handler h st = (t, Some (tt, st')) -> shell_wf st')
       /\ (forall h t st',
              shell_register_prompt_handler h st = (t, Some (tt, st')) -> shell_wf st')
       /\ (forall name t st',
              shell_register_default_module name st = (t, Some (tt, st')) -> shell_wf st').
Proof.
  split; [split; [now left | reflexivity]|].
  intros st Hwf. split; [|split; [|split; [|split]]].
  - intros t st' H. inversion H; subst. exact Hwf.
  - intros MAX name cmds t r st' H. exact (shell_register_keeps_shell_wf _ _ _ _ _ _ _ H Hwf).
  - intros h t st' H. inversion H; subst. exact Hwf.
  - intros h t st' H. inversion H; subst. exact Hwf.
  - intros name t st' H. unfold shell_register_default_module in H.
    apply bind_inv in H as (t1 & r & s1 & t2 & Hset & H & _).
    destruct (set_default_module_frame _ _ _ _ _ Hset Hwf) as [Hwf1 _].
    destruct (negb (r =? -1)%Z).
    + rewrite bind_printf, bind_gets in H. cbn in H. inversion H; subst. exact Hwf1.
    + inversion H; subst. exact Hwf1.
Qed.

Lemma entry_points_keep_default_module_valid_witness :
  shell_wf st_ble_selected.
Proof.
  destruct entry_points_keep_default_module_valid as [_ Hkeep].
  assert (Hwf : shell_wf st_ble) by (split; [now left | reflexivity]).
  destruct (Hkeep st_ble Hwf) as (_ & _ & _ & _ & Hdefault).
  exact (Hdefault "ble" _ st_ble_selected eq_refl).
Defined.
